(** * Transcription benchmark: normalisation, cache key and compression plan

    A shallow embedding of the result-normalisation core of
    [benchmark/app.py]:

    - [parse_timestamp] and [parse_gemini_diarization] (the diarization
      normalizer, with its marker patterns, merge pass and end-time pass),
    - [get_cache_key] (SHA-256 over the joined request fields),
    - [compress_audio_for_openai] (bitrate selection for the size ceiling),
      with the copy of its bitrate lines in [benchmark/test_all_models.py],
    - [get_cached_result], [save_to_cache] and [clear_cache] (the result
      cache, one JSON file for each key),
    - the route [/transcribe] (cache look-up, choice of the provider, the
      two writes), with the providers as parameters,
    - the size check that [transcribe_openai] makes before the upload.

    Text is a [string]: a sequence of code points below 256.  The cache
    key is given on texts of any code points too ([unicode]), where the
    encoding of a text can fail.  Python integers are [Z].  Python floats are IEEE binary64 values, taken from
    the Standard Library's [SpecFloat].  An exception is a value of [exn]
    carried by [result]; a bare [except:] becomes a match on [Raise].  The
    file system, the media probe and the encoder are parameters.  A
    directory is a finite map from file names to what the files hold;
    a JSON value that [json.dump] wrote is the value that [json.load]
    reads. *)

From Stdlib Require Import ZArith NArith Ascii String DecimalString Lia.
From Stdlib Require Import Floats.SpecFloat.
From stdpp Require Import base list strings gmap.

(** ** Exceptions *)

(** The classes of exception that the modelled code meets, each with
    its message.  ([UnicodeEncodeError] is a subclass of [ValueError];
    no handler of the modelled code tells the classes apart.) *)
Inductive exn : Type :=
| ValueError (msg : string)
| OverflowError (msg : string)
| ZeroDivisionError (msg : string)
| OSError (msg : string)
| UnicodeEncodeError (msg : string).

Inductive result (A : Type) : Type :=
| Ok (a : A)
| Raise (e : exn).
Arguments Ok {A} a.
Arguments Raise {A} e.

Definition bind {A B : Type} (r : result A) (k : A -> result B) : result B :=
  match r with
  | Ok a => k a
  | Raise e => Raise e
  end.

Notation "'let*' x ':=' e 'in' k" := (bind e (fun x => k))
  (at level 10, x name, e at level 100, k at level 200).

(** [str(z)] for an [int]. *)
Definition str_int (z : Z) : string :=
  DecimalString.NilZero.string_of_int (Z.to_int z).

(** ** Python [str] primitives used by the source *)

Module Py.

Definition code (c : ascii) : N := N_of_ascii c.

(** [str.isspace] on one character, which is also what [\s] accepts and
    what [str.strip] removes. *)
Definition isspace (c : ascii) : bool :=
  let n := code c in
  ((9 <=? n) && (n <=? 13) || (28 <=? n) && (n <=? 32)
   || (n =? 133) || (n =? 160))%N.

(** [\d] and the digits of [int]. *)
Definition isdecimal (c : ascii) : bool :=
  let n := code c in ((48 <=? n) && (n <=? 57))%N.

Definition isupper_AZ (c : ascii) : bool :=
  let n := code c in ((65 <=? n) && (n <=? 90))%N.

Fixpoint lstrip (s : string) : string :=
  match s with
  | EmptyString => EmptyString
  | String c s' => if isspace c then lstrip s' else s
  end.

Fixpoint rstrip (s : string) : string :=
  match s with
  | EmptyString => EmptyString
  | String c s' =>
      match rstrip s' with
      | EmptyString => if isspace c then EmptyString else String c EmptyString
      | r => String c r
      end
  end.

(** [s.strip()] *)
Definition strip (s : string) : string := rstrip (lstrip s).

(** [s.split(sep)] for a separator of one character. *)
Fixpoint split (sep : ascii) (s : string) : list string :=
  match s with
  | EmptyString => [EmptyString]
  | String c s' =>
      if Ascii.eqb c sep then EmptyString :: split sep s'
      else match split sep s' with
           | h :: t => String c h :: t
           | [] => [String c EmptyString]
           end
  end.

(** [sep.join(parts)] *)
Fixpoint join (sep : string) (parts : list string) : string :=
  match parts with
  | [] => EmptyString
  | [p] => p
  | p :: rest => p +:+ sep +:+ join sep rest
  end.

(** Truth value of a [str] and of an optional [str] ([None] is false). *)
Definition truthy (s : string) : bool :=
  match s with EmptyString => false | _ => true end.

Definition truthy_opt (o : option string) : bool :=
  match o with Some s => truthy s | None => false end.

(** [o or ''] *)
Definition or_empty (o : option string) : string :=
  match o with Some s => s | None => EmptyString end.

(** *** [int(s)] in base 10

    Blanks around the literal are skipped, one sign is allowed, and the
    digits may be grouped by single underscores.  [int] skips the ASCII
    blanks 9 to 13 and 32 and the two blanks above 127; the separators 28
    to 31 are not skipped.  A literal of more than [int_max_str_digits]
    digits is refused, whatever its value: the interpreter counts the
    digits of the run of digits and underscores that follows the sign,
    and it does so before it looks at what comes after the run. *)
Definition int_blank (c : ascii) : bool :=
  let n := code c in
  ((9 <=? n) && (n <=? 13) || (n =? 32) || (n =? 133) || (n =? 160))%N.

Fixpoint int_lskip (s : string) : string :=
  match s with
  | EmptyString => EmptyString
  | String c s' => if int_blank c then int_lskip s' else s
  end.

Fixpoint int_rskip (s : string) : string :=
  match s with
  | EmptyString => EmptyString
  | String c s' =>
      match int_rskip s' with
      | EmptyString => if int_blank c then EmptyString else String c EmptyString
      | r => String c r
      end
  end.

Definition digit_value (c : ascii) : option Z :=
  if isdecimal c then Some (Z.of_N (code c) - 48)%Z else None.

Inductive scanned : Type := AtStart | AfterDigit | AfterUnderscore.

Fixpoint int_digits (acc : Z) (prev : scanned) (s : string) : option Z :=
  match s with
  | EmptyString =>
      match prev with AfterDigit => Some acc | _ => None end
  | String c s' =>
      match digit_value c with
      | Some d => int_digits (10 * acc + d)%Z AfterDigit s'
      | None =>
          if Ascii.eqb c "_"
          then match prev with
               | AfterDigit => int_digits acc AfterUnderscore s'
               | _ => None
               end
          else None
      end
  end.

(** The value of a well-formed literal, whatever its length. *)
Definition int_literal (s : string) : option Z :=
  match int_rskip (int_lskip s) with
  | String "+" r => int_digits 0 AtStart r
  | String "-" r => Z.opp <$> int_digits 0 AtStart r
  | t => int_digits 0 AtStart t
  end.

(** [sys.get_int_max_str_digits()], as the interpreter starts. *)
Definition int_max_str_digits : nat := 4300.

(** The number of digits in the run of digits and underscores at the
    head of [s]; [None] for a run in which an underscore does not follow
    a digit, or which ends with one. *)
Fixpoint int_run (n : nat) (prev : scanned) (s : string) : option nat :=
  match s with
  | EmptyString =>
      match prev with AfterUnderscore => None | _ => Some n end
  | String c s' =>
      if isdecimal c then int_run (S n) AfterDigit s'
      else if Ascii.eqb c "_"
      then match prev with
           | AfterDigit => int_run n AfterUnderscore s'
           | _ => None
           end
      else match prev with AfterUnderscore => None | _ => Some n end
  end.

Definition int_unsigned (s : string) : string :=
  match s with
  | String "+" r => r
  | String "-" r => r
  | t => t
  end.

Definition int (s : string) : result Z :=
  match int_run 0 AtStart (int_unsigned (int_lskip s)) with
  | Some n =>
      if (int_max_str_digits <? n)%nat
      then Raise (ValueError
             ("Exceeds the limit (" +:+ str_int (Z.of_nat int_max_str_digits)
              +:+ " digits) for integer string conversion: value has "
              +:+ str_int (Z.of_nat n)
              +:+ " digits; use sys.set_int_max_str_digits() "
              +:+ "to increase the limit"))
      else match int_literal s with
           | Some z => Ok z
           | None =>
               Raise (ValueError "invalid literal for int() with base 10")
           end
  | None => Raise (ValueError "invalid literal for int() with base 10")
  end.

End Py.

(** ** [parse_timestamp] *)

(** The body of the [try] block: [None] stands for falling through to the
    final [return None]. *)
Definition parse_timestamp_try (ts : string) : result (option Z) :=
  let parts := Py.split ":" ts in
  match parts with
  | [p0; p1] =>
      let* m := Py.int p0 in
      let* s := Py.int p1 in
      Ok (Some (m * 60 + s)%Z)
  | [p0; p1; p2] =>
      let* h := Py.int p0 in
      let* m := Py.int p1 in
      let* s := Py.int p2 in
      Ok (Some (h * 3600 + m * 60 + s)%Z)
  | _ => Ok None
  end.

Definition parse_timestamp (ts : option string) : option Z :=
  if negb (Py.truthy_opt ts) then None
  else match parse_timestamp_try (Py.or_empty ts) with
       | Ok v => v
       | Raise _ => None
       end.

(** ** Regular expressions of the marker patterns

    The fragment of [re] that the six patterns use: literal characters,
    the classes [\s], [\d] and a character range, greedy repetition of
    one character with bounds, a greedy optional part and numbered
    capturing groups.  Matching backtracks in the order [re] does: a
    repetition tries the longest run first, an optional part is tried
    present before absent. *)

Module Re.

Inductive atom : Type :=
| Lit (c : ascii)
| Space
| Digit
| Range (lo hi : ascii).

Definition atom_ok (a : atom) (c : ascii) : bool :=
  match a with
  | Lit c' => Ascii.eqb c c'
  | Space => Py.isspace c
  | Digit => Py.isdecimal c
  | Range lo hi => ((Py.code lo <=? Py.code c) && (Py.code c <=? Py.code hi))%N
  end.

Inductive regex : Type :=
| Eps
| Atom (a : atom)
| Seq (r1 r2 : regex)
| Repeat (a : atom) (min : nat) (max : option nat)
| Opt (r : regex)
| Group (i : nat) (r : regex).

(** Captured groups, most recent binding first. *)
Definition caps : Type := list (nat * string).

Fixpoint group (i : nat) (c : caps) : option string :=
  match c with
  | [] => None
  | (j, s) :: c' => if Nat.eqb i j then Some s else group i c'
  end.

(** [len(match.groups())]: the number of capturing groups of the pattern. *)
Fixpoint ngroups (r : regex) : nat :=
  match r with
  | Eps | Atom _ | Repeat _ _ _ => 0
  | Seq r1 r2 => ngroups r1 + ngroups r2
  | Opt r1 => ngroups r1
  | Group _ r1 => S (ngroups r1)
  end.

(** The part of [s] in front of its suffix [rest]. *)
Definition consumed (s rest : string) : string :=
  String.substring 0 (String.length s - String.length rest) s.

Section Exec.
Context {R : Type}.

Fixpoint repeat_greedy (p : ascii -> bool) (min : nat) (max : option nat)
    (k : string -> option R) (s : string) {struct s} : option R :=
  let stop := match min with O => k s | S _ => None end in
  match s with
  | EmptyString => stop
  | String c s' =>
      if p c && match max with Some O => false | _ => true end
      then match repeat_greedy p (Nat.pred min) (Nat.pred <$> max) k s' with
           | Some x => Some x
           | None => stop
           end
      else stop
  end.

Fixpoint exec (r : regex) (k : string -> caps -> option R)
    (s : string) (c : caps) {struct r} : option R :=
  match r with
  | Eps => k s c
  | Atom a =>
      match s with
      | String ch s' => if atom_ok a ch then k s' c else None
      | EmptyString => None
      end
  | Seq r1 r2 => exec r1 (exec r2 k) s c
  | Repeat a min max =>
      repeat_greedy (atom_ok a) min max (fun s' => k s' c) s
  | Opt r1 =>
      match exec r1 k s c with
      | Some x => Some x
      | None => k s c
      end
  | Group i r1 =>
      exec r1 (fun s' c' => k s' ((i, consumed s s') :: c')) s c
  end.
End Exec.

(** A match anchored at the front of [s]: what is left of [s] behind the
    match, and the groups. *)
Definition match_here (r : regex) (s : string) : option (string * caps) :=
  exec r (fun s' c => Some (s', c)) s [].

(** [re.search(r, s)]: the leftmost position with a match. *)
Fixpoint search (r : regex) (s : string) : option caps :=
  match match_here r s with
  | Some (_, c) => Some c
  | None =>
      match s with
      | EmptyString => None
      | String _ s' => search r s'
      end
  end.

(** [re.sub(r, '', s)]: every match, left to right and without overlap, is
    cut out.  [skip] counts the characters of the current match that are
    still to be dropped.  An empty match replaced by the empty string
    leaves the text as it is. *)
Fixpoint sub_from (r : regex) (skip : nat) (s : string) {struct s} : string :=
  match s with
  | EmptyString => EmptyString
  | String ch s' =>
      match skip with
      | S n => sub_from r n s'
      | O =>
          match match_here r s with
          | Some (rest, _) =>
              match String.length s - String.length rest with
              | O => String ch (sub_from r 0 s')
              | S n => sub_from r n s'
              end
          | None => String ch (sub_from r 0 s')
          end
      end
  end.

Definition sub (r : regex) (s : string) : string := sub_from r 0 s.

(** Builders. *)
Definition seq (rs : list regex) : regex := foldr Seq Eps rs.

Fixpoint str (s : string) : regex :=
  match s with
  | EmptyString => Eps
  | String c s' => Seq (Atom (Lit c)) (str s')
  end.

End Re.

(** ** [parse_gemini_diarization] *)

(** One entry of the result list (a dict with these four keys). *)
Record segment : Type := Segment {
  speaker : string;
  text : string;
  start : option Z;
  end_ : option Z
}.

(** The marker patterns, in the order of the source; the timestamp part
    and the speaker group are shared by name. *)
Definition timestamp_re : Re.regex :=
  Re.seq [Re.Repeat Re.Digit 1 (Some 2); Re.Atom (Re.Lit ":");
          Re.Repeat Re.Digit 2 (Some 2);
          Re.Opt (Re.seq [Re.Atom (Re.Lit ":"); Re.Repeat Re.Digit 2 (Some 2)])].

Definition speaker_letter : Re.regex := Re.Group 1 (Re.Atom (Re.Range "A" "Z")).

Definition patterns : list Re.regex :=
  [ (* \[Speaker\s+([A-Z]),?\s*(\d{1,2}:\d{2}(?::\d{2})?)\] *)
    Re.seq [Re.str "[Speaker"; Re.Repeat Re.Space 1 None; speaker_letter;
            Re.Opt (Re.Atom (Re.Lit ",")); Re.Repeat Re.Space 0 None;
            Re.Group 2 timestamp_re; Re.str "]"];
    (* \*\*Speaker\s+([A-Z])\s*\((\d{1,2}:\d{2}(?::\d{2})?)\):\*\* *)
    Re.seq [Re.str "**Speaker"; Re.Repeat Re.Space 1 None; speaker_letter;
            Re.Repeat Re.Space 0 None; Re.str "(";
            Re.Group 2 timestamp_re; Re.str "):**"];
    (* Speaker\s+([A-Z])\s*\((\d{1,2}:\d{2}(?::\d{2})?)\): *)
    Re.seq [Re.str "Speaker"; Re.Repeat Re.Space 1 None; speaker_letter;
            Re.Repeat Re.Space 0 None; Re.str "(";
            Re.Group 2 timestamp_re; Re.str "):"];
    (* \[Speaker\s+([A-Z])\] *)
    Re.seq [Re.str "[Speaker"; Re.Repeat Re.Space 1 None; speaker_letter;
            Re.str "]"];
    (* \*\*Speaker\s+([A-Z]):\*\* *)
    Re.seq [Re.str "**Speaker"; Re.Repeat Re.Space 1 None; speaker_letter;
            Re.str ":**"];
    (* Speaker\s+([A-Z]): *)
    Re.seq [Re.str "Speaker"; Re.Repeat Re.Space 1 None; speaker_letter;
            Re.str ":"] ].

(** The variables of the main loop. *)
Record loop_state : Type := LoopState {
  segments : list segment;
  current_speaker : option string;
  current_text : list string;
  current_time : option string
}.

Definition initial_state : loop_state :=
  {| segments := []; current_speaker := None;
     current_text := []; current_time := None |}.

(** What the inner [for pattern in patterns] loop leaves behind. *)
Record scan : Type := Scan {
  speaker_found : option string;
  time_found : option string;
  line_rest : string
}.

(** [f"Speaker {match.group(1)}"] *)
Definition speaker_label (g1 : option string) : string :=
  "Speaker " +:+ match g1 with Some g => g | None => "None" end.

Fixpoint scan_patterns (ps : list Re.regex) (line : string) : scan :=
  match ps with
  | [] => {| speaker_found := None; time_found := None; line_rest := line |}
  | pattern :: ps' =>
      match Re.search pattern line with
      | Some m =>
          {| speaker_found := Some (speaker_label (Re.group 1 m));
             time_found :=
               if (1 <? Re.ngroups pattern)%nat && Py.truthy_opt (Re.group 2 m)
               then Re.group 2 m else None;
             line_rest := Py.strip (Re.sub pattern line) |}
      | None => scan_patterns ps' line
      end
  end.

Definition nonempty {A : Type} (l : list A) : bool :=
  match l with [] => false | _ => true end.

(** The [if current_speaker and current_text: segments.append(...)] block,
    which the source has once inside the loop and once behind it. *)
Definition close_out (st : loop_state) : list segment :=
  if Py.truthy_opt (current_speaker st) && nonempty (current_text st)
  then segments st ++
       [ {| speaker := Py.or_empty (current_speaker st);
            text := Py.strip (Py.join " " (current_text st));
            start := parse_timestamp (current_time st);
            end_ := None |} ]
  else segments st.

(** One turn of [for line in lines]. *)
Definition process_line (st : loop_state) (raw_line : string) : loop_state :=
  let line := Py.strip raw_line in
  if negb (Py.truthy line) then st
  else
    let sc := scan_patterns patterns line in
    if Py.truthy_opt (speaker_found sc)
    then {| segments := close_out st;
            current_speaker := speaker_found sc;
            current_text :=
              if Py.truthy (line_rest sc) then [line_rest sc] else [];
            current_time := time_found sc |}
    else if Py.truthy_opt (current_speaker st)
    then {| segments := segments st;
            current_speaker := current_speaker st;
            current_text := current_text st ++ [line_rest sc];
            current_time := current_time st |}
    else st.

(** The unmerged segment list: the loop over the lines, then the last
    open segment. *)
Definition raw_segments (raw : string) : list segment :=
  close_out (foldl process_line initial_state (Py.split (ascii_of_nat 10) raw)).

(** Merge pass.  [merged_segments[-1]["text"] += " " + seg["text"]]
    updates the last entry in place.  (The entry is the dict that
    [segments] holds too; [segments] is not read again.) *)
Definition append_text (seg : segment) (more : string) : segment :=
  {| speaker := speaker seg; text := text seg +:+ " " +:+ more;
     start := start seg; end_ := end_ seg |}.

Definition merge_step (merged_segments : list segment) (seg : segment)
    : list segment :=
  match last merged_segments with
  | Some prev =>
      if String.eqb (speaker prev) (speaker seg)
      then <[Nat.pred (length merged_segments) := append_text prev (text seg)]>
             merged_segments
      else merged_segments ++ [seg]
  | None => merged_segments ++ [seg]
  end.

Definition merge_segments (segs : list segment) : list segment :=
  foldl merge_step [] segs.

(** End-time pass: entry [i] takes the start of entry [i + 1] when there
    is one and it is not [None]. *)
Definition set_end (seg : segment) (t : Z) : segment :=
  {| speaker := speaker seg; text := text seg;
     start := start seg; end_ := Some t |}.

Definition end_time_step (merged_segments : list segment) (i : nat)
    : list segment :=
  match merged_segments !! i, merged_segments !! (i + 1)%nat with
  | Some seg, Some next =>
      match start next with
      | Some t => <[i := set_end seg t]> merged_segments
      | None => merged_segments
      end
  | _, _ => merged_segments
  end.

Definition infer_end_times (merged_segments : list segment) : list segment :=
  foldl end_time_step merged_segments (seq 0 (length merged_segments)).

Definition parse_gemini_diarization (raw : string) : list segment :=
  infer_end_times (merge_segments (raw_segments raw)).

(** ** [hashlib.sha256] and [get_cache_key] *)

Module SHA256.
Local Open Scope N_scope.

Definition mask32 : N := 0xffffffff.
Definition add32 (x y : N) : N := N.land (x + y) mask32.
Definition rotr (n x : N) : N :=
  N.lor (N.shiftr x n) (N.land (N.shiftl x (32 - n)) mask32).
Definition not32 (x : N) : N := N.lxor x mask32.

Definition Ch (x y z : N) : N := N.lxor (N.land x y) (N.land (not32 x) z).
Definition Maj (x y z : N) : N :=
  N.lxor (N.land x y) (N.lxor (N.land x z) (N.land y z)).
Definition Sigma0 (x : N) : N := N.lxor (rotr 2 x) (N.lxor (rotr 13 x) (rotr 22 x)).
Definition Sigma1 (x : N) : N := N.lxor (rotr 6 x) (N.lxor (rotr 11 x) (rotr 25 x)).
Definition sigma0 (x : N) : N := N.lxor (rotr 7 x) (N.lxor (rotr 18 x) (N.shiftr x 3)).
Definition sigma1 (x : N) : N := N.lxor (rotr 17 x) (N.lxor (rotr 19 x) (N.shiftr x 10)).

Definition K : list N :=
  [ 1116352408; 1899447441; 3049323471; 3921009573; 961987163; 1508970993;
    2453635748; 2870763221; 3624381080; 310598401; 607225278; 1426881987;
    1925078388; 2162078206; 2614888103; 3248222580; 3835390401; 4022224774;
    264347078; 604807628; 770255983; 1249150122; 1555081692; 1996064986;
    2554220882; 2821834349; 2952996808; 3210313671; 3336571891; 3584528711;
    113926993; 338241895; 666307205; 773529912; 1294757372; 1396182291;
    1695183700; 1986661051; 2177026350; 2456956037; 2730485921; 2820302411;
    3259730800; 3345764771; 3516065817; 3600352804; 4094571909; 275423344;
    430227734; 506948616; 659060556; 883997877; 958139571; 1322822218;
    1537002063; 1747873779; 1955562222; 2024104815; 2227730452; 2361852424;
    2428436474; 2756734187; 3204031479; 3329325298 ].

(** The eight working words. *)
Record words : Type := Words {
  wa : N; wb : N; wc : N; wd : N; we : N; wf : N; wg : N; wh : N
}.

Definition H0 : words :=
  Words 1779033703 3144134277 1013904242 2773480762
        1359893119 2600822924 528734635 1541459225.

(** Padding: a one bit, zeros up to 56 modulo 64, the bit length on eight
    bytes, most significant first. *)
Definition be_bytes (width : nat) (x : N) : list N :=
  map (fun i => N.land (N.shiftr x (8 * N.of_nat i)) 0xff) (rev (seq 0 width)).

Definition pad (msg : list N) : list N :=
  let len := N.of_nat (length msg) in
  let zeros := N.to_nat ((55 + 64 - len mod 64) mod 64) in
  msg ++ [0x80] ++ repeat 0 zeros ++ be_bytes 8 (8 * len).

Fixpoint be_words (bs : list N) : list N :=
  match bs with
  | b0 :: b1 :: b2 :: b3 :: rest =>
      (N.shiftl b0 24 + N.shiftl b1 16 + N.shiftl b2 8 + b3) :: be_words rest
  | _ => []
  end.

(** Message schedule, newest word first while it is built. *)
Fixpoint expand (n : nat) (w : list N) : list N :=
  match n with
  | O => w
  | S n' =>
      let x := add32 (add32 (sigma1 (nth 1 w 0)) (nth 6 w 0))
                     (add32 (sigma0 (nth 14 w 0)) (nth 15 w 0)) in
      expand n' (x :: w)
  end.

Definition schedule (block : list N) : list N :=
  rev (expand 48 (rev (be_words block))).

Definition round (st : words) (kw : N * N) : words :=
  let t1 := add32 (add32 (add32 (wh st) (Sigma1 (we st)))
                         (add32 (Ch (we st) (wf st) (wg st)) (fst kw)))
                  (snd kw) in
  let t2 := add32 (Sigma0 (wa st)) (Maj (wa st) (wb st) (wc st)) in
  Words (add32 t1 t2) (wa st) (wb st) (wc st)
        (add32 (wd st) t1) (we st) (wf st) (wg st).

Definition compress (h : words) (block : list N) : words :=
  let st := foldl round h (combine K (schedule block)) in
  Words (add32 (wa h) (wa st)) (add32 (wb h) (wb st))
        (add32 (wc h) (wc st)) (add32 (wd h) (wd st))
        (add32 (we h) (we st)) (add32 (wf h) (wf st))
        (add32 (wg h) (wg st)) (add32 (wh h) (wh st)).

Fixpoint blocks (fuel : nat) (bs : list N) : list (list N) :=
  match fuel, bs with
  | S fuel', _ :: _ => take 64 bs :: blocks fuel' (drop 64 bs)
  | _, _ => []
  end.

Definition digest (msg : list N) : words :=
  let padded := pad msg in
  foldl compress H0 (blocks (length padded) padded).

Definition hex_digit (x : N) : ascii :=
  let d := N.land x 0xf in
  ascii_of_N (if d <? 10 then 48 + d else 87 + d).

Definition hex_word (x : N) (tail : string) : string :=
  String (hex_digit (N.shiftr x 28)) (String (hex_digit (N.shiftr x 24))
  (String (hex_digit (N.shiftr x 20)) (String (hex_digit (N.shiftr x 16))
  (String (hex_digit (N.shiftr x 12)) (String (hex_digit (N.shiftr x 8))
  (String (hex_digit (N.shiftr x 4)) (String (hex_digit x) tail))))))).

(** [hashlib.sha256(msg).hexdigest()] *)
Definition hexdigest (msg : list N) : string :=
  let h := digest msg in
  hex_word (wa h) (hex_word (wb h) (hex_word (wc h) (hex_word (wd h)
  (hex_word (we h) (hex_word (wf h) (hex_word (wg h) (hex_word (wh h)
  EmptyString))))))).

End SHA256.

(** A [str] in general: its code points, each below 0x110000, the
    surrogates D800 to DFFF included (a text read from JSON can hold
    them). *)
Definition unicode : Type := list N.

(** The code points of a text of the other parts of the model. *)
Definition points (s : string) : unicode := map Py.code (list_ascii_of_string s).

Definition is_surrogate (n : N) : bool := ((0xD800 <=? n) && (n <=? 0xDFFF))%N.

(** The bytes of one code point in UTF-8. *)
Definition utf8 (n : N) : list N :=
  (if n <? 0x80 then [n]
   else if n <? 0x800 then [0xC0 + N.shiftr n 6; 0x80 + N.land n 0x3F]
   else if n <? 0x10000
   then [0xE0 + N.shiftr n 12; 0x80 + N.land (N.shiftr n 6) 0x3F;
         0x80 + N.land n 0x3F]
   else [0xF0 + N.shiftr n 18; 0x80 + N.land (N.shiftr n 12) 0x3F;
         0x80 + N.land (N.shiftr n 6) 0x3F; 0x80 + N.land n 0x3F])%N.

(** The surrogates at the head of a text. *)
Fixpoint surrogate_run (s : unicode) : nat :=
  match s with
  | n :: s' => if is_surrogate n then S (surrogate_run s') else O
  | [] => O
  end.

(** The error of the codec for the surrogates from [pos] on: the first
    one is [n], [more] others follow it. *)
Definition surrogates_not_allowed (pos : nat) (n : N) (more : nat) : exn :=
  UnicodeEncodeError
    (match more with
     | O =>
         "'utf-8' codec can't encode character '\u"
         +:+ String (SHA256.hex_digit (N.shiftr n 12))
               (String (SHA256.hex_digit (N.shiftr n 8))
                  (String (SHA256.hex_digit (N.shiftr n 4))
                     (String (SHA256.hex_digit n) EmptyString)))
         +:+ "' in position " +:+ str_int (Z.of_nat pos)
     | S _ =>
         "'utf-8' codec can't encode characters in position "
         +:+ str_int (Z.of_nat pos) +:+ "-" +:+ str_int (Z.of_nat (pos + more))
     end +:+ ": surrogates not allowed").

Fixpoint encode_from (pos : nat) (s : unicode) : result (list N) :=
  match s with
  | [] => Ok []
  | n :: s' =>
      if is_surrogate n
      then Raise (surrogates_not_allowed pos n (surrogate_run s'))
      else let* rest := encode_from (S pos) s' in Ok (utf8 n ++ rest)
  end.

(** [s.encode()]: UTF-8, which refuses the surrogates. *)
Definition encode (s : unicode) : result (list N) := encode_from 0 s.

(** [o or ''] *)
Definition or_empty (o : option unicode) : unicode :=
  match o with Some s => s | None => [] end.

Section CacheKey.
(** The file system: [str(Path(p).stat().st_mtime)], or the exception
    that reading it raises. *)
Variable stat_mtime : unicode -> result string.

Definition get_cache_key (audio_path model : unicode)
    (language prompt : option unicode) : result string :=
  let mtime :=
    match stat_mtime audio_path with
    | Ok m => points m
    | Raise _ => []
    end in
  let key_data :=
    audio_path ++ points "|" ++ mtime ++ points "|" ++ model ++ points "|"
    ++ or_empty language ++ points "|" ++ or_empty prompt in
  let* data := encode key_data in
  Ok (String.substring 0 16 (SHA256.hexdigest data)).
End CacheKey.

(** The same on texts of code points below 256, which is what the route
    below works with.  The encoding cannot fail there and the key is the
    one above ([latin1_key]). *)
Module Latin1.

(** [s.encode()]: one byte below 128 and two bytes from 128 to 255. *)
Fixpoint encode (s : string) : list N :=
  match s with
  | EmptyString => []
  | String c s' =>
      let n := Py.code c in
      if (n <? 128)%N then n :: encode s'
      else (192 + N.shiftr n 6)%N :: (128 + N.land n 63)%N :: encode s'
  end.

Section CacheKey.
Variable stat_mtime : string -> result string.

Definition get_cache_key (audio_path model : string)
    (language prompt : option string) : string :=
  let mtime :=
    match stat_mtime audio_path with
    | Ok m => m
    | Raise _ => EmptyString
    end in
  let key_data :=
    audio_path +:+ "|" +:+ mtime +:+ "|" +:+ model +:+ "|"
    +:+ Py.or_empty language +:+ "|" +:+ Py.or_empty prompt in
  String.substring 0 16 (SHA256.hexdigest (encode key_data)).
End CacheKey.

End Latin1.

(** ** Floats and [compress_audio_for_openai] *)

Module Float.

Definition prec : Z := 53.
Definition emax : Z := 1024.

(** A Python [float] is a binary64 value. *)
Definition float : Type := spec_float.

(** [float(z)] for an [int], rounded to nearest even. *)
Definition of_Z (z : Z) : float := binary_normalize prec emax z 0 false.

Definition zero : float := S754_zero false.
Definition mul (x y : float) : float := SFmul prec emax x y.
Definition leb (x y : float) : bool := SFleb x y.
Definition ltb (x y : float) : bool := SFltb x y.

Definition is_zero (x : float) : bool :=
  match x with S754_zero _ => true | _ => false end.


(** [x / y] *)
Definition truediv (x y : float) : result float :=
  if is_zero y then Raise (ZeroDivisionError "float division by zero")
  else Ok (SFdiv prec emax x y).

(** [int(x)]: truncation towards zero. *)
Definition to_int (x : float) : result Z :=
  match x with
  | S754_zero _ => Ok 0%Z
  | S754_finite sign m e =>
      let magnitude := Z.shiftl (Z.pos m) e in
      Ok (if sign then Z.opp magnitude else magnitude)
  | S754_infinity _ =>
      Raise (OverflowError "cannot convert float infinity to integer")
  | S754_nan => Raise (ValueError "cannot convert float NaN to integer")
  end.

End Float.

(** The calls by which the function acts on the outside world, in the
    order it makes them.  A call is recorded when it is made, whether it
    then returns or raises. *)
Inductive event : Type :=
| Mkdir (path : string)
| RunFfmpeg (cmd : list string).

(** A computation that may raise and that records its events. *)
Definition io (A : Type) : Type := list event * result A.

Definition io_ret {A : Type} (a : A) : io A := ([], Ok a).
Definition io_lift {A : Type} (r : result A) : io A := ([], r).
Definition io_emit (e : event) : io unit := ([e], Ok tt).

Definition io_bind {A B : Type} (m : io A) (k : A -> io B) : io B :=
  match m with
  | (evs, Ok a) => (evs ++ fst (k a), snd (k a))
  | (evs, Raise e) => (evs, Raise e)
  end.

Notation "'do!' x ':=' e 'in' k" := (io_bind e (fun x => k))
  (at level 10, x name, e at level 100, k at level 200).

Section Compression.
(** The collaborators: the file system, the media probe, the encoder
    and the path helpers.  [gettempdir] is what [tempfile.gettempdir()]
    returns, or the exception it raises when no directory can be used;
    [mkdir d] is how [Path(d).mkdir(exist_ok=True)] ends. *)
Variable st_size : string -> result Z.
Variable ffprobe_duration : string -> result Float.float.
Variable ffmpeg : list string -> result (Z * string).
Variable gettempdir : result string.
Variable mkdir : string -> result unit.
Variable path_stem : string -> string.

(** [float(result.stdout.strip())], and [0.0] on any exception. *)
Definition get_audio_duration (file_path : string) : Float.float :=
  match ffprobe_duration file_path with
  | Ok d => d
  | Raise _ => Float.zero
  end.

Definition duration_error : exn :=
  ValueError "Could not determine audio duration for compression".

(** From [if duration <= 0] to the clamped [target_kbps]. *)
Definition target_bitrate (target_mb duration : Float.float) : result Z :=
  if Float.leb duration Float.zero then Raise duration_error
  else
    let* q := Float.truediv
                (Float.mul (Float.mul target_mb (Float.of_Z 8))
                           (Float.of_Z 1024))
                duration in
    let* target_kbps := Float.to_int q in
    Ok (Z.max 32 (Z.min target_kbps 128)).

Definition ffmpeg_cmd (audio_path : string) (target_kbps : Z)
    (compressed_path : string) : list string :=
  [ "ffmpeg"; "-y"; "-i"; audio_path; "-ac"; "1"; "-ar"; "16000";
    "-b:a"; str_int target_kbps +:+ "k"; "-acodec"; "aac"; compressed_path ].

(** The function.  [st_size / (1024 * 1024)] divides two integers; for
    sizes a file can have the result is the float of the size divided by
    2^20.  [Path(d) / name] is written as the two texts joined by the
    separator, [d] being an absolute path that does not end with one.
    The closing [print] reads the new size and is otherwise left out. *)
Definition compress_audio_for_openai (audio_path : string)
    (target_mb : Float.float) : io string :=
  do! size := io_lift (st_size audio_path) in
  let file_size_mb :=
    SFdiv Float.prec Float.emax (Float.of_Z size) (Float.of_Z (1024 * 1024)) in
  if Float.leb file_size_mb target_mb then io_ret audio_path
  else
    let duration := get_audio_duration audio_path in
    do! target_kbps := io_lift (target_bitrate target_mb duration) in
    do! tmp := io_lift gettempdir in
    let temp_dir := tmp +:+ "/" +:+ "benchmark_compressed" in
    do! _ := io_emit (Mkdir temp_dir) in
    do! _ := io_lift (mkdir temp_dir) in
    let compressed_path :=
      temp_dir +:+ "/" +:+ "compressed_" +:+ path_stem audio_path +:+ ".m4a" in
    let cmd := ffmpeg_cmd audio_path target_kbps compressed_path in
    do! _ := io_emit (RunFfmpeg cmd) in
    do! res := io_lift (ffmpeg cmd) in
    if negb (fst res =? 0)%Z
    then io_lift (Raise (ValueError
           ("Compression failed: " +:+ String.substring 0 200 (snd res))))
    else
      do! _ := io_lift (st_size compressed_path) in
      io_ret compressed_path.
End Compression.

(** The same plan in [test_all_models.py] ([compress_audio]): the lines
    from [if duration <= 0] to the clamp, with its own error text. *)
Module TestAllModels.

Definition target_bitrate (target_mb duration : Float.float) : result Z :=
  if Float.leb duration Float.zero
  then Raise (ValueError "Could not determine audio duration")
  else
    let* q := Float.truediv
                (Float.mul (Float.mul target_mb (Float.of_Z 8))
                           (Float.of_Z 1024))
                duration in
    let* target_kbps := Float.to_int q in
    Ok (Z.max 32 (Z.min target_kbps 128)).

End TestAllModels.

(** * Vocabulary of the properties *)

(** [c in s] *)
Fixpoint has_char (c : ascii) (s : string) : bool :=
  match s with
  | EmptyString => false
  | String c' s' => Ascii.eqb c' c || has_char c s'
  end.

(** The number of decimal digits in a text. *)
Fixpoint count_decimal (s : string) : nat :=
  match s with
  | EmptyString => O
  | String c s' => if Py.isdecimal c then S (count_decimal s') else count_decimal s'
  end.

(** The two layouts, as texts: fields free of colons, each an integer
    literal.  Two fields: minutes, seconds. *)
Definition literal_m_ss (ts : string) (m s : Z) : Prop :=
  exists p0 p1,
    ts = p0 +:+ ":" +:+ p1
    /\ has_char ":" p0 = false /\ has_char ":" p1 = false
    /\ Py.int_literal p0 = Some m /\ Py.int_literal p1 = Some s.

(** The same with fields that [int] accepts: by [int_accepts] below, the
    literals of at most 4300 digits. *)
Definition layout_m_ss (ts : string) (m s : Z) : Prop :=
  exists p0 p1,
    ts = p0 +:+ ":" +:+ p1
    /\ has_char ":" p0 = false /\ has_char ":" p1 = false
    /\ Py.int p0 = Ok m /\ Py.int p1 = Ok s.

(** Three fields: hours, minutes, seconds. *)
Definition layout_h_mm_ss (ts : string) (h m s : Z) : Prop :=
  exists p0 p1 p2,
    ts = p0 +:+ ":" +:+ p1 +:+ ":" +:+ p2
    /\ has_char ":" p0 = false /\ has_char ":" p1 = false
    /\ has_char ":" p2 = false
    /\ Py.int p0 = Ok h /\ Py.int p1 = Ok m /\ Py.int p2 = Ok s.

(** [n] times the character [c]. *)
Definition run_of (c : ascii) (n : nat) : string :=
  string_of_list_ascii (repeat c n).

(** No two neighbours of the list carry the same speaker label. *)
Definition adjacent_distinct (l : list segment) : Prop :=
  forall i a b, l !! i = Some a -> l !! S i = Some b -> speaker a <> speaker b.

(** The merge pass as the specification words it, walking the unmerged
    list with the segment [kept] before the rest: a segment with the
    label of the one before it gives its text to that one, after a
    single space, and is dropped; any other segment is kept in turn. *)
Fixpoint merge_from (kept : segment) (rest : list segment) : list segment :=
  match rest with
  | [] => [kept]
  | seg :: rest' =>
      if String.eqb (speaker seg) (speaker kept)
      then merge_from {| speaker := speaker kept;
                         text := text kept +:+ " " +:+ text seg;
                         start := start kept;
                         end_ := end_ kept |} rest'
      else kept :: merge_from seg rest'
  end.

Definition merge_spec (segs : list segment) : list segment :=
  match segs with
  | [] => []
  | seg :: rest => merge_from seg rest
  end.

(** What the end-time pass does not write. *)
Definition said (seg : segment) : string * string * option Z :=
  (speaker seg, text seg, start seg).

(** Entry [i] of the result, read off the list the pass starts from. *)
Definition with_next_start (l : list segment) (i : nat) : option segment :=
  match l !! i with
  | Some seg =>
      match l !! S i with
      | Some next =>
          match start next with
          | Some t => Some (set_end seg t)
          | None => Some seg
          end
      | None => Some seg
      end
  | None => None
  end.

(** The line feed, as a text. *)
Definition nl : string := String (ascii_of_nat 10) EmptyString.

(** The line carries a recognized marker. *)
Definition marker_line (raw_line : string) : bool :=
  Py.truthy (Py.strip raw_line)
  && Py.truthy_opt (speaker_found (scan_patterns patterns (Py.strip raw_line))).

(** A segment is open. *)
Definition is_open (st : loop_state) : bool :=
  Py.truthy_opt (current_speaker st).

(** The segment that closing builds from the loop variables. *)
Definition open_segment (st : loop_state) : segment :=
  {| speaker := Py.or_empty (current_speaker st);
     text := Py.strip (Py.join " " (current_text st));
     start := parse_timestamp (current_time st);
     end_ := None |}.

(** Group 1, when bound, holds one letter from A to Z. *)
Definition letter_caps (c : Re.caps) : Prop :=
  forall g, Re.group 1 c = Some g ->
  exists ch, Py.isupper_AZ ch = true /\ g = String ch EmptyString.

(** Every group numbered 1 of the pattern is the class [[A-Z]]. *)
Fixpoint groups_ok (r : Re.regex) : bool :=
  match r with
  | Re.Eps | Re.Atom _ | Re.Repeat _ _ _ => true
  | Re.Seq r1 r2 => groups_ok r1 && groups_ok r2
  | Re.Opt r1 => groups_ok r1
  | Re.Group i r1 =>
      if Nat.eqb i 1
      then match r1 with
           | Re.Atom (Re.Range lo hi) => Ascii.eqb lo "A" && Ascii.eqb hi "Z"
           | _ => false
           end
      else groups_ok r1
  end.

(** Every match of the pattern binds group 1. *)
Fixpoint binds1 (r : Re.regex) : bool :=
  match r with
  | Re.Seq r1 r2 => binds1 r1 || binds1 r2
  | Re.Group i r1 => Nat.eqb i 1 || binds1 r1
  | _ => false
  end.

(** The labels the normalizer can produce. *)
Definition letter_label (lbl : string) : Prop :=
  exists ch, Py.isupper_AZ ch = true /\ lbl = "Speaker " +:+ String ch EmptyString.

(** "Speaker A" to "Speaker Z". *)
Definition speaker_labels : list string :=
  map (fun n => "Speaker " +:+ String (ascii_of_nat n) EmptyString) (seq 65 26).

(** Loop invariant: every closed segment and the open speaker carry a
    label of the form "Speaker X". *)
Definition labels_inv (st : loop_state) : Prop :=
  Forall (fun seg => letter_label (speaker seg)) (segments st)
  /\ (forall sp, current_speaker st = Some sp -> letter_label sp).

(** The parts with the delimiter between them. *)
Fixpoint joined (delimiter : unicode) (parts : list unicode) : unicode :=
  match parts with
  | [] => []
  | [part] => part
  | part :: rest => part ++ delimiter ++ joined delimiter rest
  end.

(** The key as the specification words it: the five components joined by
    the delimiter, hashed, cut to 16 characters. *)
Definition derive_key_spec (audioIdentity modificationTime modelId
    language_or_empty instructionText_or_empty : unicode) : result string :=
  let* data := encode (joined (points "|")
                         [audioIdentity; modificationTime; modelId;
                          language_or_empty; instructionText_or_empty]) in
  Ok (String.substring 0 16 (SHA256.hexdigest data)).

(** A text with a surrogate in it. *)
Definition has_surrogate (s : unicode) : bool := existsb is_surrogate s.

(** A lower-case hexadecimal digit. *)
Definition is_hex (c : ascii) : bool :=
  let n := Py.code c in
  ((48 <=? n) && (n <=? 57) || (97 <=? n) && (n <=? 102))%N.

(** Every character of [s] is one. *)
Fixpoint all_hex (s : string) : bool :=
  match s with
  | EmptyString => true
  | String c s' => is_hex c && all_hex s'
  end.

(** The smallest positive binary64 value, 2^-1074. *)
Definition tiny_duration : Float.float := S754_finite false 1 (-1074).

(** The quotient that the plan converts to an integer. *)
Definition bitrate_quotient (target_mb duration : Float.float) : Float.float :=
  SFdiv Float.prec Float.emax
    (Float.mul (Float.mul target_mb (Float.of_Z 8)) (Float.of_Z 1024))
    duration.

Section CompressionVocabulary.
Variable st_size : string -> result Z.
Variable ffprobe_duration : string -> result Float.float.

(** The source file is larger than the target. *)
Definition exceeds_target (audio_path : string) (target_mb : Float.float)
    : Prop :=
  exists size,
    st_size audio_path = Ok size
    /\ Float.leb (SFdiv Float.prec Float.emax (Float.of_Z size)
                        (Float.of_Z (1024 * 1024))) target_mb = false.

(** The probe gave no duration, or gave zero. *)
Definition duration_unknown_or_zero (audio_path : string) : Prop :=
  (exists e, ffprobe_duration audio_path = Raise e)
  \/ (exists d, ffprobe_duration audio_path = Ok d /\ Float.is_zero d = true).

End CompressionVocabulary.

(** Where the compressed file goes, under the temporary directory
    [tmp]. *)
Definition compressed_path_of (tmp : string) (path_stem : string -> string)
    (audio_path : string) : string :=
  (tmp +:+ "/" +:+ "benchmark_compressed") +:+ "/" +:+ "compressed_"
  +:+ path_stem audio_path +:+ ".m4a".

(** * The cache, the route and the upload *)

(** ** The result cache and the [/transcribe] route *)

(** A value that [json.dump] writes and [json.load] reads. *)
#[warnings="-register-all"]
Inductive json : Type :=
| JNull
| JBool (b : bool)
| JInt (z : Z)
| JFloat (f : Float.float)
| JStr (s : string)
| JList (l : list json)
| JObj (d : gmap string json).

(** A Python [dict] with text keys. *)
Abbreviation dict := (gmap string json).

(** [bool(d)] *)
Definition dict_truthy (d : dict) : bool := negb (bool_decide (d = ∅)).

(** What a file of a directory holds: the text of a JSON value, or
    anything that [open] or [json.load] fails on. *)
Inductive file : Type :=
| FJson (j : json)
| FOther.

(** A directory: what it holds, by the path below it.  Two paths are
    two files; a path with [..] in it is not told from the file it
    reaches. *)
Abbreviation directory := (gmap string file).

(** How writing a file ends: [open(.., "w")] raises and nothing changes,
    [json.dump] raises on the way and leaves a cut text, or the text is
    written in full. *)
Inductive write_outcome : Type :=
| Written
| OpenFailed (e : exn)
| DumpFailed (e : exn).

(** [with open(name, "w") as f: json.dump(value, f)] on a directory. *)
Definition dump_to (w : write_outcome) (d : directory) (name : string)
    (value : json) : directory * result unit :=
  match w with
  | Written => (<[name := FJson value]> d, Ok tt)
  | OpenFailed e => (d, Raise e)
  | DumpFailed e => (<[name := FOther]> d, Raise e)
  end.

(** [f"{cache_key}.json"] *)
Definition cache_file (cache_key : string) : string := cache_key +:+ ".json".

(** [get_cached_result]: [None] when the file is missing, unreadable, not
    JSON, or JSON that is no object (the item assignment raises and the
    bare [except] swallows it). *)
Definition get_cached_result (cache : directory) (cache_key : string)
    : option dict :=
  match cache !! cache_file cache_key with
  | Some (FJson (JObj result)) => Some (<["_cached" := JBool true]> result)
  | _ => None
  end.

(** [save_to_cache]: a failure is printed and swallowed. *)
Definition save_to_cache (w : write_outcome) (cache : directory)
    (cache_key : string) (result : dict) : directory :=
  fst (dump_to w cache (cache_file cache_key) (JObj result)).

(** [s.endswith(suffix)] *)
Definition endswith (s suffix : string) : bool :=
  let n := String.length s in
  let k := String.length suffix in
  (k <=? n) && String.eqb (String.substring (n - k) k s) suffix.

(** [CACHE_DIR.glob("*.json")]: the entries of the directory itself (the
    pattern has one component, so a path with a separator is not among
    them) whose name ends in [.json], in the order the directory lists
    them. *)
Definition glob_json (cache : directory) : list string :=
  filter (fun name => endswith name ".json" = true
                      /\ has_char "/" name = false)
         (map_to_list cache).*1.

Section ClearCache.
(** [f.unlink()] *)
Variable unlink : string -> result unit.

(** One turn of the loop of [clear_cache]; an exception ends it. *)
Definition clear_step (acc : directory * result Z) (name : string)
    : directory * result Z :=
  match acc with
  | (cache, Ok count) =>
      match unlink name with
      | Ok _ => (delete name cache, Ok (count + 1)%Z)
      | Raise e => (cache, Raise e)
      end
  | (cache, Raise e) => (cache, Raise e)
  end.

(** [clear_cache]: the directory afterwards, and the count that the
    response carries. *)
Definition clear_cache (cache : directory) : directory * result Z :=
  foldl clear_step (cache, Ok 0%Z) (glob_json cache).

End ClearCache.

(** An entry of [MODELS]; the price is not read by the route. *)
Record model_info : Type := {
  name : string;
  provider : string;
  supports_prompt : bool;
  supports_diarization : bool
}.

Definition MODELS : gmap string model_info :=
  list_to_map
    [ ("whisper-1", {| name := "Whisper v2"; provider := "openai";
         supports_prompt := true; supports_diarization := false |});
      ("gpt-4o-mini-transcribe", {| name := "GPT-4o Mini"; provider := "openai";
         supports_prompt := true; supports_diarization := false |});
      ("gpt-4o-transcribe", {| name := "GPT-4o Transcribe"; provider := "openai";
         supports_prompt := true; supports_diarization := false |});
      ("gpt-4o-transcribe-diarize", {| name := "GPT-4o + Diarize";
         provider := "openai";
         supports_prompt := false; supports_diarization := true |});
      ("assemblyai-best", {| name := "AssemblyAI Best"; provider := "assemblyai";
         supports_prompt := false; supports_diarization := true |});
      ("gemini-2.0-flash", {| name := "Gemini 2.0 Flash"; provider := "gemini";
         supports_prompt := true; supports_diarization := true |});
      ("gemini-2.5-flash-lite", {| name := "Gemini 2.5 Flash-Lite";
         provider := "gemini";
         supports_prompt := true; supports_diarization := true |});
      ("gemini-2.5-flash", {| name := "Gemini 2.5 Flash"; provider := "gemini";
         supports_prompt := true; supports_diarization := true |});
      ("gemini-3-flash", {| name := "Gemini 3 Flash"; provider := "gemini";
         supports_prompt := true; supports_diarization := true |}) ].

(** The body of a request: each field a text, or absent.  For
    [audio_path], [language] and [user_context] a JSON null reads as
    absent; a null [model] and fields that are no texts are left out. *)
Record request : Type := {
  req_audio_path : option string;
  req_model : option string;
  req_language : option string;
  req_user_context : option string
}.

(** A call of one of the three transcription functions. *)
Inductive call : Type :=
| transcribe_openai (audio_path model : string)
    (language user_context : option string)
| transcribe_assemblyai (audio_path : string) (language : option string)
| transcribe_gemini (audio_path model : string)
    (language user_context : option string).

(** The two directories the route writes to. *)
Record store : Type := {
  cache_dir : directory;
  results_dir : directory
}.

(** [str(e)] *)
Definition exn_str (e : exn) : string :=
  match e with
  | ValueError msg | OverflowError msg | ZeroDivisionError msg
  | OSError msg | UnicodeEncodeError msg => msg
  end.

(** [jsonify({"error": msg})] *)
Definition error_body (msg : string) : dict := {[ "error" := JStr msg ]}.

Section Route.
(** The collaborators: the file system, the three providers (by the call
    made), the clock as [strftime] prints it, and how the two writes
    end. *)
Variable path_exists : string -> bool.
Variable stat_mtime : string -> result string.
Variable path_stem : string -> string.
Variable run : call -> result dict.
Variable now : string.
Variable cache_write : string -> write_outcome.
Variable results_write : string -> write_outcome.

(** What a request leaves behind: the provider calls made, the store,
    and the status code and body of the response. *)
Definition answer : Type := list call * store * (Z * dict).

(** The provider branch: [None] is the final [else]. *)
Definition dispatch (provider audio_path model : string)
    (language user_context : option string) : option call :=
  if String.eqb provider "openai"
  then Some (transcribe_openai audio_path model language user_context)
  else if String.eqb provider "assemblyai"
  then Some (transcribe_assemblyai audio_path language)
  else if String.eqb provider "gemini"
  then Some (transcribe_gemini audio_path model language user_context)
  else None.

(** [MODELS.get(model, {}).get("provider", "openai")] *)
Definition provider_of (model : string) : string :=
  match MODELS !! model with
  | Some model_info => provider model_info
  | None => "openai"
  end.

(** The route [/transcribe].  The two [print] lines are left out. *)
Definition transcribe (data : request) (st : store) : answer :=
  let model := default "whisper-1" (req_model data) in
  let language := req_language data in
  let user_context := req_user_context data in
  match req_audio_path data with
  | None => ([], st, (400%Z, error_body "Audio file not found"))
  | Some audio_path =>
      if negb (Py.truthy audio_path) || negb (path_exists audio_path)
      then ([], st, (400%Z, error_body "Audio file not found"))
      else
        let cache_key :=
          Latin1.get_cache_key stat_mtime audio_path model language
            user_context in
        let cached := get_cached_result (cache_dir st) cache_key in
        let on_miss :=
          match dispatch (provider_of model) audio_path model
                  language user_context with
          | None =>
              ([], st,
               (400%Z, error_body ("Unknown provider: " +:+ provider_of model)))
          | Some c =>
              match run c with
              | Raise e => ([c], st, (500%Z, error_body (exn_str e)))
              | Ok result =>
                  let cache' :=
                    save_to_cache (cache_write (cache_file cache_key))
                      (cache_dir st) cache_key result in
                  let result_file :=
                    path_stem audio_path +:+ "_" +:+ model +:+ "_" +:+ now
                    +:+ ".json" in
                  let written :=
                    dump_to (results_write result_file) (results_dir st)
                      result_file (JObj result) in
                  let st' := {| cache_dir := cache';
                                results_dir := fst written |} in
                  match snd written with
                  | Ok _ => ([c], st', (200%Z, result))
                  | Raise e => ([c], st', (500%Z, error_body (exn_str e)))
                  end
              end
          end in
        match cached with
        | Some hit => if dict_truthy hit then ([], st, (200%Z, hit)) else on_miss
        | None => on_miss
        end
  end.

End Route.

(** ** The checks of [transcribe_openai] before the upload *)

Section OpenAIChecks.
Variable st_size : string -> result Z.
Variable ffprobe_duration : string -> result Float.float.
Variable ffmpeg : list string -> result (Z * string).
Variable gettempdir : result string.
Variable mkdir : string -> result unit.
Variable path_stem : string -> string.
(** [f"{x:.1f}"] *)
Variable format_1f : Float.float -> string.

(** [Path(p).stat().st_size / (1024 * 1024)] *)
Definition size_mb (path : string) : result Float.float :=
  let* size := st_size path in
  Ok (SFdiv Float.prec Float.emax (Float.of_Z size) (Float.of_Z (1024 * 1024))).

(** The text of the [ValueError] that the [except] clause raises. *)
Definition too_large (file_size_mb : Float.float) (e : exn) : exn :=
  ValueError ("File too large (" +:+ format_1f file_size_mb
              +:+ "MB) and compression failed: " +:+ exn_str e).

(** [transcribe_openai], from the size of the file to the end of the
    [try] statement: the path that is opened for the upload.  The
    message of the [except] clause reads [file_size_mb] as it is when
    the exception arrives. *)
Definition check_size (audio_path : string) : io string :=
  do! file_size_mb := io_lift (size_mb audio_path) in
  if Float.ltb (Float.of_Z 25) file_size_mb then
    match compress_audio_for_openai st_size ffprobe_duration ffmpeg gettempdir
            mkdir path_stem audio_path (Float.of_Z 24) with
    | (evs, Raise e) => (evs, Raise (too_large file_size_mb e))
    | (evs, Ok compressed) =>
        match size_mb compressed with
        | Raise e => (evs, Raise (too_large file_size_mb e))
        | Ok new_size_mb =>
            if Float.ltb (Float.of_Z 25) new_size_mb
            then (evs, Raise (too_large new_size_mb
                    (ValueError ("Still too large after compression ("
                                 +:+ format_1f new_size_mb +:+ "MB)"))))
            else (evs, Ok compressed)
        end
    end
  else io_ret audio_path.

End OpenAIChecks.

(** ** [compress_audio] of [test_all_models.py] *)

Section TestCompression.
Variable st_size : string -> result Z.
Variable ffprobe_duration : string -> result Float.float.
Variable ffmpeg : list string -> result (Z * string).
Variable gettempdir : result string.
Variable mkdir : string -> result unit.
Variable path_stem : string -> string.

(** The copy of the function in the test script, with its own probe
    (the same lines as [get_audio_duration]) and its own error text;
    the closing [print] is left out as above. *)
Definition compress_audio (audio_path : string) (target_mb : Float.float)
    : io string :=
  do! size := io_lift (st_size audio_path) in
  let file_size_mb :=
    SFdiv Float.prec Float.emax (Float.of_Z size) (Float.of_Z (1024 * 1024)) in
  if Float.leb file_size_mb target_mb then io_ret audio_path
  else
    let duration := get_audio_duration ffprobe_duration audio_path in
    do! target_kbps :=
      io_lift (TestAllModels.target_bitrate target_mb duration) in
    do! tmp := io_lift gettempdir in
    let temp_dir := tmp +:+ "/" +:+ "benchmark_compressed" in
    do! _ := io_emit (Mkdir temp_dir) in
    do! _ := io_lift (mkdir temp_dir) in
    let compressed_path :=
      temp_dir +:+ "/" +:+ "compressed_" +:+ path_stem audio_path +:+ ".m4a" in
    let cmd := ffmpeg_cmd audio_path target_kbps compressed_path in
    do! _ := io_emit (RunFfmpeg cmd) in
    do! res := io_lift (ffmpeg cmd) in
    if negb (fst res =? 0)%Z
    then io_lift (Raise (ValueError
           ("Compression failed: " +:+ String.substring 0 200 (snd res))))
    else
      do! _ := io_lift (st_size compressed_path) in
      io_ret compressed_path.

End TestCompression.

(** * Vocabulary of the further properties *)

(** A text that is not empty and that [strip] leaves as it is. *)
Definition trimmed (s : string) : Prop :=
  s <> EmptyString /\ Py.lstrip s = s /\ Py.rstrip s = s.

(** A run of equal neighbours is cut down to its first entry. *)
Fixpoint dedup_adjacent (l : list string) : list string :=
  match l with
  | [] => []
  | x :: r =>
      match r with
      | y :: _ => if String.eqb x y then dedup_adjacent r else x :: dedup_adjacent r
      | [] => [x]
      end
  end.

(** Every character of [s] is a blank. *)
Fixpoint all_space (s : string) : bool :=
  match s with
  | EmptyString => true
  | String c s' => Py.isspace c && all_space s'
  end.

(** Loop invariant: closed segments and gathered pieces are trimmed. *)
Definition texts_inv (st : loop_state) : Prop :=
  Forall (fun seg => trimmed (text seg)) (segments st)
  /\ Forall trimmed (current_text st).

(** Every character of [s] satisfies [p]. *)
Fixpoint all_chars (p : ascii -> bool) (s : string) : bool :=
  match s with
  | EmptyString => true
  | String c s' => p c && all_chars p s'
  end.

(** The texts a pattern can consume, captures aside. *)
Fixpoint lang (r : Re.regex) (u : string) : Prop :=
  match r with
  | Re.Eps => u = EmptyString
  | Re.Atom a => exists ch, Re.atom_ok a ch = true /\ u = String ch EmptyString
  | Re.Seq r1 r2 => exists u1 u2, u = u1 +:+ u2 /\ lang r1 u1 /\ lang r2 u2
  | Re.Repeat a min max =>
      all_chars (Re.atom_ok a) u = true
      /\ min <= String.length u
      /\ match max with Some m => String.length u <= m | None => True end
  | Re.Opt r1 => u = EmptyString \/ lang r1 u
  | Re.Group _ r1 => lang r1 u
  end.

(** The groups of a pattern, with their numbers. *)
Fixpoint groups_in (r : Re.regex) : list (nat * Re.regex) :=
  match r with
  | Re.Eps | Re.Atom _ | Re.Repeat _ _ _ => []
  | Re.Seq r1 r2 => groups_in r1 ++ groups_in r2
  | Re.Opt r1 => groups_in r1
  | Re.Group i r1 => (i, r1) :: groups_in r1
  end.

(** What [c'] binds, [c] bound already or a group of [r] matched. *)
Definition caps_from (r : Re.regex) (c c' : Re.caps) : Prop :=
  forall i g, Re.group i c' = Some g ->
    Re.group i c = Some g
    \/ exists body, (i, body) ∈ groups_in r /\ lang body g.

(** The largest value of a timestamp with two digits in each field. *)
Definition max_timestamp : Z := 99 * 3600 + 99 * 60 + 99.

(** A time that is unknown or within the range of the patterns. *)
Definition time_in_range (t : option Z) : Prop :=
  match t with
  | Some n => (0 <= n <= max_timestamp)%Z
  | None => True
  end.

(** Loop invariant: starts in range, the pending timestamp parses. *)
Definition times_inv (st : loop_state) : Prop :=
  Forall (fun seg => time_in_range (start seg)) (segments st)
  /\ time_in_range (parse_timestamp (current_time st)).

(** The lines that the loop looks at: stripped, the empty ones left out. *)
Definition content_lines (raw : string) : list string :=
  filter (fun line => line <> EmptyString)
         (Py.strip <$> Py.split (ascii_of_nat 10) raw).

(** The names of the three providers. *)
Definition known_providers : list string := ["openai"; "assemblyai"; "gemini"].

Section RouteVocabulary.
Variable stat_mtime : string -> result string.

(** The cache key of a request whose audio path is [audio_path]. *)
Definition request_key (data : request) (audio_path : string) : string :=
  Latin1.get_cache_key stat_mtime audio_path
    (default "whisper-1" (req_model data))
    (req_language data) (req_user_context data).

Variable path_exists : string -> bool.

(** The request names an audio file that exists. *)
Definition names_audio (data : request) (audio_path : string) : Prop :=
  req_audio_path data = Some audio_path
  /\ Py.truthy audio_path = true /\ path_exists audio_path = true.

End RouteVocabulary.

(** * Properties *)

(** ** Text helpers *)

Lemma append_cons c (a b : string) : String c a +:+ b = String c (a +:+ b).
Proof. reflexivity. Qed.

Lemma append_assoc (a b c : string) : (a +:+ b) +:+ c = a +:+ (b +:+ c).
Proof.
  induction a as [|x a IH]; [reflexivity|].
  rewrite !append_cons. f_equal. exact IH.
Qed.

Lemma has_char_app c a b : has_char c (a +:+ String c b) = true.
Proof.
  induction a as [|x a IH].
  - simpl. rewrite Ascii.eqb_refl. reflexivity.
  - rewrite append_cons. simpl. rewrite IH. apply orb_true_r.
Qed.

Lemma split_nonempty sep s : Py.split sep s <> [].
Proof.
  destruct s as [|c s]; simpl; [discriminate|].
  destruct (Ascii.eqb c sep); [discriminate|].
  destruct (Py.split sep s); discriminate.
Qed.

Lemma split_no_sep sep s : has_char sep s = false -> Py.split sep s = [s].
Proof.
  induction s as [|c s IH]; simpl; [reflexivity|].
  intros H. apply orb_false_iff in H as [Hc Hs].
  rewrite Hc, (IH Hs). reflexivity.
Qed.

Lemma split_app sep a b :
  has_char sep a = false ->
  Py.split sep (a +:+ String sep b) = a :: Py.split sep b.
Proof.
  induction a as [|c a IH]; simpl; intros H.
  - rewrite Ascii.eqb_refl. reflexivity.
  - apply orb_false_iff in H as [Hc Ha].
    rewrite Hc, (IH Ha). reflexivity.
Qed.

(** Splitting loses nothing: the fields are free of the separator and
    joining them gives the text back. *)
Lemma split_inv sep s :
  Forall (fun p => has_char sep p = false) (Py.split sep s)
  /\ Py.join (String sep EmptyString) (Py.split sep s) = s.
Proof.
  induction s as [|c s IH]; simpl.
  - split; [repeat constructor | reflexivity].
  - pose proof (split_nonempty sep s) as Hne.
    destruct (Py.split sep s) as [|h t]; [done|].
    destruct IH as [IHf IHj]. inversion IHf as [|? ? Hh Ht]; subst.
    destruct (Ascii.eqb c sep) eqn:E.
    + apply Ascii.eqb_eq in E. subst c. split.
      * constructor; [reflexivity | assumption].
      * reflexivity.
    + split.
      * constructor; [simpl; rewrite E; assumption | assumption].
      * destruct t; reflexivity.
Qed.

Lemma split_two sep s p0 p1 :
  Py.split sep s = [p0; p1] ->
  s = p0 +:+ String sep p1 /\ has_char sep p0 = false /\ has_char sep p1 = false.
Proof.
  intros H. destruct (split_inv sep s) as [Hf Hj]. rewrite H in Hf, Hj.
  inversion Hf as [|? ? Hp0 Hf']. inversion Hf' as [|? ? Hp1 _].
  rewrite <- Hj. simpl. auto.
Qed.

Lemma split_three sep s p0 p1 p2 :
  Py.split sep s = [p0; p1; p2] ->
  s = p0 +:+ String sep (p1 +:+ String sep p2)
  /\ has_char sep p0 = false /\ has_char sep p1 = false
  /\ has_char sep p2 = false.
Proof.
  intros H. destruct (split_inv sep s) as [Hf Hj]. rewrite H in Hf, Hj.
  inversion Hf as [|? ? Hp0 Hf']. inversion Hf' as [|? ? Hp1 Hf''].
  inversion Hf'' as [|? ? Hp2 _].
  rewrite <- Hj. simpl. auto.
Qed.

(** ** The timestamp parser *)

Example parse_timestamp_1_23 : parse_timestamp (Some "1:23") = Some 83%Z.
Proof. vm_compute. reflexivity. Qed.
Example parse_timestamp_1_02_03 : parse_timestamp (Some "1:02:03") = Some 3723%Z.
Proof. vm_compute. reflexivity. Qed.
Example parse_timestamp_garbage : parse_timestamp (Some "garbage") = None.
Proof. vm_compute. reflexivity. Qed.

(** *** The literals that [int] accepts *)

Lemma append_nil_l (s : string) : EmptyString +:+ s = s.
Proof. reflexivity. Qed.

Lemma blank_not_digit c :
  Py.int_blank c = true -> Py.isdecimal c = false /\ Ascii.eqb c "_" = false.
Proof.
  destruct c as [[] [] [] [] [] [] [] []]; intros H; try discriminate H;
    split; reflexivity.
Qed.

Lemma count_decimal_app a b :
  count_decimal (a +:+ b) = (count_decimal a + count_decimal b)%nat.
Proof.
  induction a as [|c a IH]; [reflexivity|].
  rewrite append_cons. cbn [count_decimal]. rewrite IH.
  destruct (Py.isdecimal c); reflexivity.
Qed.

Lemma count_decimal_blanks b :
  all_chars Py.int_blank b = true -> count_decimal b = O.
Proof.
  induction b as [|c b IH]; [reflexivity|]. cbn [all_chars count_decimal].
  intros H. apply andb_true_iff in H as [Hc Hb].
  destruct (blank_not_digit _ Hc) as [-> _]. by apply IH.
Qed.

Lemma int_lskip_count s : count_decimal (Py.int_lskip s) = count_decimal s.
Proof.
  induction s as [|c s IH]; [reflexivity|]. cbn [Py.int_lskip].
  destruct (Py.int_blank c) eqn:Hc; [|reflexivity].
  cbn [count_decimal]. destruct (blank_not_digit _ Hc) as [-> _]. exact IH.
Qed.

(** What [int_rskip] removes is a run of blanks at the end. *)
Lemma int_rskip_split s :
  exists b, s = Py.int_rskip s +:+ b /\ all_chars Py.int_blank b = true.
Proof.
  induction s as [|c s (b & Hs & Hb)]; [by exists EmptyString|].
  cbn [Py.int_rskip]. destruct (Py.int_rskip s) as [|c' r] eqn:Hr.
  - rewrite append_nil_l in Hs. subst b.
    destruct (Py.int_blank c) eqn:Hc.
    + exists (String c s). split; [reflexivity|].
      cbn [all_chars]. by rewrite Hc, Hb.
    + exists s. split; [reflexivity | exact Hb].
  - exists b. split; [|exact Hb]. rewrite append_cons. by f_equal.
Qed.

(** On a well-formed literal followed by blanks, the run that the
    interpreter counts is the whole literal. *)
Lemma int_run_literal r :
  forall acc prev n z b,
    Py.int_digits acc prev r = Some z ->
    all_chars Py.int_blank b = true ->
    Py.int_run n prev (r +:+ b) = Some (n + count_decimal r)%nat.
Proof.
  induction r as [|c r IH]; intros acc prev n z b Hd Hb.
  - rewrite append_nil_l. cbn [count_decimal]. rewrite Nat.add_0_r.
    cbn [Py.int_digits] in Hd.
    destruct prev; try discriminate Hd.
    destruct b as [|c b]; [reflexivity|].
    cbn [all_chars] in Hb. apply andb_true_iff in Hb as [Hc _].
    destruct (blank_not_digit _ Hc) as [H1 H2].
    cbn [Py.int_run]. by rewrite H1, H2.
  - rewrite append_cons. cbn [Py.int_digits Py.int_run count_decimal] in *.
    unfold Py.digit_value in Hd.
    destruct (Py.isdecimal c) eqn:Hc.
    + rewrite (IH _ _ (S n) _ _ Hd Hb). f_equal. lia.
    + destruct (Ascii.eqb c "_"); [|discriminate Hd].
      destruct prev; try discriminate Hd.
      exact (IH _ _ n _ _ Hd Hb).
Qed.

Lemma int_literal_run p z :
  Py.int_literal p = Some z ->
  Py.int_run 0 Py.AtStart (Py.int_unsigned (Py.int_lskip p))
  = Some (count_decimal p).
Proof.
  unfold Py.int_literal. rewrite <- (int_lskip_count p).
  destruct (int_rskip_split (Py.int_lskip p)) as (b & Ht & Hb).
  destruct (Py.int_rskip (Py.int_lskip p)) as [|c r]; [discriminate|].
  rewrite Ht, count_decimal_app, (count_decimal_blanks _ Hb), Nat.add_0_r.
  rewrite append_cons.
  destruct c as [[] [] [] [] [] [] [] []];
    cbv beta iota delta [Py.int_unsigned]; intros H;
    first [ exact (int_run_literal _ _ _ O _ _ H Hb)
          | destruct (Py.int_digits 0 Py.AtStart r) as [z'|] eqn:Hz;
            [|discriminate H];
            exact (int_run_literal _ _ _ O _ _ Hz Hb) ].
Qed.

(** [int] accepts the well-formed literals of at most 4300 digits, and
    no other text. *)
Lemma int_accepts p z :
  Py.int p = Ok z
  <-> Py.int_literal p = Some z /\ count_decimal p <= Py.int_max_str_digits.
Proof.
  unfold Py.int. split.
  - destruct (Py.int_run _ _ _) as [n|] eqn:Hn; [|discriminate].
    destruct (Py.int_max_str_digits <? n)%nat eqn:Hlim; [discriminate|].
    destruct (Py.int_literal p) as [z'|] eqn:Hl; [|discriminate].
    intros [= ->]. split; [reflexivity|].
    rewrite (int_literal_run _ _ Hl) in Hn. injection Hn as <-.
    by apply Nat.ltb_ge.
  - intros [Hl Hc]. rewrite (int_literal_run _ _ Hl), Hl.
    apply Nat.ltb_ge in Hc. by rewrite Hc.
Qed.

Lemma parse_timestamp_m_ss ts m s :
  layout_m_ss ts m s -> parse_timestamp (Some ts) = Some (60 * m + s)%Z.
Proof.
  intros (p0 & p1 & -> & H0 & H1 & Hm & Hs).
  unfold parse_timestamp, parse_timestamp_try. simpl Py.or_empty.
  replace (Py.truthy_opt (Some (p0 +:+ ":" +:+ p1))) with true
    by (destruct p0; reflexivity).
  simpl negb. cbv iota.
  change (p0 +:+ ":" +:+ p1) with (p0 +:+ String ":" p1).
  rewrite (split_app _ _ _ H0), (split_no_sep _ _ H1).
  rewrite Hm, Hs. cbn [bind]. f_equal. lia.
Qed.

Lemma parse_timestamp_h_mm_ss ts h m s :
  layout_h_mm_ss ts h m s ->
  parse_timestamp (Some ts) = Some (3600 * h + 60 * m + s)%Z.
Proof.
  intros (p0 & p1 & p2 & -> & H0 & H1 & H2 & Hh & Hm & Hs).
  unfold parse_timestamp, parse_timestamp_try. simpl Py.or_empty.
  replace (Py.truthy_opt (Some (p0 +:+ ":" +:+ p1 +:+ ":" +:+ p2))) with true
    by (destruct p0; reflexivity).
  simpl negb. cbv iota.
  change (p0 +:+ ":" +:+ p1 +:+ ":" +:+ p2)
    with (p0 +:+ String ":" (p1 +:+ String ":" p2)).
  rewrite (split_app _ _ _ H0), (split_app _ _ _ H1), (split_no_sep _ _ H2).
  rewrite Hh, Hm, Hs. cbn [bind]. f_equal. lia.
Qed.

Lemma parse_timestamp_other ts :
  (forall t m s, ts = Some t -> ~ layout_m_ss t m s) ->
  (forall t h m s, ts = Some t -> ~ layout_h_mm_ss t h m s) ->
  parse_timestamp ts = None.
Proof.
  intros N2 N3. destruct ts as [ts|]; [|reflexivity].
  unfold parse_timestamp. destruct (Py.truthy_opt (Some ts)); [|reflexivity].
  simpl negb. cbv iota. simpl Py.or_empty. unfold parse_timestamp_try.
  destruct (Py.split ":" ts) as [|p0 [|p1 [|p2 [|p3 rest]]]] eqn:E;
    try reflexivity.
  - apply split_two in E as (-> & H0 & H1).
    destruct (Py.int p0) as [m|] eqn:Em; [|reflexivity].
    destruct (Py.int p1) as [s|] eqn:Es; [|reflexivity].
    exfalso. apply (N2 _ m s eq_refl). exists p0, p1. auto.
  - apply split_three in E as (-> & H0 & H1 & H2).
    destruct (Py.int p0) as [h|] eqn:Eh; [|reflexivity].
    destruct (Py.int p1) as [m|] eqn:Em; [|reflexivity].
    destruct (Py.int p2) as [s|] eqn:Es; [|reflexivity].
    exfalso. apply (N3 _ h m s eq_refl). exists p0, p1, p2. auto 10.
Qed.

(** C4 (amended). [parse_timestamp] returns [60*M + S] on a text of the
    layout [M:SS], [3600*H + 60*M + S] on a text of the layout
    [H:MM:SS], and [None] on every other argument: any other number of
    colon-separated fields, a field that [int] does not accept, the
    empty text or [None].  It is a total function: no argument makes it
    raise.  The fields that [int] accepts are the integer literals of at
    most 4300 digits. *)
Theorem parse_timestamp_spec (ts : option string) :
  (forall t m s, ts = Some t -> layout_m_ss t m s ->
     parse_timestamp ts = Some (60 * m + s)%Z)
  /\ (forall t h m s, ts = Some t -> layout_h_mm_ss t h m s ->
        parse_timestamp ts = Some (3600 * h + 60 * m + s)%Z)
  /\ ((forall t m s, ts = Some t -> ~ layout_m_ss t m s) ->
      (forall t h m s, ts = Some t -> ~ layout_h_mm_ss t h m s) ->
      parse_timestamp ts = None)
  /\ (forall p z,
        Py.int p = Ok z
        <-> Py.int_literal p = Some z
            /\ count_decimal p <= Py.int_max_str_digits).
Proof.
  split; [|split; [|split]].
  - intros t m s -> H. by apply parse_timestamp_m_ss.
  - intros t h m s -> H. by apply parse_timestamp_h_mm_ss.
  - apply parse_timestamp_other.
  - apply int_accepts.
Qed.

Lemma parse_timestamp_spec_witness :
  parse_timestamp (Some "1:23") = Some 83%Z
  /\ parse_timestamp (Some "1:02:03") = Some 3723%Z
  /\ parse_timestamp (Some "garbage") = None.
Proof.
  split; [|split].
  - apply (proj1 (parse_timestamp_spec (Some "1:23")) "1:23" 1%Z 23%Z eq_refl).
    exists "1", "23". repeat split; vm_compute; reflexivity.
  - apply (proj1 (proj2 (parse_timestamp_spec (Some "1:02:03")))
             "1:02:03" 1%Z 2%Z 3%Z eq_refl).
    exists "1", "02", "03". repeat split; vm_compute; reflexivity.
  - apply (proj1 (proj2 (proj2 (parse_timestamp_spec (Some "garbage"))))).
    + intros t m s [= <-] (p0 & p1 & E & _).
      pose proof (has_char_app ":" p0 p1) as Hc.
      change (p0 +:+ String ":" p1) with (p0 +:+ ":" +:+ p1) in Hc.
      rewrite <- E in Hc. discriminate Hc.
    + intros t h m s [= <-] (p0 & p1 & p2 & E & _).
      pose proof (has_char_app ":" p0 (p1 +:+ ":" +:+ p2)) as Hc.
      change (p0 +:+ String ":" (p1 +:+ ":" +:+ p2))
        with (p0 +:+ ":" +:+ p1 +:+ ":" +:+ p2) in Hc.
      rewrite <- E in Hc. discriminate Hc.
Defined.

(** C4, as first stated, fails.  A run of 4301 digits is an integer
    literal, so the text below has the layout [M:SS]; [int] refuses the
    minutes for their length and the parser returns [None].  With 4300
    digits the text is understood. *)
Lemma long_minutes_counterexample :
  literal_m_ss (run_of "1" 4301 +:+ ":00") ((10 ^ 4301 - 1) / 9) 0
  /\ parse_timestamp (Some (run_of "1" 4301 +:+ ":00")) = None
  /\ parse_timestamp (Some (run_of "1" 4300 +:+ ":00"))
     = Some (60 * ((10 ^ 4300 - 1) / 9))%Z.
Proof.
  split; [|split].
  - exists (run_of "1" 4301), "00".
    repeat split; vm_compute; reflexivity.
  - vm_compute. reflexivity.
  - vm_compute. reflexivity.
Qed.

(** The fields are whatever [int] accepts; their widths are not checked. *)
Example parse_timestamp_field_widths :
  parse_timestamp (Some "1:5") = Some 65%Z
  /\ parse_timestamp (Some " 1 : 30 ") = Some 90%Z
  /\ parse_timestamp (Some "1:2:3:4") = None
  /\ parse_timestamp (Some "1:2x") = None
  /\ parse_timestamp (Some "") = None
  /\ parse_timestamp None = None.
Proof. repeat split; reflexivity. Qed.

(** ** Merge pass *)

Lemma foldl_inv {A B : Type} (P : A -> Prop) (f : A -> B -> A) :
  (forall a b, P a -> P (f a b)) ->
  forall l a, P a -> P (foldl f a l).
Proof.
  intros Hstep l. induction l as [|b l IH]; simpl; auto.
Qed.

Lemma merge_step_nil seg : merge_step [] seg = [seg].
Proof. reflexivity. Qed.

Lemma merge_step_snoc l prev seg :
  merge_step (l ++ [prev]) seg =
  if String.eqb (speaker prev) (speaker seg)
  then l ++ [append_text prev (text seg)]
  else l ++ [prev; seg].
Proof.
  unfold merge_step. rewrite last_snoc.
  destruct (String.eqb (speaker prev) (speaker seg)).
  - rewrite length_app. simpl.
    replace (Nat.pred (length l + 1)) with (length l + 0)%nat by lia.
    rewrite insert_app_r. reflexivity.
  - rewrite <- app_assoc. reflexivity.
Qed.

Lemma adjacent_distinct_nil : adjacent_distinct [].
Proof. intros i a b H. discriminate. Qed.

Lemma adjacent_distinct_singleton x : adjacent_distinct [x].
Proof. intros i a b _ H. destruct i; discriminate. Qed.

Lemma adjacent_distinct_snoc l x y :
  adjacent_distinct (l ++ [x]) -> speaker x <> speaker y ->
  adjacent_distinct (l ++ [x; y]).
Proof.
  intros H Hxy i a b Ha Hb.
  destruct (decide (S i < length (l ++ [x]))) as [Hlt|Hge].
  - change (l ++ [x; y]) with (l ++ [x] ++ [y]) in Ha, Hb.
    rewrite app_assoc in Ha, Hb.
    rewrite lookup_app_l in Ha by lia. rewrite lookup_app_l in Hb by lia.
    eapply H; eassumption.
  - rewrite length_app in Hge. simpl in Hge.
    pose proof (lookup_lt_Some _ _ _ Hb) as Hlen.
    rewrite length_app in Hlen. simpl in Hlen.
    assert (i = length l) as -> by lia.
    rewrite lookup_app_r in Ha by lia. rewrite lookup_app_r in Hb by lia.
    replace (length l - length l)%nat with 0%nat in Ha by lia.
    replace (S (length l) - length l)%nat with 1%nat in Hb by lia.
    simpl in Ha, Hb. congruence.
Qed.

Lemma adjacent_distinct_relabel l x x' :
  adjacent_distinct (l ++ [x]) -> speaker x' = speaker x ->
  adjacent_distinct (l ++ [x']).
Proof.
  intros H Hx i a b Ha Hb.
  pose proof (lookup_lt_Some _ _ _ Hb) as Hlen.
  rewrite length_app in Hlen. simpl in Hlen.
  rewrite lookup_app_l in Ha by lia.
  destruct (decide (S i < length l)) as [Hlt|Hge].
  - rewrite lookup_app_l in Hb by lia.
    apply (H i a b); rewrite lookup_app_l by lia; assumption.
  - assert (S i = length l) as Hi by lia.
    rewrite lookup_app_r in Hb by lia.
    replace (S i - length l)%nat with 0%nat in Hb by lia.
    simpl in Hb. injection Hb as <-. rewrite Hx.
    apply (H i a x).
    + rewrite lookup_app_l by lia. assumption.
    + rewrite lookup_app_r by lia.
      replace (S i - length l)%nat with 0%nat by lia. reflexivity.
Qed.

Lemma merge_step_adjacent merged seg :
  adjacent_distinct merged -> adjacent_distinct (merge_step merged seg).
Proof.
  intros H. destruct merged as [|x l0] using rev_ind.
  - apply adjacent_distinct_singleton.
  - rewrite merge_step_snoc.
    destruct (String.eqb (speaker x) (speaker seg)) eqn:E.
    + eapply adjacent_distinct_relabel; [exact H | reflexivity].
    + apply adjacent_distinct_snoc; [exact H|].
      by apply String.eqb_neq.
Qed.

Lemma merge_segments_adjacent segs : adjacent_distinct (merge_segments segs).
Proof.
  unfold merge_segments. apply foldl_inv.
  - intros a b. apply merge_step_adjacent.
  - apply adjacent_distinct_nil.
Qed.

Lemma append_text_twice p ta tb :
  append_text (append_text p ta) tb = append_text p (ta +:+ " " +:+ tb).
Proof.
  unfold append_text. cbn [speaker text start end_]. f_equal.
  rewrite !append_assoc. reflexivity.
Qed.

(** Two neighbours with the same label are merged into the first one. *)
Lemma merge_step_pair acc a b :
  speaker a = speaker b ->
  merge_step (merge_step acc a) b = merge_step acc (append_text a (text b)).
Proof.
  intros Hab. destruct acc as [|p l _] using rev_ind.
  - rewrite !merge_step_nil. unfold merge_step. simpl.
    rewrite Hab, String.eqb_refl. reflexivity.
  - rewrite !merge_step_snoc. simpl speaker.
    destruct (String.eqb (speaker p) (speaker a)) eqn:E.
    + rewrite merge_step_snoc. simpl speaker. rewrite <- Hab, E.
      rewrite append_text_twice. reflexivity.
    + change (l ++ [p; a]) with (l ++ [p] ++ [a]).
      rewrite app_assoc, merge_step_snoc.
      rewrite Hab, String.eqb_refl. rewrite <- app_assoc. reflexivity.
Qed.

Lemma merge_segments_pair l1 a b l2 :
  speaker a = speaker b ->
  merge_segments (l1 ++ a :: b :: l2)
  = merge_segments (l1 ++ append_text a (text b) :: l2).
Proof.
  intros Hab. unfold merge_segments. rewrite !foldl_app. simpl.
  rewrite merge_step_pair by assumption. reflexivity.
Qed.

(** ** End-time pass *)

Lemma end_time_prefix l k i :
  foldl end_time_step l (seq 0 k) !! i
  = if decide (i < k) then with_next_start l i else l !! i.
Proof.
  induction k as [|k IH] in i |- *.
  - simpl. destruct (decide (i < 0)); [lia | reflexivity].
  - rewrite seq_S, foldl_app. simpl.
    set (m := foldl end_time_step l (seq 0 k)) in *.
    assert (Hk : m !! k = l !! k).
    { rewrite IH. destruct (decide (k < k)); [lia | reflexivity]. }
    assert (Hk1 : m !! (k + 1)%nat = l !! S k).
    { rewrite IH. replace (k + 1)%nat with (S k) by lia.
      destruct (decide (S k < k)); [lia | reflexivity]. }
    unfold end_time_step. rewrite Hk, Hk1.
    destruct (decide (i = k)) as [->|Hne].
    + destruct (decide (k < S k)); [|lia].
      unfold with_next_start.
      destruct (l !! k) as [seg|] eqn:Es; [|by rewrite Hk].
      destruct (l !! S k) as [next|] eqn:En; [|by rewrite Hk].
      destruct (start next) as [t|]; [|by rewrite Hk].
      apply list_lookup_insert_eq.
      apply lookup_lt_is_Some. rewrite Hk. eauto.
    + assert (Hi : m !! i
                   = if decide (i < S k) then with_next_start l i else l !! i).
      { rewrite IH. destruct (decide (i < k)), (decide (i < S k));
          solve [reflexivity | lia]. }
      destruct (l !! k) as [seg|]; [|exact Hi].
      destruct (l !! S k) as [next|]; [|exact Hi].
      destruct (start next) as [t|]; [|exact Hi].
      rewrite list_lookup_insert_ne by congruence. exact Hi.
Qed.

Lemma infer_end_times_lookup l i :
  infer_end_times l !! i = with_next_start l i.
Proof.
  unfold infer_end_times. rewrite end_time_prefix.
  destruct (decide (i < length l)) as [|Hge]; [reflexivity|].
  unfold with_next_start. rewrite lookup_ge_None_2 by lia. reflexivity.
Qed.

Lemma end_time_step_length m k : length (end_time_step m k) = length m.
Proof.
  unfold end_time_step.
  destruct (m !! k); [|reflexivity].
  destruct (m !! (k + 1)%nat) as [next|]; [|reflexivity].
  destruct (start next); [|reflexivity].
  apply length_insert.
Qed.

Lemma infer_end_times_length l : length (infer_end_times l) = length l.
Proof.
  unfold infer_end_times.
  apply (foldl_inv (fun m => length m = length l)); [|reflexivity].
  intros m k H. rewrite end_time_step_length. exact H.
Qed.

(** What the end-time pass leaves untouched. *)
Lemma infer_end_times_same l i seg :
  infer_end_times l !! i = Some seg ->
  exists seg0, l !! i = Some seg0 /\ speaker seg = speaker seg0
               /\ text seg = text seg0 /\ start seg = start seg0.
Proof.
  rewrite infer_end_times_lookup. unfold with_next_start.
  destruct (l !! i) as [seg0|]; [|discriminate].
  intros H. exists seg0. split; [reflexivity|].
  destruct (l !! S i) as [next|]; [destruct (start next)|];
    injection H as <-; auto.
Qed.

Lemma infer_end_times_Forall (P : segment -> Prop) l :
  (forall seg t, P seg -> P (set_end seg t)) ->
  Forall P l -> Forall P (infer_end_times l).
Proof.
  intros Hset Hl. apply Forall_lookup. intros i seg.
  rewrite infer_end_times_lookup. unfold with_next_start.
  destruct (l !! i) as [seg0|] eqn:E; [|discriminate].
  pose proof (Forall_lookup_1 _ _ _ _ Hl E) as H0.
  destruct (l !! S i) as [next|]; [destruct (start next)|];
    intros H; injection H as <-; auto.
Qed.

Lemma infer_end_times_adjacent l :
  adjacent_distinct l -> adjacent_distinct (infer_end_times l).
Proof.
  intros H i a b Ha Hb.
  apply infer_end_times_same in Ha as (a0 & Ha0 & -> & _).
  apply infer_end_times_same in Hb as (b0 & Hb0 & -> & _).
  eapply H; eassumption.
Qed.

Lemma merge_step_Forall (P : segment -> Prop) merged seg :
  (forall p t, P p -> P (append_text p t)) ->
  Forall P merged -> P seg -> Forall P (merge_step merged seg).
Proof.
  intros Happ Hm Hs. destruct merged as [|x l _] using rev_ind.
  - repeat constructor. assumption.
  - rewrite merge_step_snoc. apply Forall_app in Hm as [Hl Hx].
    inversion Hx; subst.
    destruct (String.eqb (speaker x) (speaker seg)).
    + apply Forall_app. split; [assumption|]. repeat constructor. auto.
    + apply Forall_app. split; [assumption|]. repeat constructor; assumption.
Qed.

Lemma merge_segments_Forall (P : segment -> Prop) segs :
  (forall p t, P p -> P (append_text p t)) ->
  Forall P segs -> Forall P (merge_segments segs).
Proof.
  intros Happ. unfold merge_segments.
  assert (G : forall acc, Forall P acc -> Forall P segs ->
                          Forall P (foldl merge_step acc segs)).
  { induction segs as [|seg segs IH]; simpl; [auto|].
    intros acc Hacc Hs. inversion Hs; subst.
    apply IH; [|assumption]. by apply merge_step_Forall. }
  apply G. constructor.
Qed.

(** ** The loop over the lines *)

Lemma close_out_Forall (P : segment -> Prop) st :
  Forall P (segments st) ->
  (forall sp, current_speaker st = Some sp -> Py.truthy sp = true ->
     P {| speaker := sp;
          text := Py.strip (Py.join " " (current_text st));
          start := parse_timestamp (current_time st); end_ := None |}) ->
  Forall P (close_out st).
Proof.
  intros Hs Hnew. unfold close_out.
  destruct (current_speaker st) as [sp|] eqn:E; simpl; [|assumption].
  destruct (Py.truthy sp) eqn:T; simpl; [|assumption].
  destruct (nonempty (current_text st)); [|assumption].
  apply Forall_app. split; [assumption|]. repeat constructor. by apply Hnew.
Qed.

Lemma raw_segments_no_end raw :
  Forall (fun seg => end_ seg = None) (raw_segments raw).
Proof.
  unfold raw_segments.
  apply close_out_Forall; [|reflexivity].
  apply (foldl_inv (fun st => Forall (fun seg => end_ seg = None) (segments st))).
  - intros st line H. unfold process_line.
    destruct (negb _); [assumption|].
    destruct (Py.truthy_opt (speaker_found _)); simpl.
    + apply close_out_Forall; [assumption | reflexivity].
    + destruct (Py.truthy_opt (current_speaker st)); assumption.
  - constructor.
Qed.

Lemma merged_no_end raw :
  Forall (fun seg => end_ seg = None) (merge_segments (raw_segments raw)).
Proof.
  apply merge_segments_Forall; [auto | apply raw_segments_no_end].
Qed.

(** The merge pass of the code is the one of the specification. *)
Lemma foldl_merge_from rest :
  forall acc kept,
    foldl merge_step (acc ++ [kept]) rest = acc ++ merge_from kept rest.
Proof.
  induction rest as [|seg rest IH]; intros acc kept; [reflexivity|].
  cbn [foldl merge_from]. rewrite merge_step_snoc, String.eqb_sym.
  destruct (String.eqb (speaker seg) (speaker kept)).
  - apply IH.
  - change (acc ++ [kept; seg]) with (acc ++ [kept] ++ [seg]).
    rewrite app_assoc, IH, <- app_assoc. reflexivity.
Qed.

Lemma merge_segments_spec segs : merge_segments segs = merge_spec segs.
Proof.
  destruct segs as [|seg rest]; [reflexivity|].
  unfold merge_segments. cbn [foldl merge_spec].
  rewrite merge_step_nil. apply (foldl_merge_from rest []).
Qed.

Lemma infer_end_times_said l : said <$> infer_end_times l = said <$> l.
Proof.
  apply list_eq. intros i.
  rewrite !list_lookup_fmap, infer_end_times_lookup. unfold with_next_start.
  destruct (l !! i) as [seg|]; [|reflexivity].
  destruct (l !! S i) as [next|]; [destruct (start next)|]; reflexivity.
Qed.

(** C1. For every raw text the normalizer returns a list in which no two
    neighbours have the same speaker label.  Its merge pass is the one of
    the specification: a segment of the unmerged list that has the label
    of the segment right before it is dropped, and its text is added to
    that segment after a single space.  The speakers, texts and start
    times of the result are those of the merged list, the end-time pass
    writing the end times only.  In particular, when two neighbours of
    the unmerged list have the same label, the result is the one
    obtained with the two replaced by the first, its text extended by a
    single space and the text of the second. *)
Theorem merge_invariant (raw : string) :
  adjacent_distinct (parse_gemini_diarization raw)
  /\ (forall segs, merge_segments segs = merge_spec segs)
  /\ parse_gemini_diarization raw
     = infer_end_times (merge_spec (raw_segments raw))
  /\ said <$> parse_gemini_diarization raw
     = said <$> merge_spec (raw_segments raw)
  /\ (forall l1 a b l2,
        raw_segments raw = l1 ++ a :: b :: l2 ->
        speaker a = speaker b ->
        parse_gemini_diarization raw
        = infer_end_times
            (merge_spec
               (l1 ++ {| speaker := speaker a;
                         text := text a +:+ " " +:+ text b;
                         start := start a; end_ := end_ a |} :: l2))).
Proof.
  split; [|split; [|split; [|split]]].
  - apply infer_end_times_adjacent, merge_segments_adjacent.
  - apply merge_segments_spec.
  - unfold parse_gemini_diarization. by rewrite merge_segments_spec.
  - unfold parse_gemini_diarization.
    by rewrite infer_end_times_said, merge_segments_spec.
  - intros l1 a b l2 Hraw Hab. unfold parse_gemini_diarization.
    rewrite Hraw, merge_segments_pair by assumption.
    by rewrite merge_segments_spec.
Qed.

Lemma merge_invariant_witness :
  let raw := "[Speaker A, 0:00] Hello." +:+ nl +:+ "[Speaker A, 0:05] More."
             +:+ nl +:+ "[Speaker B, 0:10] Hi." in
  adjacent_distinct (parse_gemini_diarization raw)
  /\ said <$> parse_gemini_diarization raw
     = [ ("Speaker A", "Hello. More.", Some 0%Z);
         ("Speaker B", "Hi.", Some 10%Z) ].
Proof.
  intros raw. destruct (merge_invariant raw) as (Hadj & _ & _ & Hsaid & _).
  split; [exact Hadj|].
  rewrite Hsaid. vm_compute. reflexivity.
Defined.

(** C2. In every result of the normalizer the end time of a segment that
    has a successor is the start time of that successor: the known start
    when there is one, and [None] when the successor has no start.  The
    end time of the last segment is [None].  So the end times are read off
    the neighbours' start times and never off the segment itself. *)
Theorem end_time_inference (raw : string) :
  let out := parse_gemini_diarization raw in
  (forall i seg next t,
     out !! i = Some seg -> out !! S i = Some next ->
     start next = Some t -> end_ seg = Some t)
  /\ (forall i seg next,
        out !! i = Some seg -> out !! S i = Some next ->
        end_ seg = start next)
  /\ (forall seg, last out = Some seg -> end_ seg = None).
Proof.
  set (merged := merge_segments (raw_segments raw)).
  assert (Hnone : forall i seg, merged !! i = Some seg -> end_ seg = None).
  { intros i seg. apply (Forall_lookup_1 _ _ _ _ (merged_no_end raw)). }
  assert (Hpair : forall i seg next,
            infer_end_times merged !! i = Some seg ->
            infer_end_times merged !! S i = Some next ->
            end_ seg = start next).
  { intros i seg next Hs Hn.
    apply infer_end_times_same in Hn as (next0 & Hn0 & _ & _ & ->).
    rewrite infer_end_times_lookup in Hs. unfold with_next_start in Hs.
    destruct (merged !! i) as [seg0|] eqn:E0; [|discriminate].
    rewrite Hn0 in Hs.
    destruct (start next0) as [t|]; injection Hs as <-; [reflexivity|].
    eapply Hnone; eassumption. }
  simpl. unfold parse_gemini_diarization. fold merged.
  split; [|split].
  - intros i seg next t Hs Hn Ht. rewrite <- Ht. eapply Hpair; eassumption.
  - exact Hpair.
  - intros seg Hlast. rewrite last_lookup in Hlast.
    set (i := Nat.pred (length (infer_end_times merged))) in *.
    rewrite infer_end_times_lookup in Hlast. unfold with_next_start in Hlast.
    destruct (merged !! i) as [seg0|] eqn:E0; [|discriminate].
    rewrite lookup_ge_None_2 in Hlast
      by (subst i; rewrite infer_end_times_length; lia).
    injection Hlast as <-. eapply Hnone; eassumption.
Qed.

Lemma end_time_inference_witness :
  let out := parse_gemini_diarization
               ("[Speaker A, 0:00] Hello." +:+ nl +:+ "[Speaker B, 0:10] Hi.") in
  exists seg next,
    out !! 0%nat = Some seg /\ out !! 1%nat = Some next
    /\ end_ seg = Some 10%Z /\ end_ seg = start next /\ end_ next = None.
Proof.
  intros out.
  destruct (end_time_inference
              ("[Speaker A, 0:00] Hello." +:+ nl +:+ "[Speaker B, 0:10] Hi."))
    as (Hknown & Hnext & Hlast).
  fold out in Hknown, Hnext, Hlast.
  destruct (out !! 0%nat) as [seg|] eqn:Es; [|vm_compute in Es; discriminate].
  destruct (out !! 1%nat) as [next|] eqn:En; [|vm_compute in En; discriminate].
  exists seg, next. repeat split.
  - apply (Hknown 0%nat seg next 10%Z Es En).
    vm_compute in En. injection En as <-. reflexivity.
  - apply (Hnext 0%nat seg next Es En).
  - apply Hlast. rewrite <- En. vm_compute. reflexivity.
Defined.

(** C3. The scenario text normalizes to exactly two segments: Speaker A
    from 0 to 10 with the text "Hello. More.", then Speaker B from 10 with
    no end and the text "Hi.". *)
Theorem scenario_two_segments :
  parse_gemini_diarization
    ("[Speaker A, 0:00] Hello." +:+ nl +:+ "[Speaker A, 0:05] More." +:+ nl
     +:+ "[Speaker B, 0:10] Hi.")
  = [ {| speaker := "Speaker A"; text := "Hello. More.";
         start := Some 0%Z; end_ := Some 10%Z |};
      {| speaker := "Speaker B"; text := "Hi.";
         start := Some 10%Z; end_ := None |} ].
Proof. vm_compute. reflexivity. Qed.

(** ** Lines without a marker *)

Lemma scan_patterns_none ps line :
  (forall p, p ∈ ps -> Re.search p line = None) ->
  scan_patterns ps line
  = {| speaker_found := None; time_found := None; line_rest := line |}.
Proof.
  induction ps as [|p ps IH]; intros H; simpl; [reflexivity|].
  rewrite (H p) by constructor.
  apply IH. intros q Hq. apply H. by constructor.
Qed.

Lemma process_line_no_marker st raw_line :
  current_speaker st = None ->
  (forall p, p ∈ patterns -> Re.search p (Py.strip raw_line) = None) ->
  process_line st raw_line = st.
Proof.
  intros Hcur H. unfold process_line.
  destruct (negb (Py.truthy (Py.strip raw_line))); [reflexivity|].
  rewrite (scan_patterns_none _ _ H). simpl. rewrite Hcur. reflexivity.
Qed.

(** A match does not depend on what surrounds it: text added behind or in
    front of a line keeps every match the line had. *)
Lemma repeat_greedy_stop {R : Type} p max (k : string -> option R) s :
  is_Some (k s) -> is_Some (Re.repeat_greedy p 0 max k s).
Proof.
  intros H. destruct s as [|ch s]; simpl; [exact H|].
  destruct (p ch && _); [|exact H].
  destruct (Re.repeat_greedy p _ _ k s); [eauto | exact H].
Qed.

Lemma repeat_greedy_extend {R R' : Type} p min max
    (k : string -> option R) (k' : string -> option R') s w :
  (forall s', is_Some (k s') -> is_Some (k' (s' +:+ w))) ->
  is_Some (Re.repeat_greedy p min max k s) ->
  is_Some (Re.repeat_greedy p min max k' (s +:+ w)).
Proof.
  intros Hk. revert min max. induction s as [|ch s IH]; intros min max.
  - simpl. destruct min; [|intros []; discriminate].
    intros H. apply repeat_greedy_stop. by apply (Hk EmptyString).
  - rewrite append_cons. simpl.
    assert (Hstop : is_Some (match min with
                             | O => k (String ch s) | S _ => None end) ->
                    is_Some (match min with
                             | O => k' (String ch (s +:+ w)) | S _ => None end)).
    { destruct min; [|intros []; discriminate]. apply (Hk (String ch s)). }
    destruct (p ch && _); [|exact Hstop].
    destruct (Re.repeat_greedy p (Nat.pred min) (Nat.pred <$> max) k s) eqn:E.
    + intros _.
      destruct (IH (Nat.pred min) (Nat.pred <$> max)) as [y ->];
        [rewrite E; eauto | eauto].
    + intros H. destruct (Re.repeat_greedy p _ _ k' (s +:+ w)); [eauto|].
      by apply Hstop.
Qed.

Lemma exec_extend r :
  forall (R R' : Type) (k : string -> Re.caps -> option R)
         (k' : string -> Re.caps -> option R') s w c c',
    (forall s1 c1 c1', is_Some (k s1 c1) -> is_Some (k' (s1 +:+ w) c1')) ->
    is_Some (Re.exec r k s c) -> is_Some (Re.exec r k' (s +:+ w) c').
Proof.
  induction r as [|a|r1 IH1 r2 IH2|a min max|r1 IH1|i r1 IH1];
    intros R R' k k' s w c c' Hk; cbn [Re.exec].
  - apply Hk.
  - destruct s as [|ch s]; [intros []; discriminate|].
    rewrite append_cons. destruct (Re.atom_ok a ch); [apply Hk|].
    intros []; discriminate.
  - apply IH1. intros s1 c1 c1'. by apply IH2.
  - apply repeat_greedy_extend. intros s'. apply Hk.
  - destruct (Re.exec r1 k s c) eqn:E.
    + intros _.
      destruct (IH1 _ _ k k' s w c c' Hk) as [y ->]; [rewrite E; eauto | eauto].
    + intros H. destruct (Re.exec r1 k' (s +:+ w) c'); [eauto|].
      by apply (Hk s c c').
  - apply IH1. intros s1 c1 c1'. apply Hk.
Qed.

Lemma match_here_extend r s w :
  is_Some (Re.match_here r s) -> is_Some (Re.match_here r (s +:+ w)).
Proof.
  unfold Re.match_here. apply exec_extend. intros; eauto.
Qed.

Lemma search_of_match_here r s :
  is_Some (Re.match_here r s) -> is_Some (Re.search r s).
Proof.
  intros [[rest c] H]. destruct s; simpl; rewrite H; eauto.
Qed.

Lemma search_extend_right r s w :
  is_Some (Re.search r s) -> is_Some (Re.search r (s +:+ w)).
Proof.
  induction s as [|ch s IH].
  - simpl. destruct (Re.match_here r EmptyString) as [[rest c]|] eqn:E;
      [|intros []; discriminate].
    intros _. apply search_of_match_here.
    apply (match_here_extend r EmptyString w). rewrite E. eauto.
  - rewrite append_cons. simpl.
    destruct (Re.match_here r (String ch s)) as [[rest c]|] eqn:E.
    + intros _.
      destruct (match_here_extend r (String ch s) w) as [[rest' c'] H];
        [rewrite E; eauto|].
      rewrite append_cons in H. rewrite H. eauto.
    + intros H. destruct (Re.match_here r (String ch (s +:+ w))) as [[? ?]|];
        [eauto | by apply IH].
Qed.

Lemma search_extend_left r s w :
  is_Some (Re.search r s) -> is_Some (Re.search r (w +:+ s)).
Proof.
  intros H. induction w as [|ch w IH]; [exact H|].
  rewrite append_cons. simpl.
  destruct (Re.match_here r (String ch (w +:+ s))) as [[? ?]|]; [eauto | exact IH].
Qed.

Lemma lstrip_suffix s : exists l, s = l +:+ Py.lstrip s.
Proof.
  induction s as [|ch s [l IH]]; simpl.
  - by exists EmptyString.
  - destruct (Py.isspace ch).
    + exists (String ch l). rewrite append_cons. by f_equal.
    + by exists EmptyString.
Qed.

Lemma rstrip_prefix s : exists r, s = Py.rstrip s +:+ r.
Proof.
  induction s as [|ch s [r IH]]; simpl.
  - by exists EmptyString.
  - destruct (Py.rstrip s) as [|ch' t] eqn:E.
    + destruct (Py.isspace ch).
      * by exists (String ch s).
      * exists s. reflexivity.
    + exists r. rewrite append_cons. by f_equal.
Qed.

Lemma search_stripped r line :
  Re.search r line = None -> Re.search r (Py.strip line) = None.
Proof.
  intros Hnone.
  destruct (Re.search r (Py.strip line)) as [c|] eqn:E; [|reflexivity].
  destruct (lstrip_suffix line) as [l Hl].
  destruct (rstrip_prefix (Py.lstrip line)) as [t Ht].
  assert (H : is_Some (Re.search r line)).
  { rewrite Hl, Ht. apply search_extend_left, search_extend_right.
    fold (Py.strip line). rewrite E. eauto. }
  rewrite Hnone in H. destruct H. discriminate.
Qed.

Lemma no_marker_stripped (raw : string) :
  (forall line p,
     line ∈ Py.split (ascii_of_nat 10) raw -> p ∈ patterns ->
     Re.search p (Py.strip line) = None) ->
  parse_gemini_diarization raw = [].
Proof.
  intros H. unfold parse_gemini_diarization, raw_segments.
  assert (G : foldl process_line initial_state (Py.split (ascii_of_nat 10) raw)
              = initial_state).
  { revert H. generalize (Py.split (ascii_of_nat 10) raw). intros lines H.
    induction lines as [|line lines IH]; simpl; [reflexivity|].
    rewrite process_line_no_marker.
    - apply IH. intros l p Hl. apply H. by constructor.
    - reflexivity.
    - intros p. apply H. constructor. }
  rewrite G. reflexivity.
Qed.

(** C8. When no line of the raw text matches any of the six marker
    patterns, the normalizer returns the empty list.  This holds whether
    the lines are taken as they stand in the text or as the loop searches
    them, stripped of the blanks around them.  The normalizer is a total
    function, so it raises on no text. *)
Theorem no_marker_no_segments (raw : string) :
  ((forall line p,
      line ∈ Py.split (ascii_of_nat 10) raw -> p ∈ patterns ->
      Re.search p line = None) ->
   parse_gemini_diarization raw = [])
  /\ ((forall line p,
         line ∈ Py.split (ascii_of_nat 10) raw -> p ∈ patterns ->
         Re.search p (Py.strip line) = None) ->
      parse_gemini_diarization raw = []).
Proof.
  split; intros H; apply no_marker_stripped; [|exact H].
  intros line p Hl Hp. apply search_stripped. by apply H.
Qed.

Lemma no_marker_no_segments_witness :
  parse_gemini_diarization ("Hello there." +:+ nl +:+ "General remarks.") = [].
Proof.
  apply (proj1 (no_marker_no_segments
                  ("Hello there." +:+ nl +:+ "General remarks."))).
  intros line p Hl Hp.
  assert (Hl' : In line ["Hello there."; "General remarks."]).
  { apply list_elem_of_In. exact Hl. }
  apply list_elem_of_In in Hp.
  simpl in Hl'. simpl in Hp.
  repeat match goal with
         | H : _ \/ _ |- _ => destruct H as [H|H]
         | H : False |- _ => destruct H
         end; subst; vm_compute; reflexivity.
Defined.

(** ** Closing the open segment *)

Lemma process_marker_line st raw_line :
  marker_line raw_line = true ->
  segments (process_line st raw_line) = close_out st.
Proof.
  unfold marker_line, process_line. intros H.
  apply andb_true_iff in H as [H1 H2]. rewrite H1, H2. reflexivity.
Qed.

(** C9, as first stated, fails.  After the line "[Speaker A]" a segment
    is open with no text; the marker line that follows drops it, and no
    segment of Speaker A is in the list, before or after the merge. *)
Lemma open_segment_dropped :
  ~ (forall (lines : list string) (raw_line : string),
       let st := foldl process_line initial_state lines in
       marker_line raw_line = true -> is_open st = true ->
       exists seg, seg ∈ segments (process_line st raw_line)
                   /\ speaker seg = Py.or_empty (current_speaker st)).
Proof.
  intros H.
  destruct (H ["[Speaker A]"] "[Speaker B] Hi." eq_refl eq_refl)
    as (seg & Hin & _).
  vm_compute in Hin. inversion Hin.
Qed.

Example dropped_speaker_end_to_end :
  parse_gemini_diarization ("[Speaker A]" +:+ nl +:+ "[Speaker B] Hi.")
  = [ {| speaker := "Speaker B"; text := "Hi."; start := None; end_ := None |} ].
Proof. vm_compute. reflexivity. Qed.

(** C9 (amended). When a line with a recognized marker is processed while a
    segment is open, the open segment is appended to the unmerged list
    provided it has gathered at least one piece of text; an open segment
    without text is not appended and the list stays as it was. *)
Theorem marker_closes_open_segment (st : loop_state) (raw_line : string) :
  marker_line raw_line = true -> is_open st = true ->
  (current_text st <> [] ->
   segments (process_line st raw_line) = segments st ++ [open_segment st])
  /\ (current_text st = [] ->
      segments (process_line st raw_line) = segments st).
Proof.
  intros Hm Ho. rewrite (process_marker_line _ _ Hm).
  unfold close_out. unfold is_open in Ho. rewrite Ho. simpl.
  split; intros Ht.
  - unfold open_segment.
    destruct (current_text st); [congruence | reflexivity].
  - rewrite Ht. reflexivity.
Qed.

Lemma marker_closes_open_segment_witness :
  let st := foldl process_line initial_state ["[Speaker A, 0:00] Hello."] in
  segments (process_line st "[Speaker B, 0:10] Hi.")
  = [ {| speaker := "Speaker A"; text := "Hello.";
         start := Some 0%Z; end_ := None |} ].
Proof.
  intros st.
  assert (Hm : marker_line "[Speaker B, 0:10] Hi." = true)
    by (vm_compute; reflexivity).
  assert (Ho : is_open st = true) by (vm_compute; reflexivity).
  assert (Ht : current_text st <> []) by (vm_compute; discriminate).
  rewrite (proj1 (marker_closes_open_segment st _ Hm Ho) Ht).
  vm_compute. reflexivity.
Defined.

(** ** Speaker labels *)

Lemma patterns_ok : Forall (fun p => groups_ok p && binds1 p = true) patterns.
Proof. repeat constructor. Qed.

Lemma consumed_one ch s : Re.consumed (String ch s) s = String ch EmptyString.
Proof.
  unfold Re.consumed. simpl String.length.
  replace (S (String.length s) - String.length s)%nat with 1%nat by lia.
  simpl. destruct s; reflexivity.
Qed.

Lemma repeat_greedy_inv {R : Type} p min max (k : string -> option R) s x :
  Re.repeat_greedy p min max k s = Some x -> exists s', k s' = Some x.
Proof.
  revert min max. induction s as [|ch s IH]; intros min max; simpl.
  - destruct min; [eauto | discriminate].
  - assert (Hstop : match min with O => k (String ch s) | S _ => None end
                    = Some x -> exists s', k s' = Some x).
    { destruct min; [eauto | discriminate]. }
    destruct (p ch && match max with Some O => false | _ => true end);
      [|exact Hstop].
    destruct (Re.repeat_greedy p (Nat.pred min) (Nat.pred <$> max) k s)
      as [y|] eqn:E; [|exact Hstop].
    intros [= ->]. eapply IH. exact E.
Qed.

Lemma exec_inv r :
  groups_ok r = true ->
  forall (R : Type) (k : string -> Re.caps -> option R) s c x,
    Re.exec r k s c = Some x ->
    exists s' c',
      k s' c' = Some x
      /\ (letter_caps c -> letter_caps c')
      /\ (binds1 r = true \/ Re.group 1 c <> None -> Re.group 1 c' <> None).
Proof.
  induction r as [|a|r1 IH1 r2 IH2|a min max|r1 IH1|i r1 IH1];
    intros Hok R k s c x; cbn [Re.exec].
  - intros H. exists s, c. repeat split; [assumption | auto |].
    intros [Hb|Hc]; [discriminate | assumption].
  - destruct s as [|ch s']; [discriminate|].
    destruct (Re.atom_ok a ch); [|discriminate].
    intros H. exists s', c. repeat split; [assumption | auto |].
    intros [Hb|Hc]; [discriminate | assumption].
  - simpl in Hok. apply andb_true_iff in Hok as [Hok1 Hok2].
    intros H.
    destruct (IH1 Hok1 _ _ _ _ _ H) as (s1 & c1 & H1 & Hl1 & Hb1).
    destruct (IH2 Hok2 _ _ _ _ _ H1) as (s2 & c2 & H2 & Hl2 & Hb2).
    exists s2, c2. repeat split; [assumption | auto |].
    intros [Hb|Hc].
    + apply orb_true_iff in Hb as [Hb|Hb]; auto.
    + auto.
  - intros H. apply repeat_greedy_inv in H as (s' & H).
    exists s', c. repeat split; [assumption | auto |].
    intros [Hb|Hc]; [discriminate | assumption].
  - simpl in Hok.
    destruct (Re.exec r1 k s c) as [y|] eqn:E.
    + intros [= ->].
      destruct (IH1 Hok _ _ _ _ _ E) as (s1 & c1 & H1 & Hl1 & Hb1).
      exists s1, c1. repeat split; [assumption | assumption |].
      intros [Hb|Hc]; [discriminate | auto].
    + intros H. exists s, c. repeat split; [assumption | auto |].
      intros [Hb|Hc]; [discriminate | assumption].
  - simpl in Hok. destruct (Nat.eqb i 1) eqn:Ei.
    + apply Nat.eqb_eq in Ei. subst i.
      destruct r1 as [|[| | |lo hi]| | | |]; try discriminate.
      apply andb_true_iff in Hok as [Hlo Hhi].
      apply Ascii.eqb_eq in Hlo. apply Ascii.eqb_eq in Hhi. subst lo hi.
      cbn [Re.exec].
      destruct s as [|ch s']; [discriminate|].
      destruct (Re.atom_ok (Re.Range "A" "Z") ch) eqn:Ea; [|discriminate].
      rewrite consumed_one. intros H.
      exists s', ((1%nat, String ch EmptyString) :: c).
      repeat split; [assumption | | ].
      * intros _ g. simpl. intros [= <-]. exists ch. split; [exact Ea | reflexivity].
      * intros _. simpl. discriminate.
    + intros H.
      destruct (IH1 Hok _ _ _ _ _ H) as (s1 & c1 & H1 & Hl1 & Hb1).
      exists s1, ((i, Re.consumed s s1) :: c1).
      assert (Hg : Re.group 1 ((i, Re.consumed s s1) :: c1) = Re.group 1 c1).
      { cbn [Re.group]. rewrite (Nat.eqb_sym 1 i), Ei. reflexivity. }
      repeat split; [assumption | |].
      * intros Hc g. rewrite Hg. by apply Hl1.
      * rewrite Hg. intros [Hb|Hc]; apply Hb1; [left | right; assumption].
        cbn [binds1] in Hb. rewrite Ei in Hb. exact Hb.
Qed.

Lemma search_letter r s c :
  groups_ok r && binds1 r = true ->
  Re.search r s = Some c ->
  exists ch, Py.isupper_AZ ch = true
             /\ Re.group 1 c = Some (String ch EmptyString).
Proof.
  intros Hr. apply andb_true_iff in Hr as [Hok Hb].
  assert (G : forall t rest, Re.match_here r t = Some (rest, c) ->
              exists ch, Py.isupper_AZ ch = true
                         /\ Re.group 1 c = Some (String ch EmptyString)).
  { intros t rest H. unfold Re.match_here in H.
    destruct (exec_inv r Hok _ _ _ _ _ H) as (s' & c' & Heq & Hl & Hb1).
    injection Heq as _ Hc. subst c'.
    assert (Hl' : letter_caps c) by (apply Hl; intros g; discriminate).
    destruct (Re.group 1 c) as [g|] eqn:Eg; [|exfalso; apply Hb1; auto].
    destruct (Hl' g Eg) as (ch & Hch & ->). eauto. }
  induction s as [|x s IH]; simpl.
  - destruct (Re.match_here r EmptyString) as [[rest c0]|] eqn:E; [|discriminate].
    intros [= ->]. eapply G. exact E.
  - destruct (Re.match_here r (String x s)) as [[rest c0]|] eqn:E; [|exact IH].
    intros [= ->]. eapply G. exact E.
Qed.

Lemma isupper_AZ_cases ch :
  Py.isupper_AZ ch = true -> In ch (map ascii_of_nat (seq 65 26)).
Proof.
  destruct ch as [[] [] [] [] [] [] [] []]; intros H;
    try discriminate H; vm_compute; tauto.
Qed.

Lemma letter_label_listed lbl : letter_label lbl -> lbl ∈ speaker_labels.
Proof.
  intros (ch & Hch & ->). apply list_elem_of_In.
  apply isupper_AZ_cases in Hch. unfold speaker_labels.
  apply in_map_iff in Hch as (n & <- & Hn).
  apply in_map_iff. exists n. split; [reflexivity | assumption].
Qed.

Lemma scan_patterns_label ps line lbl :
  Forall (fun p => groups_ok p && binds1 p = true) ps ->
  speaker_found (scan_patterns ps line) = Some lbl -> letter_label lbl.
Proof.
  induction 1 as [|p ps Hp Hps IH]; simpl; [discriminate|].
  destruct (Re.search p line) as [m|] eqn:E; [|exact IH].
  simpl. intros [= <-].
  destruct (search_letter _ _ _ Hp E) as (ch & Hch & ->).
  exists ch. split; [assumption | reflexivity].
Qed.

Lemma close_out_labels st :
  labels_inv st -> Forall (fun seg => letter_label (speaker seg)) (close_out st).
Proof.
  intros [Hs Hc]. apply close_out_Forall; [assumption|].
  intros sp Hsp _. simpl. by apply Hc.
Qed.

Lemma process_line_labels st raw_line :
  labels_inv st -> labels_inv (process_line st raw_line).
Proof.
  intros Hinv. unfold process_line.
  destruct (negb _); [assumption|].
  destruct (Py.truthy_opt (speaker_found _)) eqn:T.
  - split; simpl.
    + by apply close_out_labels.
    + intros sp Hsp. eapply scan_patterns_label; [apply patterns_ok | exact Hsp].
  - destruct (Py.truthy_opt (current_speaker st)); [|assumption].
    destruct Hinv as [Hs Hc]. split; assumption.
Qed.

Lemma raw_segments_labels raw :
  Forall (fun seg => letter_label (speaker seg)) (raw_segments raw).
Proof.
  unfold raw_segments. apply close_out_labels.
  apply (foldl_inv labels_inv).
  - intros st line. apply process_line_labels.
  - split; [constructor | discriminate].
Qed.

Lemma parse_labels raw :
  Forall (fun seg => letter_label (speaker seg)) (parse_gemini_diarization raw).
Proof.
  unfold parse_gemini_diarization.
  apply infer_end_times_Forall; [auto|].
  apply merge_segments_Forall; [auto|].
  apply raw_segments_labels.
Qed.

(** C10. Every segment of a result has a label "Speaker X" with X one
    letter from A to Z: a pattern only ever matches with such a letter in
    its first group.  Hence the labels of a result lie in a fixed list of
    26, and any duplicate-free list of labels taken from one result has at
    most 26 entries. *)
Theorem speaker_labels_A_to_Z (raw : string) :
  (forall seg, seg ∈ parse_gemini_diarization raw ->
     exists ch, Py.isupper_AZ ch = true
                /\ speaker seg = "Speaker " +:+ String ch EmptyString)
  /\ (forall p line m, p ∈ patterns -> Re.search p line = Some m ->
        exists ch, Py.isupper_AZ ch = true
                   /\ Re.group 1 m = Some (String ch EmptyString))
  /\ length speaker_labels = 26%nat
  /\ (forall labels : list string,
        NoDup labels ->
        (forall lbl, lbl ∈ labels ->
           exists seg, seg ∈ parse_gemini_diarization raw /\ speaker seg = lbl) ->
        length labels <= 26).
Proof.
  pose proof (parse_labels raw) as Hall.
  rewrite Forall_forall in Hall.
  split; [|split; [|split]].
  - intros seg Hseg. exact (Hall seg Hseg).
  - intros p line m Hp Hm.
    eapply search_letter; [|exact Hm].
    pose proof patterns_ok as Hok. rewrite Forall_forall in Hok. by apply Hok.
  - reflexivity.
  - intros labels Hnd Hfrom.
    change 26%nat with (length speaker_labels).
    apply submseteq_length, NoDup_submseteq; [assumption|].
    intros lbl Hl. destruct (Hfrom lbl Hl) as (seg & Hseg & <-).
    apply letter_label_listed. exact (Hall seg Hseg).
Qed.

Lemma speaker_labels_A_to_Z_witness :
  let raw := "[Speaker A, 0:00] Hello." +:+ nl +:+ "[Speaker B, 0:10] Hi." in
  length ["Speaker A"; "Speaker B"] <= 26
  /\ exists ch, Py.isupper_AZ ch = true
                /\ Re.group 1 [(1%nat, "B")] = Some (String ch EmptyString).
Proof.
  intros raw.
  destruct (speaker_labels_A_to_Z raw) as (_ & Hmatch & _ & Hcount).
  split.
  - apply Hcount.
    + apply NoDup_cons. split; [|apply NoDup_singleton].
      intros H. apply list_elem_of_In in H. simpl in H.
      destruct H as [H|[]]. discriminate H.
    + intros lbl Hl. apply list_elem_of_In in Hl. simpl in Hl.
      destruct Hl as [<-|[<-|[]]].
      * exists {| speaker := "Speaker A"; text := "Hello.";
                  start := Some 0%Z; end_ := Some 10%Z |}.
        split; [|reflexivity]. apply list_elem_of_In. vm_compute. auto.
      * exists {| speaker := "Speaker B"; text := "Hi.";
                  start := Some 10%Z; end_ := None |}.
        split; [|reflexivity]. apply list_elem_of_In. vm_compute. auto.
  - apply (Hmatch (Re.seq [Re.str "Speaker"; Re.Repeat Re.Space 1 None;
                           speaker_letter; Re.str ":"])
                  "Speaker B: Hi.").
    + apply list_elem_of_In. vm_compute. tauto.
    + vm_compute. reflexivity.
Defined.

Example lowercase_not_recognized :
  parse_gemini_diarization "[Speaker a, 0:00] Hello." = []
  /\ parse_gemini_diarization "Speaker AB: Hello." = []
  /\ parse_gemini_diarization "**Speaker 1:** Hello." = [].
Proof. vm_compute. auto. Qed.

(** ** The cache key *)

Example sha256_abc :
  SHA256.hexdigest (Latin1.encode "abc")
  = "ba7816bf8f01cfea414140de5dae2223b00361a396177a9cb410ff61f20015ad".
Proof. vm_compute. reflexivity. Qed.

Example sha256_empty :
  SHA256.hexdigest (Latin1.encode "")
  = "e3b0c44298fc1c149afbf4c8996fb92427ae41e4649b934ca495991b7852b855".
Proof. vm_compute. reflexivity. Qed.

Example sha256_two_blocks :
  SHA256.hexdigest (repeat 120%N 56)
  = "04c26261370ee7541549d16dee320c723e3fd14671e66a099afe0a377c16888e".
Proof. vm_compute. reflexivity. Qed.

Example get_cache_key_example :
  Latin1.get_cache_key (fun _ => Ok "1700000000.5") "/tmp/a.m4a" "whisper-1"
                (Some "pt") (Some ("Ol" +:+ String (ascii_of_nat 225) ""))
  = "35d7f923bc30fb73".
Proof. vm_compute. reflexivity. Qed.

(** The error of the codec names the run of surrogates it stopped at. *)
Example encode_surrogate_run :
  encode [97; 0xDC00; 0xDFFF; 0xD800; 98; 0xDABC]%N
  = Raise (UnicodeEncodeError
      "'utf-8' codec can't encode characters in position 1-3: surrogates not allowed").
Proof. vm_compute. reflexivity. Qed.

Lemma hex_digit_is_hex x : is_hex (SHA256.hex_digit x) = true.
Proof.
  unfold SHA256.hex_digit.
  assert (H : (N.land x 15 < 16)%N).
  { change 15%N with (N.ones 4). rewrite N.land_ones.
    apply N.mod_lt. discriminate. }
  change (N.land x 0xf) with (N.land x 15).
  set (d := N.land x 15) in *.
  assert (Hd : In d [0;1;2;3;4;5;6;7;8;9;10;11;12;13;14;15]%N).
  { simpl. lia. }
  simpl in Hd.
  repeat match goal with
         | H : _ \/ _ |- _ => destruct H as [H|H]
         | H : False |- _ => destruct H
         end; rewrite <- Hd; reflexivity.
Qed.

Lemma hex_word_length x tail :
  String.length (SHA256.hex_word x tail) = (8 + String.length tail)%nat.
Proof. reflexivity. Qed.

Lemma hex_word_all_hex x tail :
  all_hex tail = true -> all_hex (SHA256.hex_word x tail) = true.
Proof.
  intros H. unfold SHA256.hex_word. cbn [all_hex].
  rewrite !hex_digit_is_hex, H. reflexivity.
Qed.

Lemma hexdigest_length msg : String.length (SHA256.hexdigest msg) = 64%nat.
Proof. unfold SHA256.hexdigest. rewrite !hex_word_length. reflexivity. Qed.

Lemma hexdigest_all_hex msg : all_hex (SHA256.hexdigest msg) = true.
Proof.
  unfold SHA256.hexdigest. repeat apply hex_word_all_hex. reflexivity.
Qed.

Lemma prefix_length n s :
  n <= String.length s -> String.length (String.substring 0 n s) = n.
Proof.
  revert s. induction n as [|n IH]; intros s H.
  - destruct s; reflexivity.
  - destruct s as [|c s]; simpl in *; [lia|]. rewrite IH by lia. reflexivity.
Qed.

Lemma prefix_all_hex n s :
  all_hex s = true -> all_hex (String.substring 0 n s) = true.
Proof.
  revert s. induction n as [|n IH]; intros s H.
  - destruct s; reflexivity.
  - destruct s as [|c s]; simpl in *; [reflexivity|].
    apply andb_true_iff in H as [Hc Hs]. rewrite Hc, (IH _ Hs). reflexivity.
Qed.

(** *** The encoding *)

Lemma has_surrogate_app a b :
  has_surrogate (a ++ b) = has_surrogate a || has_surrogate b.
Proof. apply existsb_app. Qed.

Lemma latin1_char c :
  is_surrogate (Py.code c) = false
  /\ utf8 (Py.code c)
     = (if (Py.code c <? 128)%N then [Py.code c]
        else [(192 + N.shiftr (Py.code c) 6)%N; (128 + N.land (Py.code c) 63)%N]).
Proof.
  destruct c as [[] [] [] [] [] [] [] []]; split; vm_compute; reflexivity.
Qed.

Lemma points_cons c s : points (String c s) = Py.code c :: points s.
Proof. reflexivity. Qed.

Lemma points_app a b : points (a +:+ b) = points a ++ points b.
Proof.
  induction a as [|c a IH]; [reflexivity|].
  rewrite append_cons, !points_cons, IH. reflexivity.
Qed.

Lemma points_no_surrogate s : has_surrogate (points s) = false.
Proof.
  induction s as [|c s IH]; [reflexivity|].
  rewrite points_cons. unfold has_surrogate in *. cbn [existsb].
  by rewrite (proj1 (latin1_char c)), IH.
Qed.

Lemma encode_from_ok s :
  has_surrogate s = false -> forall pos, exists data, encode_from pos s = Ok data.
Proof.
  unfold has_surrogate.
  induction s as [|n s IH]; intros H pos; [by exists []|].
  cbn [existsb] in H. apply orb_false_iff in H as [Hn Hs].
  cbn [encode_from]. rewrite Hn.
  destruct (IH Hs (S pos)) as [rest ->]. cbn [bind]. eauto.
Qed.

Lemma encode_from_raise s :
  has_surrogate s = true ->
  forall pos, exists msg, encode_from pos s = Raise (UnicodeEncodeError msg).
Proof.
  unfold has_surrogate.
  induction s as [|n s IH]; intros H pos; [discriminate H|].
  cbn [existsb] in H. cbn [encode_from].
  destruct (is_surrogate n); [unfold surrogates_not_allowed; eauto|].
  destruct (IH H (S pos)) as [msg ->]. cbn [bind]. eauto.
Qed.

Lemma latin1_encode_from s :
  forall pos, encode_from pos (points s) = Ok (Latin1.encode s).
Proof.
  induction s as [|c s IH]; intros pos; [reflexivity|].
  rewrite points_cons. cbn [encode_from Latin1.encode].
  destruct (latin1_char c) as [-> ->]. rewrite IH. cbn [bind].
  destruct (Py.code c <? 128)%N; reflexivity.
Qed.

(** On texts of code points below 256 the key is the one of [Latin1]. *)
Lemma latin1_key (stat_mtime : unicode -> result string)
    (audio_path model : string) (language prompt : option string) :
  get_cache_key stat_mtime (points audio_path) (points model)
    (points <$> language) (points <$> prompt)
  = Ok (Latin1.get_cache_key (fun p => stat_mtime (points p))
          audio_path model language prompt).
Proof.
  unfold get_cache_key, Latin1.get_cache_key, encode.
  assert (Hopt : forall o, or_empty (points <$> o) = points (Py.or_empty o))
    by (intros [t|]; reflexivity).
  assert (Hm : match stat_mtime (points audio_path) with
               | Ok m => points m
               | Raise _ => []
               end
               = points match stat_mtime (points audio_path) with
                        | Ok m => m
                        | Raise _ => EmptyString
                        end)
    by (destruct (stat_mtime (points audio_path)); reflexivity).
  rewrite Hm, !Hopt, <- !points_app, latin1_encode_from. reflexivity.
Qed.

(** C5 (amended). [get_cache_key] is a function of its arguments and of
    the modification time the file system reports.  It is the first 16
    characters of the SHA-256 hex digest of the UTF-8 bytes of the five
    components joined by the delimiter, with the empty text for a
    modification time that cannot be read, for a missing language and
    for a missing prompt.  It raises [UnicodeEncodeError] when an
    argument holds a surrogate code point; on every other input it
    returns a key of 16 characters, all hexadecimal digits.  Two calls
    with the same arguments and the same answer of the file system end
    the same way.  The encoding and the digest are the interpreter's:
    the values at the end are those of [str.encode] and
    [hashlib.sha256]. *)
Theorem get_cache_key_spec (stat_mtime : unicode -> result string)
    (audio_path model : unicode) (language prompt : option unicode) :
  let mtime := match stat_mtime audio_path with
               | Ok m => points m
               | Raise _ => []
               end in
  get_cache_key stat_mtime audio_path model language prompt
  = derive_key_spec audio_path mtime model (or_empty language) (or_empty prompt)
  /\ (if has_surrogate
           (audio_path ++ model ++ or_empty language ++ or_empty prompt)
      then exists msg,
             get_cache_key stat_mtime audio_path model language prompt
             = Raise (UnicodeEncodeError msg)
      else exists key,
             get_cache_key stat_mtime audio_path model language prompt = Ok key
             /\ String.length key = 16%nat /\ all_hex key = true)
  /\ (forall stat_mtime' : unicode -> result string,
        stat_mtime' audio_path = stat_mtime audio_path ->
        get_cache_key stat_mtime' audio_path model language prompt
        = get_cache_key stat_mtime audio_path model language prompt)
  /\ encode [0x7F; 0x80; 0x7FF; 0x800; 0xD7FF; 0xE000; 0xFFFF; 0x10000;
             0x10FFFF]%N
     = Ok [127; 194; 128; 223; 191; 224; 160; 128; 237; 159; 191; 238; 128;
           128; 239; 191; 191; 240; 144; 128; 128; 244; 143; 191; 191]%N
  /\ SHA256.hexdigest []
     = "e3b0c44298fc1c149afbf4c8996fb92427ae41e4649b934ca495991b7852b855"
  /\ SHA256.hexdigest [97; 98; 99]%N
     = "ba7816bf8f01cfea414140de5dae2223b00361a396177a9cb410ff61f20015ad"
  /\ SHA256.hexdigest (repeat 120%N 56)
     = "04c26261370ee7541549d16dee320c723e3fd14671e66a099afe0a377c16888e"
  /\ get_cache_key (fun _ => Ok "1700000000.5") (points "/tmp/a.m4a")
       (points "whisper-1") (Some (points "pt"))
       (Some [79; 108; 225; 8364; 128512]%N)
     = Ok "5501374b13ca04c1"
  /\ get_cache_key (fun _ => Raise (OSError "No such file")) (points "a.m4a")
       (points "whisper-1") None None
     = Ok "f156c97268314a8d".
Proof.
  intros mtime.
  split; [reflexivity|].
  split.
  { unfold get_cache_key, encode. fold mtime.
    destruct (has_surrogate
                (audio_path ++ model ++ or_empty language ++ or_empty prompt))
      eqn:Hs.
    - assert (Hk : has_surrogate
                (audio_path ++ points "|" ++ mtime ++ points "|" ++ model
                 ++ points "|" ++ or_empty language ++ points "|"
                 ++ or_empty prompt) = true).
      { rewrite !has_surrogate_app in *.
        apply orb_true_iff in Hs as [->|Hs]; [reflexivity|].
        apply orb_true_iff in Hs as [->|Hs]; [by rewrite !orb_true_r|].
        apply orb_true_iff in Hs as [->| ->]; by rewrite !orb_true_r. }
      destruct (encode_from_raise _ Hk O) as [msg ->]. by exists msg.
    - assert (Hk : has_surrogate
                (audio_path ++ points "|" ++ mtime ++ points "|" ++ model
                 ++ points "|" ++ or_empty language ++ points "|"
                 ++ or_empty prompt) = false).
      { rewrite !has_surrogate_app in *.
        apply orb_false_iff in Hs as [-> Hs].
        apply orb_false_iff in Hs as [-> Hs].
        apply orb_false_iff in Hs as [-> ->].
        assert (Hm : has_surrogate mtime = false).
        { unfold mtime. destruct (stat_mtime audio_path);
            [apply points_no_surrogate | reflexivity]. }
        rewrite Hm. reflexivity. }
      destruct (encode_from_ok _ Hk O) as [data ->]. cbn [bind].
      eexists. split; [reflexivity|]. split.
      + apply prefix_length. rewrite hexdigest_length. lia.
      + apply prefix_all_hex, hexdigest_all_hex. }
  split.
  { intros stat' H. unfold get_cache_key. rewrite H. reflexivity. }
  repeat split; vm_compute; reflexivity.
Qed.

Lemma get_cache_key_spec_witness :
  get_cache_key (fun _ => Raise (OSError "No such file")) (points "a.m4a")
    (points "whisper-1") None None
  = derive_key_spec (points "a.m4a") [] (points "whisper-1") [] []
  /\ get_cache_key (fun p => if bool_decide (p = points "a.m4a")
                             then Raise (OSError "No such file")
                             else Ok "1.5")
       (points "a.m4a") (points "whisper-1") None None
     = get_cache_key (fun _ => Raise (OSError "No such file"))
         (points "a.m4a") (points "whisper-1") None None.
Proof.
  destruct (get_cache_key_spec (fun _ => Raise (OSError "No such file"))
              (points "a.m4a") (points "whisper-1") None None)
    as (Hkey & _ & Hsame & _).
  split; [exact Hkey|].
  apply Hsame. reflexivity.
Defined.

(** C5, as first stated, fails.  A prompt that holds the surrogate D800
    (the JSON text ["\ud800"] is read as such) cannot be encoded: the
    call raises and no key is returned. *)
Lemma surrogate_key_counterexample :
  get_cache_key (fun _ => Ok "1700000000.5") (points "a.m4a")
    (points "whisper-1") None (Some [0xD800%N])
  = Raise (UnicodeEncodeError
      "'utf-8' codec can't encode character '\ud800' in position 30: surrogates not allowed").
Proof. vm_compute. reflexivity. Qed.

(** ** The compression plan *)

Example bitrate_60_seconds :
  target_bitrate (Float.of_Z 24) (Float.of_Z 60) = Ok 128%Z.
Proof. vm_compute. reflexivity. Qed.

Example bitrate_2500_seconds :
  target_bitrate (Float.of_Z 24) (Float.of_Z 2500) = Ok 78%Z.
Proof. vm_compute. reflexivity. Qed.

Example bitrate_three_hours :
  target_bitrate (Float.of_Z 24) (Float.of_Z 10800) = Ok 32%Z.
Proof. vm_compute. reflexivity. Qed.

Example bitrate_infinite_duration :
  target_bitrate (Float.of_Z 24) (S754_infinity false) = Ok 32%Z.
Proof. vm_compute. reflexivity. Qed.

Example tiny_duration_valid :
  valid_binary Float.prec Float.emax tiny_duration = true
  /\ Float.ltb Float.zero tiny_duration = true.
Proof. vm_compute. auto. Qed.

Example bitrate_tiny_duration :
  target_bitrate (Float.of_Z 24) tiny_duration
  = Raise (OverflowError "cannot convert float infinity to integer").
Proof. vm_compute. reflexivity. Qed.

Lemma positive_not_le_zero d :
  Float.ltb Float.zero d = true ->
  Float.leb d Float.zero = false /\ Float.is_zero d = false.
Proof.
  destruct d as [s|s| |s m e]; try destruct s; vm_compute;
    intros H; try discriminate H; auto.
Qed.


(** For a positive duration the plan has three outcomes, by the quotient. *)
Lemma target_bitrate_cases target_mb duration :
  Float.ltb Float.zero duration = true ->
  match bitrate_quotient target_mb duration with
  | S754_infinity _ =>
      target_bitrate target_mb duration
      = Raise (OverflowError "cannot convert float infinity to integer")
  | S754_nan =>
      target_bitrate target_mb duration
      = Raise (ValueError "cannot convert float NaN to integer")
  | _ =>
      exists b, target_bitrate target_mb duration = Ok b /\ (32 <= b <= 128)%Z
  end.
Proof.
  intros Hpos. destruct (positive_not_le_zero _ Hpos) as [Hle Hz].
  unfold target_bitrate, Float.truediv. rewrite Hle, Hz. cbn [bind].
  fold (bitrate_quotient target_mb duration).
  destruct (bitrate_quotient target_mb duration); cbn [Float.to_int bind];
    try reflexivity; eexists; (split; [reflexivity | lia]).
Qed.




Section CompressionProperties.
Variable st_size : string -> result Z.
Variable ffprobe_duration : string -> result Float.float.
Variable ffmpeg : list string -> result (Z * string).
Variable gettempdir : result string.
Variable mkdir : string -> result unit.
Variable path_stem : string -> string.

Local Abbreviation compress :=
  (compress_audio_for_openai st_size ffprobe_duration ffmpeg gettempdir mkdir
     path_stem).



(** C7. When the file is larger than the target and the duration is
    unknown or zero, the function raises the error "Could not determine
    audio duration for compression", which is not the error of a failed
    encoder run; no bitrate is computed, no directory is made and the
    encoder is not run. *)
Theorem unknown_duration_fails (audio_path : string)
    (target_mb : Float.float) :
  exceeds_target st_size audio_path target_mb ->
  duration_unknown_or_zero ffprobe_duration audio_path ->
  compress audio_path target_mb
  = ([], Raise (ValueError "Could not determine audio duration for compression"))
  /\ target_bitrate target_mb
       (get_audio_duration ffprobe_duration audio_path)
     = Raise (ValueError "Could not determine audio duration for compression")
  /\ (forall stderr : string,
        ValueError "Could not determine audio duration for compression"
        <> ValueError ("Compression failed: "
                       +:+ String.substring 0 200 stderr)).
Proof.
  intros (size & Hsize & Hbig) Hdur.
  assert (Hle : Float.leb (get_audio_duration ffprobe_duration audio_path)
                          Float.zero = true).
  { unfold get_audio_duration.
    destruct Hdur as [[e He]|(d & Hd & Hz)].
    - rewrite He. reflexivity.
    - rewrite Hd. destruct d as [[]|[]| |]; try discriminate Hz; reflexivity. }
  assert (Hb : target_bitrate target_mb
                 (get_audio_duration ffprobe_duration audio_path)
               = Raise duration_error).
  { unfold target_bitrate. rewrite Hle. reflexivity. }
  split; [|split].
  - unfold compress_audio_for_openai.
    rewrite Hsize. cbn [io_lift io_bind]. rewrite Hbig, Hb. reflexivity.
  - exact Hb.
  - intros stderr H. discriminate H.
Qed.

End CompressionProperties.


Lemma unknown_duration_fails_witness :
  let st_size := fun _ : string => Ok (30 * 1024 * 1024)%Z in
  let ffprobe := fun _ : string =>
    Raise (ValueError "could not convert string to float") in
  let ffmpeg := fun _ : list string => Ok (0%Z, EmptyString) in
  let mkdir := fun _ : string => Ok tt in
  compress_audio_for_openai st_size ffprobe ffmpeg (Ok "/tmp") mkdir
    (fun _ => "a") "a.m4a" (Float.of_Z 24)
  = ([], Raise (ValueError "Could not determine audio duration for compression")).
Proof.
  intros st_size ffprobe ffmpeg mkdir.
  apply (unknown_duration_fails st_size ffprobe ffmpeg (Ok "/tmp") mkdir
           (fun _ => "a") "a.m4a" (Float.of_Z 24)).
  - exists (30 * 1024 * 1024)%Z. split; [reflexivity | vm_compute; reflexivity].
  - left. eexists. reflexivity.
Defined.

(** * Further properties of the code *)

(** ** The texts and the speakers of a result *)

Lemma truthy_nonempty s : Py.truthy s = true <-> s <> EmptyString.
Proof. destruct s; simpl; split; congruence. Qed.

Lemma lstrip_head s c t : Py.lstrip s = String c t -> Py.isspace c = false.
Proof.
  induction s as [|x s IH]; simpl; [discriminate|].
  destruct (Py.isspace x) eqn:E; [exact IH|]. intros [= <- _]. exact E.
Qed.

Lemma lstrip_fixed c t : Py.isspace c = false -> Py.lstrip (String c t) = String c t.
Proof. intros H. simpl. rewrite H. reflexivity. Qed.

Lemma lstrip_idem s : Py.lstrip (Py.lstrip s) = Py.lstrip s.
Proof.
  destruct (Py.lstrip s) as [|c t] eqn:E; [reflexivity|].
  apply lstrip_fixed. eapply lstrip_head. exact E.
Qed.

Lemma rstrip_cons c s :
  Py.rstrip (String c s) =
  match Py.rstrip s with
  | EmptyString => if Py.isspace c then EmptyString else String c EmptyString
  | r => String c r
  end.
Proof. reflexivity. Qed.

Lemma rstrip_idem s : Py.rstrip (Py.rstrip s) = Py.rstrip s.
Proof.
  induction s as [|c s IH]; [reflexivity|].
  rewrite rstrip_cons. destruct (Py.rstrip s) as [|x r] eqn:E.
  - destruct (Py.isspace c) eqn:Ec; [reflexivity|].
    simpl. rewrite Ec. reflexivity.
  - rewrite rstrip_cons. rewrite IH. reflexivity.
Qed.

Lemma rstrip_keeps_head c s :
  Py.isspace c = false -> exists r, Py.rstrip (String c s) = String c r.
Proof.
  intros H. rewrite rstrip_cons. destruct (Py.rstrip s); rewrite ?H; eauto.
Qed.

Lemma strip_lstrip_fixed s : Py.lstrip (Py.strip s) = Py.strip s.
Proof.
  unfold Py.strip. destruct (Py.lstrip s) as [|c t] eqn:E; [reflexivity|].
  pose proof (lstrip_head _ _ _ E) as Hc.
  destruct (rstrip_keeps_head c t Hc) as [r ->]. by apply lstrip_fixed.
Qed.

Lemma strip_rstrip_fixed s : Py.rstrip (Py.strip s) = Py.strip s.
Proof. unfold Py.strip. apply rstrip_idem. Qed.

Lemma strip_idem s : Py.strip (Py.strip s) = Py.strip s.
Proof.
  unfold Py.strip at 1. rewrite strip_lstrip_fixed. apply strip_rstrip_fixed.
Qed.

Lemma strip_trimmed s : Py.strip s <> EmptyString -> trimmed (Py.strip s).
Proof.
  intros H. split; [exact H|]. split; [apply strip_lstrip_fixed | apply strip_rstrip_fixed].
Qed.

Lemma trimmed_strip s : trimmed s -> Py.strip s = s.
Proof. intros (_ & Hl & Hr). unfold Py.strip. rewrite Hl. exact Hr. Qed.

Lemma trimmed_head s : trimmed s -> exists c t, s = String c t /\ Py.isspace c = false.
Proof.
  intros (Hne & Hl & _). destruct s as [|c t]; [congruence|].
  exists c, t. split; [reflexivity|]. eapply lstrip_head. exact Hl.
Qed.

Lemma rstrip_app x b :
  b <> EmptyString -> Py.rstrip b = b -> Py.rstrip (x +:+ b) = x +:+ b.
Proof.
  intros Hne Hb. induction x as [|c x IH]; [exact Hb|].
  rewrite append_cons, rstrip_cons, IH.
  destruct (x +:+ b) eqn:E; [|reflexivity].
  destruct x; [change (b = EmptyString) in E; congruence|].
  rewrite append_cons in E. discriminate.
Qed.

Lemma trimmed_append a b : trimmed a -> trimmed b -> trimmed (a +:+ " " +:+ b).
Proof.
  intros Ha Hb. destruct (trimmed_head _ Ha) as (c & t & -> & Hc).
  destruct Hb as (Hne & _ & Hr).
  split; [discriminate|]. split.
  - rewrite append_cons. by apply lstrip_fixed.
  - change (String c t +:+ " " +:+ b) with (String c t +:+ (" " +:+ b)).
    rewrite <- append_assoc. by apply rstrip_app.
Qed.

Lemma speaker_label_truthy g : Py.truthy (speaker_label g) = true.
Proof. reflexivity. Qed.

Lemma scan_patterns_rest ps line :
  Py.truthy_opt (speaker_found (scan_patterns ps line)) = false ->
  line_rest (scan_patterns ps line) = line.
Proof.
  induction ps as [|p ps IH]; simpl; [reflexivity|].
  destruct (Re.search p line); [|exact IH].
  simpl. discriminate.
Qed.

Lemma join_head sep c t rest :
  exists u, Py.join sep (String c t :: rest) = String c u.
Proof. destruct rest; simpl; eauto. Qed.

Lemma strip_join_trimmed x rest :
  trimmed x -> trimmed (Py.strip (Py.join " " (x :: rest))).
Proof.
  intros Hx. destruct (trimmed_head _ Hx) as (c & t & -> & Hc).
  destruct (join_head " " c t rest) as [u ->].
  apply strip_trimmed. unfold Py.strip. rewrite (lstrip_fixed _ _ Hc).
  destruct (rstrip_keeps_head c u Hc) as [r ->]. discriminate.
Qed.

Lemma close_out_texts st :
  texts_inv st -> Forall (fun seg => trimmed (text seg)) (close_out st).
Proof.
  intros [Hs Ht]. unfold close_out.
  destruct (Py.truthy_opt (current_speaker st)); simpl; [|assumption].
  destruct (current_text st) as [|x rest] eqn:E; simpl; [assumption|].
  apply Forall_app. split; [assumption|]. apply Forall_singleton.
  inversion Ht; subst. by apply (strip_join_trimmed x rest).
Qed.

Lemma process_line_texts st raw_line :
  texts_inv st -> texts_inv (process_line st raw_line).
Proof.
  intros Hinv. unfold process_line.
  destruct (negb (Py.truthy (Py.strip raw_line))) eqn:Eb; [assumption|].
  apply negb_false_iff in Eb.
  destruct (Py.truthy_opt (speaker_found _)) eqn:T.
  - split; cbn [segments current_text]; [by apply close_out_texts|].
    destruct (Py.truthy (line_rest _)) eqn:Er; [|constructor].
    apply Forall_singleton. apply truthy_nonempty in Er.
    assert (G : forall ps line,
              line_rest (scan_patterns ps line) <> EmptyString ->
              Py.strip line = line ->
              trimmed (line_rest (scan_patterns ps line))).
    { clear. induction ps as [|p ps IH]; intros line Hne Hl; simpl in *.
      - rewrite <- Hl. apply strip_trimmed. by rewrite Hl.
      - destruct (Re.search p line); [|by apply IH].
        simpl in *. by apply strip_trimmed. }
    apply G; [exact Er | apply strip_idem].
  - destruct (Py.truthy_opt (current_speaker st)); [|assumption].
    destruct Hinv as [Hs Ht]. split; [assumption|]. cbn [current_text].
    apply Forall_app. split; [assumption|]. apply Forall_singleton.
    rewrite (scan_patterns_rest _ _ T).
    apply strip_trimmed. by apply truthy_nonempty.
Qed.

Lemma raw_segments_texts raw :
  Forall (fun seg => trimmed (text seg)) (raw_segments raw).
Proof.
  unfold raw_segments. apply close_out_texts.
  apply (foldl_inv texts_inv).
  - intros st line. apply process_line_texts.
  - split; constructor.
Qed.

Lemma merge_step_Forall2 (P : segment -> Prop) merged seg :
  (forall p q, P p -> P q -> P (append_text p (text q))) ->
  Forall P merged -> P seg -> Forall P (merge_step merged seg).
Proof.
  intros Happ Hm Hs. destruct merged as [|x l _] using rev_ind.
  - by apply Forall_singleton.
  - rewrite merge_step_snoc. apply Forall_app in Hm as [Hl Hx].
    rewrite Forall_singleton in Hx.
    destruct (String.eqb (speaker x) (speaker seg)).
    + apply Forall_app. split; [assumption|]. apply Forall_singleton.
      by apply Happ.
    + apply Forall_app. split; [assumption|].
      apply Forall_cons. split; [assumption|]. by apply Forall_singleton.
Qed.

Lemma merge_segments_Forall2 (P : segment -> Prop) segs :
  (forall p q, P p -> P q -> P (append_text p (text q))) ->
  Forall P segs -> Forall P (merge_segments segs).
Proof.
  intros Happ. unfold merge_segments.
  assert (G : forall acc, Forall P acc -> Forall P segs ->
                          Forall P (foldl merge_step acc segs)).
  { induction segs as [|seg segs IH]; simpl; [auto|].
    intros acc Hacc Hs. apply Forall_cons in Hs as [Hseg Hs].
    apply IH; [|assumption]. by apply merge_step_Forall2. }
  apply G. constructor.
Qed.

(** X1. Every segment of a result has a text that is not empty and has no
    blank at either end. *)
Theorem segment_texts_trimmed (raw : string) :
  Forall (fun seg => text seg <> EmptyString /\ Py.strip (text seg) = text seg)
         (parse_gemini_diarization raw).
Proof.
  apply (Forall_impl (fun seg => trimmed (text seg))).
  - unfold parse_gemini_diarization.
    apply infer_end_times_Forall; [auto|].
    apply merge_segments_Forall2; [|apply raw_segments_texts].
    intros p q Hp Hq. simpl. by apply trimmed_append.
  - intros seg H. split; [apply H | by apply trimmed_strip].
Qed.

Lemma merge_step_speakers merged seg :
  speaker <$> merge_step merged seg =
  match last merged with
  | Some prev =>
      if String.eqb (speaker prev) (speaker seg) then speaker <$> merged
      else (speaker <$> merged) ++ [speaker seg]
  | None => [speaker seg]
  end.
Proof.
  destruct merged as [|x l _] using rev_ind; [reflexivity|].
  rewrite merge_step_snoc, last_snoc.
  destruct (String.eqb (speaker x) (speaker seg));
    rewrite !fmap_app; [reflexivity|].
  rewrite <- app_assoc. reflexivity.
Qed.

Lemma dedup_adjacent_cons x y r :
  dedup_adjacent (x :: y :: r)
  = if String.eqb x y then dedup_adjacent (y :: r)
    else x :: dedup_adjacent (y :: r).
Proof. reflexivity. Qed.

Lemma dedup_adjacent_twice u s v :
  dedup_adjacent (u ++ s :: s :: v) = dedup_adjacent (u ++ s :: v).
Proof.
  induction u as [|x u IH].
  - cbn [app]. rewrite dedup_adjacent_cons, String.eqb_refl. reflexivity.
  - destruct u as [|y u]; cbn [app] in *;
      rewrite !(dedup_adjacent_cons x), IH; reflexivity.
Qed.

Lemma foldl_merge_speakers acc segs :
  dedup_adjacent (speaker <$> foldl merge_step acc segs)
  = dedup_adjacent ((speaker <$> acc) ++ (speaker <$> segs)).
Proof.
  revert acc. induction segs as [|seg segs IH]; intros acc; simpl.
  - rewrite app_nil_r. reflexivity.
  - rewrite IH, merge_step_speakers.
    destruct acc as [|x l _] using rev_ind; [reflexivity|].
    rewrite last_snoc.
    destruct (String.eqb (speaker x) (speaker seg)) eqn:E.
    + apply String.eqb_eq in E. rewrite fmap_app. simpl.
      rewrite <- !app_assoc. simpl. rewrite <- E.
      symmetry. apply dedup_adjacent_twice.
    + rewrite <- app_assoc. reflexivity.
Qed.

Lemma adjacent_distinct_dedup l :
  adjacent_distinct l -> dedup_adjacent (speaker <$> l) = speaker <$> l.
Proof.
  induction l as [|a l IH]; intros H; [reflexivity|].
  assert (Hl : adjacent_distinct l).
  { intros i x y Hx Hy. apply (H (S i) x y); assumption. }
  destruct l as [|b l]; [reflexivity|].
  change (speaker <$> a :: b :: l) with (speaker a :: (speaker <$> b :: l)).
  change (dedup_adjacent (speaker a :: (speaker <$> b :: l)))
    with (if String.eqb (speaker a) (speaker b)
          then dedup_adjacent (speaker <$> b :: l)
          else speaker a :: dedup_adjacent (speaker <$> b :: l)).
  rewrite (IH Hl).
  destruct (String.eqb (speaker a) (speaker b)) eqn:E; [|reflexivity].
  apply String.eqb_eq in E. exfalso. by apply (H 0%nat a b).
Qed.

(** X2. The speakers of a result are the speakers of the unmerged list
    with every run of equal neighbours cut down to one. *)
Theorem result_speakers (raw : string) :
  speaker <$> parse_gemini_diarization raw
  = dedup_adjacent (speaker <$> raw_segments raw).
Proof.
  unfold parse_gemini_diarization.
  assert (Hs : speaker <$> infer_end_times (merge_segments (raw_segments raw))
               = speaker <$> merge_segments (raw_segments raw)).
  { apply list_eq. intros i. rewrite !list_lookup_fmap.
    rewrite infer_end_times_lookup. unfold with_next_start.
    destruct (merge_segments (raw_segments raw) !! i) as [seg|]; [|reflexivity].
    destruct (merge_segments (raw_segments raw) !! S i) as [next|];
      [destruct (start next)|]; reflexivity. }
  rewrite Hs.
  rewrite <- (adjacent_distinct_dedup _ (merge_segments_adjacent (raw_segments raw))).
  unfold merge_segments. rewrite foldl_merge_speakers. reflexivity.
Qed.

Lemma join_pair sep u a b v :
  Py.join sep (u ++ (a +:+ sep +:+ b) :: v) = Py.join sep (u ++ a :: b :: v).
Proof.
  induction u as [|x u IH].
  - simpl. destruct v; [reflexivity|]. rewrite !append_assoc. reflexivity.
  - change ((x :: u) ++ (a +:+ sep +:+ b) :: v)
      with (x :: (u ++ (a +:+ sep +:+ b) :: v)).
    change ((x :: u) ++ a :: b :: v) with (x :: (u ++ a :: b :: v)).
    destruct u as [|y u]; simpl in *; rewrite IH; reflexivity.
Qed.

Lemma merge_step_texts merged seg v :
  Py.join " " ((text <$> merge_step merged seg) ++ v)
  = Py.join " " ((text <$> merged) ++ text seg :: v).
Proof.
  destruct merged as [|x l _] using rev_ind; [reflexivity|].
  rewrite merge_step_snoc.
  destruct (String.eqb (speaker x) (speaker seg)); rewrite !fmap_app;
    rewrite <- !app_assoc; simpl; [|reflexivity].
  apply join_pair.
Qed.

Lemma foldl_merge_texts acc segs :
  Py.join " " (text <$> foldl merge_step acc segs)
  = Py.join " " ((text <$> acc) ++ (text <$> segs)).
Proof.
  revert acc. induction segs as [|seg segs IH]; intros acc; simpl.
  - rewrite app_nil_r. reflexivity.
  - rewrite IH. apply merge_step_texts.
Qed.

Lemma infer_end_times_texts l : text <$> infer_end_times l = text <$> l.
Proof.
  apply list_eq. intros i. rewrite !list_lookup_fmap.
  rewrite infer_end_times_lookup. unfold with_next_start.
  destruct (l !! i) as [seg|]; [|reflexivity].
  destruct (l !! S i) as [next|]; [destruct (start next)|]; reflexivity.
Qed.

(** X3. The merge pass loses no text. *)
Theorem merge_keeps_text (raw : string) (segs : list segment) :
  Py.join " " (text <$> merge_segments segs) = Py.join " " (text <$> segs)
  /\ Py.join " " (text <$> parse_gemini_diarization raw)
     = Py.join " " (text <$> raw_segments raw).
Proof.
  split.
  - unfold merge_segments. apply foldl_merge_texts.
  - unfold parse_gemini_diarization, merge_segments.
    rewrite infer_end_times_texts. apply foldl_merge_texts.
Qed.

Lemma foldl_merge_fixed acc segs :
  adjacent_distinct (acc ++ segs) -> foldl merge_step acc segs = acc ++ segs.
Proof.
  revert acc. induction segs as [|seg segs IH]; intros acc H; simpl.
  - rewrite app_nil_r. reflexivity.
  - assert (Hstep : merge_step acc seg = acc ++ [seg]).
    { destruct acc as [|x l _] using rev_ind; [reflexivity|].
      rewrite merge_step_snoc.
      destruct (String.eqb (speaker x) (speaker seg)) eqn:E;
        [|by rewrite <- app_assoc].
      apply String.eqb_eq in E. exfalso.
      apply (H (length l) x seg); [| |exact E].
      - rewrite <- app_assoc. apply list_lookup_middle. reflexivity.
      - apply list_lookup_middle. rewrite length_app. simpl. lia. }
    rewrite Hstep, IH; rewrite <- app_assoc; [reflexivity | exact H].
Qed.

Lemma merge_segments_fixed segs :
  adjacent_distinct segs -> merge_segments segs = segs.
Proof. intros H. unfold merge_segments. by rewrite foldl_merge_fixed. Qed.

Lemma set_end_twice seg t : set_end (set_end seg t) t = set_end seg t.
Proof. reflexivity. Qed.

Lemma infer_end_times_idem l :
  infer_end_times (infer_end_times l) = infer_end_times l.
Proof.
  apply list_eq. intros i.
  rewrite (infer_end_times_lookup (infer_end_times l)).
  unfold with_next_start at 1. rewrite !infer_end_times_lookup.
  unfold with_next_start.
  destruct (l !! i) as [seg|]; [|reflexivity].
  destruct (l !! S i) as [next|] eqn:En.
  - destruct (l !! S (S i)) as [nn|].
    + destruct (start nn); destruct (start next) eqn:Es; simpl;
        rewrite ?Es; reflexivity.
    + destruct (start next) eqn:Es; simpl; rewrite ?Es; reflexivity.
  - reflexivity.
Qed.

(** X4. A result is a fixed point of the two passes. *)
Theorem passes_idempotent (raw : string) (segs : list segment) :
  merge_segments (merge_segments segs) = merge_segments segs
  /\ infer_end_times (infer_end_times segs) = infer_end_times segs
  /\ infer_end_times (merge_segments (parse_gemini_diarization raw))
     = parse_gemini_diarization raw.
Proof.
  split; [|split].
  - apply merge_segments_fixed, merge_segments_adjacent.
  - apply infer_end_times_idem.
  - rewrite merge_segments_fixed.
    + apply infer_end_times_idem.
    + apply infer_end_times_adjacent, merge_segments_adjacent.
Qed.

Lemma split_app_sep sep a b :
  Py.split sep (a +:+ String sep b) = Py.split sep a ++ Py.split sep b.
Proof.
  induction a as [|c a IH]; [simpl; rewrite Ascii.eqb_refl; reflexivity|].
  rewrite append_cons. simpl. rewrite IH.
  destruct (Ascii.eqb c sep); [reflexivity|].
  pose proof (split_nonempty sep a) as Hne.
  destruct (Py.split sep a); [done | reflexivity].
Qed.

Lemma all_space_rstrip s : all_space s = true -> Py.rstrip s = EmptyString.
Proof.
  induction s as [|c s IH]; [reflexivity|]. simpl.
  intros H. apply andb_true_iff in H as [Hc Hs]. rewrite (IH Hs), Hc. reflexivity.
Qed.

Lemma all_space_lstrip s : all_space s = true -> Py.lstrip s = EmptyString.
Proof.
  induction s as [|c s IH]; [reflexivity|]. simpl.
  intros H. apply andb_true_iff in H as [Hc Hs]. rewrite Hc. by apply IH.
Qed.

Lemma all_space_strip s : all_space s = true -> Py.strip s = EmptyString.
Proof. intros H. unfold Py.strip. by rewrite all_space_lstrip. Qed.

Lemma strip_empty_all_space s : Py.strip s = EmptyString -> all_space s = true.
Proof.
  unfold Py.strip. induction s as [|c s IH]; [reflexivity|]. simpl.
  destruct (Py.isspace c) eqn:Ec; [exact IH|].
  intros H. destruct (rstrip_keeps_head c s Ec) as [r Hr].
  rewrite H in Hr. discriminate.
Qed.

Lemma all_space_split sep s :
  all_space s = true ->
  Forall (fun p => all_space p = true) (Py.split sep s).
Proof.
  induction s as [|c s IH]; simpl; [intros _; by apply Forall_singleton|].
  intros H. apply andb_true_iff in H as [Hc Hs]. specialize (IH Hs).
  destruct (Ascii.eqb c sep); [by constructor|].
  destruct (Py.split sep s) as [|h t]; [by apply Forall_singleton; simpl; rewrite Hc|].
  apply Forall_cons in IH as [Hh Ht].
  constructor; [simpl; by rewrite Hc, Hh | assumption].
Qed.

Lemma process_blank st raw_line :
  Py.strip raw_line = EmptyString -> process_line st raw_line = st.
Proof. intros H. unfold process_line. rewrite H. reflexivity. Qed.

Lemma raw_segments_app a b :
  raw_segments (a +:+ nl +:+ b)
  = close_out (foldl process_line
                 (foldl process_line initial_state (Py.split (ascii_of_nat 10) a))
                 (Py.split (ascii_of_nat 10) b)).
Proof.
  unfold raw_segments.
  change (a +:+ nl +:+ b) with (a +:+ String (ascii_of_nat 10) b).
  rewrite split_app_sep, foldl_app. reflexivity.
Qed.

Lemma foldl_no_marker lines :
  (forall line p, line ∈ lines -> p ∈ patterns ->
                  Re.search p (Py.strip line) = None) ->
  foldl process_line initial_state lines = initial_state.
Proof.
  induction lines as [|line lines IH]; intros H; simpl; [reflexivity|].
  rewrite process_line_no_marker.
  - apply IH. intros l p Hl. apply H. by constructor.
  - reflexivity.
  - intros p. apply H. constructor.
Qed.

(** X5. Lines in front of the first marker are dropped. *)
Theorem leading_lines_dropped (pre rest : string) :
  (forall line p,
     line ∈ Py.split (ascii_of_nat 10) pre -> p ∈ patterns ->
     Re.search p line = None) ->
  parse_gemini_diarization (pre +:+ nl +:+ rest)
  = parse_gemini_diarization rest.
Proof.
  intros H. unfold parse_gemini_diarization. f_equal. f_equal.
  rewrite raw_segments_app. rewrite foldl_no_marker; [reflexivity|].
  intros line p Hl Hp. apply search_stripped. by apply H.
Qed.

(** ** The timestamps of a result *)

Lemma append_nil_r (s : string) : s +:+ EmptyString = s.
Proof. induction s as [|c s IH]; [reflexivity|]. rewrite append_cons. by f_equal. Qed.

Lemma length_append (a b : string) :
  String.length (a +:+ b) = (String.length a + String.length b)%nat.
Proof.
  induction a as [|c a IH]; [reflexivity|].
  rewrite append_cons. simpl. by rewrite IH.
Qed.

Lemma substring_prefix (u s : string) :
  String.substring 0 (String.length u) (u +:+ s) = u.
Proof.
  induction u as [|c u IH].
  - simpl. destruct s; reflexivity.
  - rewrite append_cons. simpl. by rewrite IH.
Qed.

Lemma consumed_app u s : Re.consumed (u +:+ s) s = u.
Proof.
  unfold Re.consumed. rewrite length_append.
  replace (String.length u + String.length s - String.length s)%nat
    with (String.length u) by lia.
  apply substring_prefix.
Qed.

Lemma repeat_greedy_sound {R : Type} p min max (k : string -> option R) s x :
  Re.repeat_greedy p min max k s = Some x ->
  exists u s',
    s = u +:+ s' /\ all_chars p u = true /\ min <= String.length u
    /\ match max with Some m => String.length u <= m | None => True end
    /\ k s' = Some x.
Proof.
  revert min max. induction s as [|ch s IH]; intros min max.
  - simpl. destruct min; [|discriminate]. intros H.
    exists EmptyString, EmptyString. repeat split; simpl; try lia; [|exact H].
    destruct max; simpl; lia.
  - assert (Hstop : match min with O => k (String ch s) | S _ => None end
                    = Some x ->
                    exists u s', String ch s = u +:+ s'
                      /\ all_chars p u = true /\ min <= String.length u
                      /\ match max with
                         | Some m => String.length u <= m | None => True end
                      /\ k s' = Some x).
    { destruct min; [|discriminate]. intros H.
      exists EmptyString, (String ch s). repeat split; simpl; try lia; [|exact H].
      destruct max; simpl; lia. }
    simpl.
    destruct (p ch) eqn:Ep; simpl; [|exact Hstop].
    destruct max as [[|m]|]; simpl; try exact Hstop.
    + destruct (Re.repeat_greedy p (Nat.pred min) (Some m) k s) as [y|] eqn:E;
        [|exact Hstop].
      intros [= ->].
      destruct (IH _ _ E) as (u & s' & -> & Hu & Hmin & Hmax & Hk).
      exists (String ch u), s'. rewrite append_cons.
      repeat split; simpl; try lia; [by rewrite Ep | exact Hk].
    + destruct (Re.repeat_greedy p (Nat.pred min) None k s) as [y|] eqn:E;
        [|exact Hstop].
      intros [= ->].
      destruct (IH _ _ E) as (u & s' & -> & Hu & Hmin & Hmax & Hk).
      exists (String ch u), s'. rewrite append_cons.
      repeat split; simpl; try lia; [by rewrite Ep | exact Hk].
Qed.

Lemma caps_from_refl r c : caps_from r c c.
Proof. intros i g H. by left. Qed.

Lemma exec_sound r :
  forall (R : Type) (k : string -> Re.caps -> option R) s c x,
    Re.exec r k s c = Some x ->
    exists u s' c',
      s = u +:+ s' /\ lang r u /\ caps_from r c c' /\ k s' c' = Some x.
Proof.
  induction r as [|a|r1 IH1 r2 IH2|a min max|r1 IH1|i r1 IH1];
    intros R k s c x; cbn [Re.exec].
  - intros H. exists EmptyString, s, c.
    repeat split; [apply caps_from_refl | exact H].
  - destruct s as [|ch s']; [discriminate|].
    destruct (Re.atom_ok a ch) eqn:Ea; [|discriminate].
    intros H. exists (String ch EmptyString), s', c.
    repeat split; [exists ch; auto | apply caps_from_refl | exact H].
  - intros H.
    destruct (IH1 _ _ _ _ _ H) as (u1 & s1 & c1 & -> & L1 & C1 & H1).
    destruct (IH2 _ _ _ _ _ H1) as (u2 & s2 & c2 & -> & L2 & C2 & H2).
    exists (u1 +:+ u2), s2, c2. split; [by rewrite append_assoc|].
    split; [exists u1, u2; auto|]. split; [|exact H2].
    intros j g Hg. destruct (C2 j g Hg) as [Hc1|(body & Hin & Hl)].
    + destruct (C1 j g Hc1) as [Hc|(body & Hin & Hl)]; [by left|].
      right. exists body. split; [|exact Hl]. cbn [groups_in].
      apply elem_of_app. by left.
    + right. exists body. split; [|exact Hl]. cbn [groups_in].
      apply elem_of_app. by right.
  - intros H. apply repeat_greedy_sound in H
      as (u & s' & -> & Hu & Hmin & Hmax & Hk).
    exists u, s', c. repeat split; try assumption. apply caps_from_refl.
  - destruct (Re.exec r1 k s c) as [y|] eqn:E.
    + intros [= ->].
      destruct (IH1 _ _ _ _ _ E) as (u & s' & c' & -> & L & C & H).
      exists u, s', c'. repeat split; [by right | exact C | exact H].
    + intros H. exists EmptyString, s, c.
      repeat split; [by left | apply caps_from_refl | exact H].
  - intros H.
    destruct (IH1 _ _ _ _ _ H) as (u & s' & c' & -> & L & C & Hk).
    exists u, s', ((i, Re.consumed (u +:+ s') s') :: c').
    repeat split; [exact L | | exact Hk].
    rewrite consumed_app. intros j g. cbn [Re.group groups_in].
    destruct (Nat.eqb j i) eqn:Ej.
    + apply Nat.eqb_eq in Ej. subst j. intros [= <-].
      right. exists r1. split; [constructor | exact L].
    + intros Hg. destruct (C j g Hg) as [Hc|(body & Hin & Hl)]; [by left|].
      right. exists body. split; [by constructor | exact Hl].
Qed.

Lemma search_sound r s c :
  Re.search r s = Some c -> caps_from r [] c.
Proof.
  assert (G : forall t rest, Re.match_here r t = Some (rest, c) -> caps_from r [] c).
  { intros t rest H. unfold Re.match_here in H.
    destruct (exec_sound r _ _ _ _ _ H) as (u & s' & c' & _ & _ & C & Heq).
    injection Heq as _ <-. exact C. }
  induction s as [|x s IH]; simpl.
  - destruct (Re.match_here r EmptyString) as [[rest c0]|] eqn:E; [|discriminate].
    intros [= ->]. eapply G. exact E.
  - destruct (Re.match_here r (String x s)) as [[rest c0]|] eqn:E; [|exact IH].
    intros [= ->]. eapply G. exact E.
Qed.

Lemma decimal_not_colon c : Py.isdecimal c = true -> Ascii.eqb c ":" = false.
Proof.
  intros H. destruct (Ascii.eqb_spec c ":") as [->|]; [discriminate H | reflexivity].
Qed.

Lemma decimal_not_blank c : Py.isdecimal c = true -> Py.int_blank c = false.
Proof.
  destruct c as [[] [] [] [] [] [] [] []]; intros H; try discriminate H; reflexivity.
Qed.

Lemma digits_no_colon d :
  all_chars Py.isdecimal d = true -> has_char ":" d = false.
Proof.
  induction d as [|c d IH]; [reflexivity|]. simpl.
  intros H. apply andb_true_iff in H as [Hc Hd].
  rewrite (decimal_not_colon _ Hc). by apply IH.
Qed.

Lemma digits_rskip d :
  all_chars Py.isdecimal d = true -> Py.int_rskip d = d.
Proof.
  induction d as [|c d IH]; [reflexivity|]. simpl.
  intros H. apply andb_true_iff in H as [Hc Hd]. rewrite (IH Hd).
  destruct d; [|reflexivity]. by rewrite (decimal_not_blank _ Hc).
Qed.

Lemma digit_value_range c :
  Py.isdecimal c = true -> exists v, Py.digit_value c = Some v /\ (0 <= v <= 9)%Z.
Proof.
  destruct c as [[] [] [] [] [] [] [] []]; intros H; try discriminate H;
    vm_compute; eexists; (split; [reflexivity | split; discriminate]).
Qed.

Lemma int_digits_range d :
  all_chars Py.isdecimal d = true ->
  forall acc prev, (0 <= acc)%Z -> (prev = Py.AfterDigit \/ d <> EmptyString) ->
  exists v, Py.int_digits acc prev d = Some v
            /\ (acc * 10 ^ Z.of_nat (String.length d) <= v
                < (acc + 1) * 10 ^ Z.of_nat (String.length d))%Z.
Proof.
  induction d as [|c d IH]; intros H acc prev Hacc Hprev.
  - destruct Hprev as [->|]; [|done]. exists acc. simpl. split; [reflexivity | lia].
  - simpl in H. apply andb_true_iff in H as [Hc Hd].
    destruct (digit_value_range _ Hc) as (v0 & Hv0 & Hr0).
    cbn [Py.int_digits]. rewrite Hv0.
    destruct (IH Hd (10 * acc + v0)%Z Py.AfterDigit) as (v & Hv & Hr);
      [lia | by left|].
    exists v. split; [exact Hv|].
    cbn [String.length]. rewrite Nat2Z.inj_succ, Z.pow_succ_r by lia.
    nia.
Qed.

Lemma int_literal_digits d :
  all_chars Py.isdecimal d = true -> d <> EmptyString ->
  exists v, Py.int_literal d = Some v
            /\ (0 <= v < 10 ^ Z.of_nat (String.length d))%Z.
Proof.
  intros H Hne. unfold Py.int_literal.
  destruct d as [|c d]; [done|].
  assert (Hc : Py.isdecimal c = true).
  { simpl in H. by apply andb_true_iff in H as [Hc _]. }
  assert (Hl : Py.int_lskip (String c d) = String c d).
  { simpl. by rewrite (decimal_not_blank _ Hc). }
  rewrite Hl, (digits_rskip _ H).
  destruct (int_digits_range _ H 0%Z Py.AtStart) as (v & Hv & Hr);
    [lia | by right|].
  exists v. split; [|lia].
  destruct c as [[] [] [] [] [] [] [] []]; try discriminate Hc; exact Hv.
Qed.

Lemma count_decimal_length d : count_decimal d <= String.length d.
Proof.
  induction d as [|c d IH]; [reflexivity|]. cbn [count_decimal String.length].
  destruct (Py.isdecimal c); lia.
Qed.

(** One or two digits are a literal that [int] accepts. *)
Lemma int_short_digits d :
  all_chars Py.isdecimal d = true -> 1 <= String.length d <= 2 ->
  exists v, Py.int d = Ok v
            /\ (0 <= v < 10 ^ Z.of_nat (String.length d))%Z.
Proof.
  intros H Hl.
  destruct (int_literal_digits d H) as (v & Hv & Hr).
  { destruct d; [simpl in Hl; lia | discriminate]. }
  exists v. split; [|exact Hr].
  apply int_accepts. split; [exact Hv|].
  pose proof (count_decimal_length d) as Hc.
  apply (Nat.le_trans _ 2); [lia|].
  unfold Py.int_max_str_digits. do 2 apply le_n_S. apply Nat.le_0_l.
Qed.

(** The texts of [timestamp_re]. *)
Lemma lang_timestamp ts :
  lang timestamp_re ts ->
  exists d1 d2 tail,
    ts = d1 +:+ ":" +:+ d2 +:+ tail
    /\ all_chars Py.isdecimal d1 = true /\ 1 <= String.length d1 <= 2
    /\ all_chars Py.isdecimal d2 = true /\ String.length d2 = 2%nat
    /\ (tail = EmptyString
        \/ exists d3, tail = ":" +:+ d3
                      /\ all_chars Py.isdecimal d3 = true
                      /\ String.length d3 = 2%nat).
Proof.
  unfold timestamp_re. cbn [Re.seq foldr lang].
  intros (d1 & r1 & -> & (Hd1 & Hmin1 & Hmax1) & c & r2 & -> & (ch & Hch & ->)
          & d2 & r3 & -> & (Hd2 & Hmin2 & Hmax2) & o & e & -> & Ho & ->).
  apply Ascii.eqb_eq in Hch. subst ch.
  exists d1, d2, o. rewrite append_nil_r.
  split; [reflexivity|]. repeat split; try assumption; try lia.
  destruct Ho as [->|(c3 & r4 & -> & (ch & Hch & ->) & d3 & e3 & -> & (Hd3 & Hmin3 & Hmax3) & ->)];
    [by left|].
  right. apply Ascii.eqb_eq in Hch. subst ch.
  exists d3. rewrite append_nil_r. repeat split; try assumption; lia.
Qed.

Lemma timestamp_parses ts :
  lang timestamp_re ts ->
  exists n, parse_timestamp (Some ts) = Some n /\ (0 <= n <= max_timestamp)%Z.
Proof.
  intros H. apply lang_timestamp in H
    as (d1 & d2 & tail & -> & Hd1 & Hl1 & Hd2 & Hl2 & Htail).
  destruct (int_short_digits d1 Hd1) as (v1 & Hv1 & Hr1); [lia|].
  destruct (int_short_digits d2 Hd2) as (v2 & Hv2 & Hr2); [lia|].
  assert (Hp1 : (10 ^ Z.of_nat (String.length d1) <= 100)%Z).
  { destruct Hl1 as [Ha Hb].
    assert (String.length d1 = 1%nat \/ String.length d1 = 2%nat) as [->| ->] by lia;
      simpl; lia. }
  rewrite Hl2 in Hr2. change (10 ^ Z.of_nat 2)%Z with 100%Z in Hr2.
  unfold max_timestamp.
  destruct Htail as [->|(d3 & -> & Hd3 & Hl3)].
  - exists (60 * v1 + v2)%Z. split; [|lia].
    apply parse_timestamp_m_ss. exists d1, d2. rewrite append_nil_r.
    repeat split; auto using digits_no_colon.
  - destruct (int_short_digits d3 Hd3) as (v3 & Hv3 & Hr3); [lia|].
    rewrite Hl3 in Hr3. change (10 ^ Z.of_nat 2)%Z with 100%Z in Hr3.
    exists (3600 * v1 + 60 * v2 + v3)%Z. split; [|lia].
    apply parse_timestamp_h_mm_ss. exists d1, d2, d3.
    repeat split; auto using digits_no_colon.
Qed.

Lemma patterns_group2 :
  Forall (fun p => Forall (fun ib => fst ib = 2%nat -> snd ib = timestamp_re)
                          (groups_in p)) patterns.
Proof.
  unfold patterns.
  repeat (apply Forall_cons; split;
          [simpl;
           repeat (apply Forall_cons; split;
                   [cbn [fst snd]; intros H; first [discriminate H | reflexivity]|]);
           apply List.Forall_nil|]).
  apply List.Forall_nil.
Qed.

Lemma scan_time_parses ps line ts :
  Forall (fun p => Forall (fun ib => fst ib = 2%nat -> snd ib = timestamp_re)
                          (groups_in p)) ps ->
  time_found (scan_patterns ps line) = Some ts ->
  exists n, parse_timestamp (Some ts) = Some n /\ (0 <= n <= max_timestamp)%Z.
Proof.
  induction 1 as [|p ps Hp Hps IH]; simpl; [discriminate|].
  destruct (Re.search p line) as [m|] eqn:E; [|exact IH].
  simpl. destruct ((1 <? Re.ngroups p)%nat && Py.truthy_opt (Re.group 2 m));
    [|discriminate].
  intros Hg. destruct (search_sound _ _ _ E 2%nat ts Hg) as [Hnil|(body & Hin & Hl)];
    [discriminate Hnil|].
  rewrite Forall_forall in Hp. specialize (Hp _ Hin eq_refl). simpl in Hp.
  subst body. by apply timestamp_parses.
Qed.

(** X6. A timestamp that a marker pattern captures is always understood
    by [parse_timestamp], and its value is at most 99:99:99. *)
Theorem marker_timestamp_parses (line : string) :
  match time_found (scan_patterns patterns line) with
  | Some ts =>
      exists n, parse_timestamp (Some ts) = Some n /\ (0 <= n <= max_timestamp)%Z
  | None => True
  end.
Proof.
  destruct (time_found (scan_patterns patterns line)) as [ts|] eqn:E; [|exact I].
  eapply scan_time_parses; [apply patterns_group2 | exact E].
Qed.

Lemma close_out_times st :
  times_inv st -> Forall (fun seg => time_in_range (start seg)) (close_out st).
Proof.
  intros [Hs Ht]. unfold close_out.
  destruct (_ && _); [|assumption].
  apply Forall_app. split; [assumption|]. by apply Forall_singleton.
Qed.

Lemma process_line_times st raw_line :
  times_inv st -> times_inv (process_line st raw_line).
Proof.
  intros Hinv. unfold process_line.
  destruct (negb _); [assumption|].
  destruct (Py.truthy_opt (speaker_found _)).
  - split; cbn [segments current_time]; [by apply close_out_times|].
    destruct (time_found (scan_patterns patterns (Py.strip raw_line)))
      as [ts|] eqn:E; [|exact I].
    destruct (scan_time_parses _ _ _ patterns_group2 E) as (n & -> & Hn).
    exact Hn.
  - destruct (Py.truthy_opt (current_speaker st)); [|assumption].
    destruct Hinv as [Hs Ht]. split; assumption.
Qed.

Lemma raw_segments_times raw :
  Forall (fun seg => time_in_range (start seg)) (raw_segments raw).
Proof.
  unfold raw_segments. apply close_out_times.
  apply (foldl_inv times_inv).
  - intros st line. apply process_line_times.
  - split; [constructor | exact I].
Qed.

(** X7. Every start and end time of a result is unknown or lies between
    0 and 99:99:99. *)
Theorem times_in_range (raw : string) :
  Forall (fun seg => time_in_range (start seg) /\ time_in_range (end_ seg))
         (parse_gemini_diarization raw).
Proof.
  unfold parse_gemini_diarization.
  set (merged := merge_segments (raw_segments raw)).
  assert (Hm : Forall (fun seg => time_in_range (start seg) /\ end_ seg = None)
                      merged).
  { apply Forall_and. split.
    - apply merge_segments_Forall; [auto | apply raw_segments_times].
    - apply merged_no_end. }
  apply Forall_lookup. intros i seg.
  rewrite infer_end_times_lookup. unfold with_next_start.
  destruct (merged !! i) as [seg0|] eqn:E0; [|discriminate].
  destruct (Forall_lookup_1 _ _ _ _ Hm E0) as [Hs0 He0].
  destruct (merged !! S i) as [next|] eqn:En.
  - destruct (Forall_lookup_1 _ _ _ _ Hm En) as [Hsn _].
    destruct (start next) as [t|] eqn:Et; intros [= <-]; simpl.
    + split; [exact Hs0 | exact Hsn].
    + rewrite He0. split; [exact Hs0 | exact I].
  - intros [= <-]. rewrite He0. split; [exact Hs0 | exact I].
Qed.

(** ** Blanks and empty lines *)

Lemma process_line_strip st raw_line :
  process_line st (Py.strip raw_line) = process_line st raw_line.
Proof. unfold process_line. by rewrite strip_idem. Qed.

Lemma foldl_content st lines :
  foldl process_line st lines
  = foldl process_line st
      (filter (fun line => line <> EmptyString) (Py.strip <$> lines)).
Proof.
  revert st. induction lines as [|l lines IH]; intros st; [reflexivity|].
  cbn [fmap list_fmap foldl]. destruct (decide (Py.strip l = EmptyString)) as [E|E].
  - rewrite filter_cons_False by (intros H; by apply H).
    rewrite process_blank by exact E. apply IH.
  - rewrite filter_cons_True by exact E.
    cbn [foldl]. rewrite process_line_strip. apply IH.
Qed.

Lemma parse_content raw :
  parse_gemini_diarization raw
  = infer_end_times
      (merge_segments
         (close_out (foldl process_line initial_state (content_lines raw)))).
Proof.
  unfold parse_gemini_diarization, raw_segments, content_lines.
  by rewrite <- foldl_content.
Qed.

(** X8. The result is decided by the lines that are left when every line
    is stripped and the empty ones are dropped: blanks around a line and
    empty lines, wherever they stand, change nothing. *)
Theorem content_lines_decide (a b : string) :
  content_lines a = content_lines b ->
  parse_gemini_diarization a = parse_gemini_diarization b.
Proof. intros H. by rewrite !parse_content, H. Qed.

Lemma split_concat sep a : forall pre la b w0 rest,
  Py.split sep a = pre ++ [la] ->
  Py.split sep b = w0 :: rest ->
  Py.split sep (a +:+ b) = pre ++ [la +:+ w0] ++ rest.
Proof.
  induction a as [|c a IH]; intros pre la b w0 rest Ha Hb.
  - simpl in Ha. destruct pre as [|p pre].
    + injection Ha as <-. exact Hb.
    + injection Ha as _ Ha. by destruct pre.
  - rewrite append_cons. simpl in Ha |- *.
    destruct (Ascii.eqb c sep).
    + destruct pre as [|p pre].
      * injection Ha as _ Ha. by destruct (split_nonempty sep a).
      * injection Ha as <- Ha. rewrite (IH pre la b w0 rest Ha Hb). reflexivity.
    + destruct (Py.split sep a) as [|h tl] eqn:Hs;
        [by destruct (split_nonempty sep a)|].
      destruct pre as [|p pre].
      * injection Ha as <- ->.
        rewrite (IH [] h b w0 rest eq_refl Hb). reflexivity.
      * injection Ha as <- ->.
        rewrite (IH (h :: pre) la b w0 rest eq_refl Hb). reflexivity.
Qed.

Lemma snoc_exists {A : Type} (l : list A) :
  l <> [] -> exists pre la, l = pre ++ [la].
Proof.
  induction l as [|x l IH]; [done|]. intros _.
  destruct l as [|y l]; [by exists [], x|].
  destruct IH as (pre & la & E); [done|]. exists (x :: pre), la. by rewrite E.
Qed.

Lemma lstrip_decompose t :
  exists ws, all_space ws = true /\ t = ws +:+ Py.lstrip t.
Proof.
  induction t as [|c t (ws & Hws & E)]; [by exists EmptyString|].
  simpl. destruct (Py.isspace c) eqn:Hc.
  - exists (String c ws). split; [simpl; by rewrite Hc, Hws|].
    rewrite append_cons. by f_equal.
  - by exists EmptyString.
Qed.

Lemma rstrip_decompose t :
  exists ws, all_space ws = true /\ t = Py.rstrip t +:+ ws.
Proof.
  induction t as [|c t (ws & Hws & E)]; [by exists EmptyString|].
  rewrite rstrip_cons. destruct (Py.rstrip t) as [|r0 r] eqn:Hr.
  - change (t = ws) in E. subst ws.
    destruct (Py.isspace c) eqn:Hc.
    + exists (String c t). split; [simpl; by rewrite Hc, Hws | reflexivity].
    + exists t. split; [exact Hws | reflexivity].
  - exists ws. split; [exact Hws|]. rewrite append_cons. by f_equal.
Qed.

Lemma all_space_app a b :
  all_space a = true -> all_space b = true -> all_space (a +:+ b) = true.
Proof.
  induction a as [|c a IH]; [done|]. rewrite append_cons. simpl.
  intros H Hb. apply andb_true_iff in H as [Hc Ha]. by rewrite Hc, IH.
Qed.

Lemma lstrip_app_space w x :
  all_space w = true -> Py.lstrip (w +:+ x) = Py.lstrip x.
Proof.
  induction w as [|c w IH]; [done|]. rewrite append_cons. simpl.
  intros H. apply andb_true_iff in H as [Hc Hw]. rewrite Hc. by apply IH.
Qed.

Lemma rstrip_app_space x w :
  all_space w = true -> Py.rstrip (x +:+ w) = Py.rstrip x.
Proof.
  intros Hw. induction x as [|c x IH].
  - change (Py.rstrip w = EmptyString). by apply all_space_rstrip.
  - rewrite append_cons, !rstrip_cons, IH. reflexivity.
Qed.

Lemma lstrip_app_l a w :
  Py.lstrip a <> EmptyString -> Py.lstrip (a +:+ w) = Py.lstrip a +:+ w.
Proof.
  induction a as [|c a IH]; [done|]. rewrite append_cons. simpl.
  destruct (Py.isspace c); [exact IH|]. intros _. by rewrite append_cons.
Qed.

Lemma lstrip_empty_all_space a :
  Py.lstrip a = EmptyString -> all_space a = true.
Proof.
  induction a as [|c a IH]; [done|]. simpl.
  destruct (Py.isspace c); [exact IH | discriminate].
Qed.

Lemma strip_app_space_r a w :
  all_space w = true -> Py.strip (a +:+ w) = Py.strip a.
Proof.
  intros Hw. unfold Py.strip.
  destruct (Py.lstrip a) as [|c0 r] eqn:Hl.
  - apply lstrip_empty_all_space in Hl.
    rewrite all_space_lstrip by (by apply all_space_app). reflexivity.
  - rewrite lstrip_app_l by (rewrite Hl; discriminate).
    rewrite Hl. by apply rstrip_app_space.
Qed.

Lemma strip_app_space_l w x :
  all_space w = true -> Py.strip (w +:+ x) = Py.strip x.
Proof. intros Hw. unfold Py.strip. by rewrite lstrip_app_space. Qed.

Lemma content_blank lines :
  Forall (fun l => all_space l = true) lines ->
  filter (fun line => line <> EmptyString) (Py.strip <$> lines) = [].
Proof.
  induction 1 as [|l lines Hl _ IH]; [reflexivity|].
  cbn [fmap list_fmap].
  rewrite filter_cons_False; [exact IH|].
  intros H. apply H. by apply all_space_strip.
Qed.

Lemma content_lines_space_r t ws :
  all_space ws = true -> content_lines (t +:+ ws) = content_lines t.
Proof.
  intros Hws. unfold content_lines.
  destruct (snoc_exists _ (split_nonempty (ascii_of_nat 10) t))
    as (pre & la & Ht).
  pose proof (all_space_split (ascii_of_nat 10) ws Hws) as Hall.
  destruct (Py.split (ascii_of_nat 10) ws) as [|w0 rest] eqn:Hs;
    [by destruct (split_nonempty (ascii_of_nat 10) ws)|].
  apply Forall_cons in Hall as [Hw0 Hrest].
  rewrite (split_concat _ _ _ _ _ _ _ Ht Hs), Ht.
  rewrite !fmap_app, !filter_app. cbn [fmap list_fmap].
  rewrite (content_blank rest Hrest), app_nil_r.
  by rewrite (strip_app_space_r la w0 Hw0).
Qed.

Lemma content_lines_space_l ws t :
  all_space ws = true -> content_lines (ws +:+ t) = content_lines t.
Proof.
  intros Hws. unfold content_lines.
  destruct (snoc_exists _ (split_nonempty (ascii_of_nat 10) ws))
    as (pre & la & Hs).
  pose proof (all_space_split (ascii_of_nat 10) ws Hws) as Hall.
  rewrite Hs in Hall. apply Forall_app in Hall as [Hpre Hla].
  rewrite Forall_singleton in Hla.
  destruct (Py.split (ascii_of_nat 10) t) as [|w0 rest] eqn:Ht;
    [by destruct (split_nonempty (ascii_of_nat 10) t)|].
  rewrite (split_concat _ _ _ _ _ _ _ Hs Ht).
  rewrite !fmap_app, !filter_app. cbn [fmap list_fmap].
  rewrite (content_blank pre Hpre). cbn [app].
  rewrite (strip_app_space_l la w0 Hla). by rewrite <- filter_app.
Qed.

Lemma content_lines_strip t : content_lines (Py.strip t) = content_lines t.
Proof.
  unfold Py.strip.
  destruct (lstrip_decompose t) as (wl & Hwl & El).
  destruct (rstrip_decompose (Py.lstrip t)) as (wr & Hwr & Er).
  rewrite El at 2. rewrite (content_lines_space_l _ _ Hwl).
  rewrite Er at 2. by rewrite (content_lines_space_r _ _ Hwr).
Qed.

(** X9. Stripping the whole text before the call, as [transcribe_gemini]
    does, changes nothing: the result is that of the text as it came. *)
Theorem strip_before_parse_redundant (raw : string) :
  parse_gemini_diarization (Py.strip raw) = parse_gemini_diarization raw.
Proof. by rewrite !parse_content, content_lines_strip. Qed.

(** ** The outcomes of the compression *)

Lemma not_le_zero_not_zero d :
  Float.leb d Float.zero = false -> Float.is_zero d = false.
Proof. destruct d as [[]|[]| |[] m e]; vm_compute; congruence. Qed.

Lemma target_bitrate_unfold target_mb duration :
  Float.leb duration Float.zero = false ->
  target_bitrate target_mb duration
  = let* k := Float.to_int (bitrate_quotient target_mb duration) in
    Ok (Z.max 32 (Z.min k 128)).
Proof.
  intros Hle. unfold target_bitrate, Float.truediv.
  rewrite Hle, (not_le_zero_not_zero _ Hle). reflexivity.
Qed.

Lemma target_bitrate_Ok_range target_mb duration b :
  target_bitrate target_mb duration = Ok b -> (32 <= b <= 128)%Z.
Proof.
  destruct (Float.leb duration Float.zero) eqn:Hle.
  - unfold target_bitrate. rewrite Hle. discriminate.
  - rewrite (target_bitrate_unfold _ _ Hle).
    destruct (Float.to_int _); cbn [bind]; [|discriminate].
    intros [= <-]. lia.
Qed.

Lemma sibling_unfold target_mb duration :
  Float.leb duration Float.zero = false ->
  TestAllModels.target_bitrate target_mb duration
  = target_bitrate target_mb duration.
Proof.
  intros Hle. unfold target_bitrate, TestAllModels.target_bitrate.
  rewrite Hle. reflexivity.
Qed.

(** X10. The plan has four outcomes and no other: the duration error when
    the duration is not above zero (a negative one and minus infinity
    included), the two conversion errors of [int] when the quotient is
    infinite or not a number, or a bitrate between 32 and 128.  The
    division itself never fails: a zero duration never reaches it.  The
    copy in [test_all_models.py] differs in the text of the first error
    only. *)
Theorem target_bitrate_outcomes (target_mb duration : Float.float) :
  match target_bitrate target_mb duration with
  | Ok b =>
      (32 <= b <= 128)%Z
      /\ Float.leb duration Float.zero = false
      /\ TestAllModels.target_bitrate target_mb duration = Ok b
  | Raise e =>
      e = ValueError "Could not determine audio duration for compression"
        /\ Float.leb duration Float.zero = true
        /\ TestAllModels.target_bitrate target_mb duration
           = Raise (ValueError "Could not determine audio duration")
      \/ (e = OverflowError "cannot convert float infinity to integer"
          \/ e = ValueError "cannot convert float NaN to integer")
         /\ Float.leb duration Float.zero = false
         /\ TestAllModels.target_bitrate target_mb duration = Raise e
  end.
Proof.
  destruct (Float.leb duration Float.zero) eqn:Hle.
  - unfold target_bitrate, TestAllModels.target_bitrate. rewrite Hle.
    left. repeat split.
  - rewrite (sibling_unfold _ _ Hle), (target_bitrate_unfold _ _ Hle).
    destruct (bitrate_quotient target_mb duration); cbn [Float.to_int bind];
      try (split; [lia | split; reflexivity]).
    + right. split; [left; reflexivity | split; reflexivity].
    + right. split; [right; reflexivity | split; reflexivity].
Qed.

Section CompressionShape.
Variable st_size : string -> result Z.
Variable ffprobe_duration : string -> result Float.float.
Variable ffmpeg : list string -> result (Z * string).
Variable gettempdir : result string.
Variable mkdir : string -> result unit.
Variable path_stem : string -> string.

Local Abbreviation compress :=
  (compress_audio_for_openai st_size ffprobe_duration ffmpeg gettempdir mkdir
     path_stem).

(** Above the target the function raises before any call, or raises
    when it makes its directory, or makes the directory and runs the
    encoder once. *)
Lemma compress_over_target audio_path target_mb :
  exceeds_target st_size audio_path target_mb ->
  (exists e, compress audio_path target_mb = ([], Raise e))
  \/ (exists tmp e,
        gettempdir = Ok tmp
        /\ mkdir (tmp +:+ "/" +:+ "benchmark_compressed") = Raise e
        /\ compress audio_path target_mb
           = ([Mkdir (tmp +:+ "/" +:+ "benchmark_compressed")], Raise e))
  \/ (exists tmp b r,
        gettempdir = Ok tmp
        /\ mkdir (tmp +:+ "/" +:+ "benchmark_compressed") = Ok tt
        /\ (32 <= b <= 128)%Z
        /\ compress audio_path target_mb
           = ([ Mkdir (tmp +:+ "/" +:+ "benchmark_compressed");
                RunFfmpeg (ffmpeg_cmd audio_path b
                             (compressed_path_of tmp path_stem audio_path)) ],
              r)
        /\ match r with
           | Ok p =>
               p = compressed_path_of tmp path_stem audio_path
               /\ exists stderr,
                    ffmpeg (ffmpeg_cmd audio_path b
                              (compressed_path_of tmp path_stem audio_path))
                    = Ok (0%Z, stderr)
           | Raise _ => True
           end).
Proof.
  intros (size & Hsize & Hbig).
  unfold compress_audio_for_openai.
  rewrite Hsize. cbn [io_lift io_bind fst snd app]. rewrite Hbig.
  destruct (target_bitrate target_mb _) as [b|e] eqn:Hb;
    cbn [io_lift io_bind fst snd app]; [|left; eauto].
  pose proof (target_bitrate_Ok_range _ _ _ Hb) as Hr.
  destruct gettempdir as [tmp|e]; cbn [io_lift io_bind fst snd app];
    [|left; eauto].
  unfold io_emit. cbn [io_lift io_bind fst snd app].
  destruct (mkdir _) as [[]|e] eqn:Hmk; cbn [io_lift io_bind fst snd app].
  2:{ right. left. exists tmp, e. auto. }
  right. right. exists tmp, b.
  fold (compressed_path_of tmp path_stem audio_path).
  destruct (ffmpeg _) as [[rc err]|e] eqn:Hf; cbn [io_lift io_bind fst snd app].
  - destruct (rc =? 0)%Z eqn:Hrc; cbn [negb io_lift io_bind fst snd app].
    + apply Z.eqb_eq in Hrc. subst rc.
      destruct (st_size (compressed_path_of tmp path_stem audio_path));
        cbn [io_lift io_bind io_ret fst snd app].
      * exists (Ok (compressed_path_of tmp path_stem audio_path)).
        do 4 (split; [first [reflexivity | exact Hr | exact Hmk]|]).
        split; [reflexivity|]. by exists err.
      * exists (Raise e).
        do 4 (split; [first [reflexivity | exact Hr | exact Hmk]|]). exact I.
    + eexists (Raise _).
      do 4 (split; [first [reflexivity | exact Hr | exact Hmk]|]). exact I.
  - exists (Raise e).
    do 4 (split; [first [reflexivity | exact Hr | exact Hmk]|]). exact I.
Qed.

(** X11. Whatever the file system, the probe and the encoder answer, the
    function ends in one of four ways.  It makes no call and returns
    the input path; or it makes no call and raises (an unreadable size,
    the duration error, a conversion error, no temporary directory); or
    the call that makes its directory raises, and the encoder is not
    run; or the directory is made and the encoder is run once, with a
    bitrate between 32 and 128.  In the last case a path is returned
    only when the encoder ended with code 0, and it is the path of the
    compressed file. *)
Theorem compress_effects (audio_path : string) (target_mb : Float.float) :
  compress audio_path target_mb = ([], Ok audio_path)
  \/ (exists e, compress audio_path target_mb = ([], Raise e))
  \/ (exists tmp e,
        gettempdir = Ok tmp
        /\ mkdir (tmp +:+ "/" +:+ "benchmark_compressed") = Raise e
        /\ compress audio_path target_mb
           = ([Mkdir (tmp +:+ "/" +:+ "benchmark_compressed")], Raise e))
  \/ (exists tmp b r,
        gettempdir = Ok tmp
        /\ mkdir (tmp +:+ "/" +:+ "benchmark_compressed") = Ok tt
        /\ (32 <= b <= 128)%Z
        /\ compress audio_path target_mb
           = ([ Mkdir (tmp +:+ "/" +:+ "benchmark_compressed");
                RunFfmpeg (ffmpeg_cmd audio_path b
                             (compressed_path_of tmp path_stem audio_path)) ],
              r)
        /\ match r with
           | Ok p =>
               p = compressed_path_of tmp path_stem audio_path
               /\ exists stderr,
                    ffmpeg (ffmpeg_cmd audio_path b
                              (compressed_path_of tmp path_stem audio_path))
                    = Ok (0%Z, stderr)
           | Raise _ => True
           end).
Proof.
  destruct (st_size audio_path) as [size|e] eqn:Hsize.
  2:{ right. left. exists e. unfold compress_audio_for_openai.
      by rewrite Hsize. }
  destruct (Float.leb (SFdiv Float.prec Float.emax (Float.of_Z size)
                         (Float.of_Z (1024 * 1024))) target_mb) eqn:Hfit.
  - left. unfold compress_audio_for_openai. rewrite Hsize.
    cbn [io_lift io_bind fst snd app]. by rewrite Hfit.
  - right. apply compress_over_target. by exists size.
Qed.

End CompressionShape.

(** ** Collisions of the cache key *)

Section CacheKeyProperties.
Variable stat_mtime : unicode -> result string.
Variable stat_mtime1 : string -> result string.

(** X12. The key does not tell its components apart.  A delimiter inside
    the model or the language moves the border between the two without
    changing the key (or the error), and an absent language or prompt
    gives the key of an empty one.  This holds for texts of any code
    points and for the key of the route. *)
Theorem cache_key_collisions :
  (forall (audio_path model x y : unicode) (language prompt : option unicode),
     get_cache_key stat_mtime audio_path (model ++ points "|" ++ x) (Some y)
       prompt
     = get_cache_key stat_mtime audio_path model (Some (x ++ points "|" ++ y))
         prompt
     /\ get_cache_key stat_mtime audio_path model None prompt
        = get_cache_key stat_mtime audio_path model (Some []) prompt
     /\ get_cache_key stat_mtime audio_path model language None
        = get_cache_key stat_mtime audio_path model language (Some []))
  /\ (forall (audio_path model x y : string) (language prompt : option string),
        Latin1.get_cache_key stat_mtime1 audio_path (model +:+ "|" +:+ x)
          (Some y) prompt
        = Latin1.get_cache_key stat_mtime1 audio_path model
            (Some (x +:+ "|" +:+ y)) prompt
        /\ Latin1.get_cache_key stat_mtime1 audio_path model None prompt
           = Latin1.get_cache_key stat_mtime1 audio_path model
               (Some EmptyString) prompt
        /\ Latin1.get_cache_key stat_mtime1 audio_path model language None
           = Latin1.get_cache_key stat_mtime1 audio_path model language
               (Some EmptyString)).
Proof.
  split.
  - intros audio_path model x y language prompt.
    unfold get_cache_key. cbn [or_empty].
    split; [|split; reflexivity].
    do 2 f_equal. rewrite <- !app_assoc. reflexivity.
  - intros audio_path model x y language prompt.
    unfold Latin1.get_cache_key. cbn [Py.or_empty].
    split; [|split; reflexivity].
    do 2 f_equal. f_equal.
    rewrite !append_assoc. reflexivity.
Qed.

End CacheKeyProperties.

(** ** The cache *)

Lemma append_inj_l (s a b : string) : a +:+ s = b +:+ s -> a = b.
Proof.
  revert b. induction a as [|c a IH]; intros [|c' b] H.
  - reflexivity.
  - apply (f_equal String.length) in H.
    rewrite !length_append in H. simpl in H. lia.
  - apply (f_equal String.length) in H.
    rewrite !length_append in H. simpl in H. lia.
  - rewrite !append_cons in H. injection H as -> H. f_equal. by apply IH.
Qed.

Lemma has_char_append c a b :
  has_char c (a +:+ b) = has_char c a || has_char c b.
Proof.
  induction a as [|x a IH]; [reflexivity|].
  rewrite append_cons. simpl. by rewrite IH, orb_assoc.
Qed.

Lemma cache_file_inj k k' : cache_file k = cache_file k' -> k = k'.
Proof. apply append_inj_l. Qed.

Lemma substring_all (s : string) : String.substring 0 (String.length s) s = s.
Proof. induction s as [|c s IH]; [reflexivity|]. simpl. by rewrite IH. Qed.

Lemma substring_suffix (a s : string) :
  String.substring (String.length a) (String.length s) (a +:+ s) = s.
Proof.
  induction a as [|c a IH]; [apply substring_all|].
  rewrite append_cons. simpl. exact IH.
Qed.

Lemma endswith_append (a s : string) : endswith (a +:+ s) s = true.
Proof.
  unfold endswith. rewrite length_append.
  replace (String.length a + String.length s - String.length s)
    with (String.length a) by lia.
  rewrite substring_suffix, String.eqb_refl, andb_true_r.
  apply Nat.leb_le. lia.
Qed.

Lemma dict_truthy_insert (d : dict) k v : dict_truthy (<[k := v]> d) = true.
Proof.
  unfold dict_truthy. rewrite bool_decide_eq_false_2; [reflexivity|].
  apply insert_non_empty.
Qed.

Lemma get_cached_result_truthy cache key hit :
  get_cached_result cache key = Some hit -> dict_truthy hit = true.
Proof.
  unfold get_cached_result.
  destruct (cache !! cache_file key) as [[[]|]|]; try discriminate.
  intros [= <-]. apply dict_truthy_insert.
Qed.

Lemma get_cached_result_frame cache cache' key :
  cache' !! cache_file key = cache !! cache_file key ->
  get_cached_result cache' key = get_cached_result cache key.
Proof. unfold get_cached_result. by intros ->. Qed.

Lemma save_to_cache_other w cache key result name :
  name <> cache_file key ->
  save_to_cache w cache key result !! name = cache !! name.
Proof.
  intros Hne. unfold save_to_cache, dump_to.
  destruct w; cbn [fst]; [|reflexivity|]; by rewrite lookup_insert_ne.
Qed.

Lemma save_to_cache_written cache key result :
  get_cached_result (save_to_cache Written cache key result) key
  = Some (<["_cached" := JBool true]> result).
Proof.
  unfold get_cached_result, save_to_cache, dump_to. simpl.
  by rewrite lookup_insert_eq.
Qed.

(** X13. A result that was saved is read back with the flag [_cached] set
    and otherwise as it was; saving under one key never changes what is
    read under another key (keys that are file names, without a path
    separator), however the write ends; a write that could not be
    opened leaves the old entry, and a write that broke on the way
    leaves none. *)
Theorem cache_round_trip (cache : directory) (cache_key : string)
    (result : dict) :
  get_cached_result (save_to_cache Written cache cache_key result) cache_key
  = Some (<["_cached" := JBool true]> result)
  /\ (forall w other,
        has_char "/" cache_key = false -> has_char "/" other = false ->
        other <> cache_key ->
        get_cached_result (save_to_cache w cache cache_key result) other
        = get_cached_result cache other)
  /\ (forall e,
        get_cached_result (save_to_cache (OpenFailed e) cache cache_key result)
          cache_key
        = get_cached_result cache cache_key)
  /\ (forall e,
        get_cached_result (save_to_cache (DumpFailed e) cache cache_key result)
          cache_key
        = None).
Proof.
  split; [apply save_to_cache_written|]. split; [|split].
  - intros w other _ _ Hne. apply get_cached_result_frame.
    apply save_to_cache_other. intros H. apply Hne. by apply cache_file_inj.
  - reflexivity.
  - intros e. unfold get_cached_result, save_to_cache, dump_to. simpl.
    by rewrite lookup_insert_eq.
Qed.

(** ** [clear_cache] *)

Section ClearCacheProperties.
Variable unlink : string -> result unit.

Lemma clear_fold_raise cache e names :
  foldl (clear_step unlink) (cache, Raise e) names = (cache, Raise e).
Proof. induction names as [|n names IH]; [reflexivity|]. exact IH. Qed.

Lemma clear_step_ok cache count n u :
  unlink n = Ok u ->
  clear_step unlink (cache, Ok count) n = (delete n cache, Ok (count + 1)%Z).
Proof. intros H. unfold clear_step. by rewrite H. Qed.

Lemma clear_step_raise cache count n e :
  unlink n = Raise e ->
  clear_step unlink (cache, Ok count) n = (cache, Raise e).
Proof. intros H. unfold clear_step. by rewrite H. Qed.

(** What the loop never does: it adds nothing, it changes no file, and
    it removes no name outside the list it walks. *)
Lemma clear_fold_sub names : forall cache r name,
  (forall f, fst (foldl (clear_step unlink) (cache, r) names) !! name = Some f ->
             cache !! name = Some f)
  /\ (name ∉ names ->
      fst (foldl (clear_step unlink) (cache, r) names) !! name = cache !! name).
Proof.
  induction names as [|n names IH]; intros cache r name.
  - split; auto.
  - cbn [foldl]. destruct r as [count|e].
    2:{ change (clear_step unlink (cache, Raise e) n)
          with (cache, @Raise Z e).
        rewrite clear_fold_raise. auto. }
    destruct (unlink n) as [u|e] eqn:Hu.
    + rewrite (clear_step_ok _ _ _ _ Hu).
      destruct (IH (delete n cache) (Ok (count + 1)%Z) name) as [H1 H2].
      split.
      * intros f Hf. apply H1 in Hf.
        apply lookup_delete_Some in Hf. tauto.
      * intros Hn. apply not_elem_of_cons in Hn as [Hne Hn].
        rewrite (H2 Hn). by apply lookup_delete_ne.
    + rewrite (clear_step_raise _ _ _ _ Hu), clear_fold_raise. auto.
Qed.

Lemma clear_fold_ok names : forall cache count,
  Forall (fun n => exists u, unlink n = Ok u) names ->
  NoDup names ->
  Forall (fun n => is_Some (cache !! n)) names ->
  snd (foldl (clear_step unlink) (cache, Ok count) names)
  = Ok (count + Z.of_nat (length names))%Z
  /\ size cache
     = size (fst (foldl (clear_step unlink) (cache, Ok count) names))
       + length names
  /\ (forall name, name ∈ names ->
        fst (foldl (clear_step unlink) (cache, Ok count) names) !! name = None).
Proof.
  induction names as [|n names IH]; intros cache count Hu Hnd Hin.
  - cbn [foldl fst snd length]. split; [f_equal; lia|].
    split; [lia|]. intros name H. by apply elem_of_nil in H.
  - apply Forall_cons in Hu as [[u Hu] Hus].
    apply NoDup_cons in Hnd as [Hn Hnd].
    apply Forall_cons in Hin as [Hi Hin].
    cbn [foldl]. rewrite (clear_step_ok _ _ _ _ Hu).
    destruct (IH (delete n cache) (count + 1)%Z Hus Hnd) as (Hc & Hs & Hl).
    { apply Forall_forall. intros x Hx.
      rewrite Forall_forall in Hin. specialize (Hin x Hx).
      rewrite lookup_delete_ne; [exact Hin|]. intros ->. by apply Hn. }
    split; [rewrite Hc; f_equal; cbn [length]; lia|].
    split.
    + rewrite map_size_delete_Some in Hs by exact Hi.
      destruct Hi as [f Hf].
      assert (size cache <> 0).
      { intros H0. apply map_size_empty_inv in H0. subst cache.
        by rewrite lookup_empty in Hf. }
      cbn [length]. lia.
    + intros name Hname. apply elem_of_cons in Hname as [->|Hname].
      * destruct (clear_fold_sub names (delete n cache) (Ok (count + 1)%Z) n)
          as [_ H2].
        rewrite (H2 Hn). apply lookup_delete_eq.
      * by apply Hl.
Qed.

Lemma glob_json_spec (cache : directory) name :
  name ∈ glob_json cache
  <-> (endswith name ".json" = true /\ has_char "/" name = false)
      /\ is_Some (cache !! name).
Proof.
  unfold glob_json. rewrite list_elem_of_filter, list_elem_of_fmap.
  split.
  - intros [He [[n f] [-> Hin]]]. split; [exact He|].
    apply elem_of_map_to_list in Hin. eauto.
  - intros [He [f Hf]]. split; [exact He|].
    exists (name, f). split; [reflexivity|]. by apply elem_of_map_to_list.
Qed.

Lemma glob_json_NoDup (cache : directory) : NoDup (glob_json cache).
Proof. apply NoDup_filter, NoDup_fst_map_to_list. Qed.

(** X14. When every [unlink] succeeds, [clear_cache] removes exactly the
    entries of the directory whose name ends in [.json] and reports
    their number; after it no key (a file name, without a path
    separator) has a cached result. *)
Theorem clear_cache_removes_all (cache : directory) :
  (forall name, name ∈ glob_json cache -> exists u, unlink name = Ok u) ->
  snd (clear_cache unlink cache) = Ok (Z.of_nat (length (glob_json cache)))
  /\ size cache
     = size (fst (clear_cache unlink cache)) + length (glob_json cache)
  /\ (forall name,
        has_char "/" name = false ->
        fst (clear_cache unlink cache) !! name
        = if endswith name ".json" then None else cache !! name)
  /\ (forall cache_key,
        has_char "/" cache_key = false ->
        get_cached_result (fst (clear_cache unlink cache)) cache_key = None).
Proof.
  intros Hu. unfold clear_cache.
  destruct (clear_fold_ok (glob_json cache) cache 0%Z) as (Hc & Hs & Hl).
  { apply Forall_forall. exact Hu. }
  { apply glob_json_NoDup. }
  { apply Forall_forall. intros n Hn. by apply glob_json_spec in Hn as [_ ?]. }
  assert (Hlook : forall name,
            fst (foldl (clear_step unlink) (cache, Ok 0%Z) (glob_json cache))
              !! name
            = if endswith name ".json" && negb (has_char "/" name)
              then None else cache !! name).
  { intros name.
    destruct (clear_fold_sub (glob_json cache) cache (Ok 0%Z) name) as [H1 H2].
    destruct (endswith name ".json" && negb (has_char "/" name)) eqn:He.
    - apply andb_true_iff in He as [He Hs']. apply negb_true_iff in Hs'.
      destruct (cache !! name) as [f|] eqn:Hf.
      + apply Hl. apply glob_json_spec. eauto.
      + apply H2. intros Hin. apply glob_json_spec in Hin as [_ [f Hf2]].
        congruence.
    - apply H2. intros Hin. apply glob_json_spec in Hin as [[He1 He2] _].
      rewrite He1, He2 in He. discriminate He. }
  rewrite Z.add_0_l in Hc.
  split; [exact Hc|]. split; [exact Hs|]. split.
  - intros name Hname. by rewrite Hlook, Hname, andb_true_r.
  - intros key Hkey. unfold get_cached_result. rewrite Hlook.
    unfold cache_file. rewrite endswith_append, has_char_append, Hkey.
    reflexivity.
Qed.

(** X15. Whatever [unlink] does, and also when it raises on the way,
    [clear_cache] adds no file, changes no file, and leaves every entry
    whose name does not end in [.json]. *)
Theorem clear_cache_only_removes_json (cache : directory) (name : string) :
  (forall f, fst (clear_cache unlink cache) !! name = Some f ->
             cache !! name = Some f)
  /\ (has_char "/" name = false -> endswith name ".json" = false ->
      fst (clear_cache unlink cache) !! name = cache !! name).
Proof.
  unfold clear_cache.
  destruct (clear_fold_sub (glob_json cache) cache (Ok 0%Z) name) as [H1 H2].
  split; [exact H1|]. intros _ He. apply H2.
  intros Hin. apply glob_json_spec in Hin as [[He' _] _]. congruence.
Qed.

End ClearCacheProperties.

(** ** The route *)

Lemma provider_known model : provider_of model ∈ known_providers.
Proof.
  unfold provider_of, known_providers.
  destruct (MODELS !! model) as [info|] eqn:H; [|set_solver].
  apply elem_of_list_to_map_2 in H.
  repeat (apply elem_of_cons in H as [[= -> ->]|H]; [cbn [provider]; set_solver|]).
  by apply elem_of_nil in H.
Qed.

Lemma dispatch_known prov audio_path model language user_context :
  prov ∈ known_providers ->
  is_Some (dispatch prov audio_path model language user_context).
Proof.
  unfold known_providers. intros H.
  repeat (apply elem_of_cons in H as [->|H]; [vm_compute; eauto|]).
  by apply elem_of_nil in H.
Qed.

Section RouteProperties.
Variable path_exists : string -> bool.
Variable stat_mtime : string -> result string.
Variable path_stem : string -> string.
Variable run : call -> result dict.
Variable now : string.
Variable cache_write : string -> write_outcome.
Variable results_write : string -> write_outcome.

Local Abbreviation route :=
  (transcribe path_exists stat_mtime path_stem run now cache_write
     results_write).
Local Abbreviation key_of := (request_key stat_mtime).
Local Abbreviation valid := (names_audio path_exists).

Lemma route_no_audio data st :
  (forall audio_path, ~ valid data audio_path) ->
  route data st = ([], st, (400%Z, error_body "Audio file not found")).
Proof.
  intros Hno. unfold transcribe.
  destruct (req_audio_path data) as [p|] eqn:Hp; [|reflexivity].
  destruct (Py.truthy p) eqn:Ht; [|reflexivity].
  destruct (path_exists p) eqn:He; [|reflexivity].
  exfalso. apply (Hno p). by repeat split.
Qed.

Lemma route_hit data audio_path st hit :
  valid data audio_path ->
  get_cached_result (cache_dir st) (key_of data audio_path) = Some hit ->
  route data st = ([], st, (200%Z, hit)).
Proof.
  intros (Hp & Ht & He) Hc. unfold transcribe. rewrite Hp, Ht, He. cbn [negb orb].
  fold (key_of data audio_path). rewrite Hc.
  by rewrite (get_cached_result_truthy _ _ _ Hc).
Qed.

(** The call a miss leads to. *)
Lemma route_miss data audio_path st :
  valid data audio_path ->
  get_cached_result (cache_dir st) (key_of data audio_path) = None ->
  exists c,
    dispatch (provider_of (default "whisper-1" (req_model data))) audio_path
      (default "whisper-1" (req_model data)) (req_language data)
      (req_user_context data) = Some c
    /\ route data st
       = match run c with
         | Raise e => ([c], st, (500%Z, error_body (exn_str e)))
         | Ok result =>
             let cache' :=
               save_to_cache (cache_write (cache_file (key_of data audio_path)))
                 (cache_dir st) (key_of data audio_path) result in
             let result_file :=
               path_stem audio_path +:+ "_"
               +:+ default "whisper-1" (req_model data) +:+ "_" +:+ now
               +:+ ".json" in
             let written :=
               dump_to (results_write result_file) (results_dir st)
                 result_file (JObj result) in
             let st' := {| cache_dir := cache'; results_dir := fst written |} in
             match snd written with
             | Ok _ => ([c], st', (200%Z, result))
             | Raise e => ([c], st', (500%Z, error_body (exn_str e)))
             end
         end.
Proof.
  intros (Hp & Ht & He) Hc.
  destruct (dispatch_known _ audio_path (default "whisper-1" (req_model data))
              (req_language data) (req_user_context data)
              (provider_known (default "whisper-1" (req_model data))))
    as [c Hd].
  exists c. split; [exact Hd|].
  unfold transcribe. rewrite Hp, Ht, He. cbn [negb orb].
  fold (key_of data audio_path). rewrite Hc, Hd. reflexivity.
Qed.

(** X16. A request whose key has a readable entry in the cache is answered
    with that entry and the flag [_cached]; no provider is called and
    nothing is written. *)
Theorem cache_hit_calls_no_provider (data : request) (audio_path : string)
    (st : store) (entry : dict) :
  valid data audio_path ->
  cache_dir st !! cache_file (key_of data audio_path)
  = Some (FJson (JObj entry)) ->
  route data st = ([], st, (200%Z, <["_cached" := JBool true]> entry)).
Proof.
  intros Hv Hc. apply (route_hit _ _ _ _ Hv).
  unfold get_cached_result. by rewrite Hc.
Qed.

(** X17. Once a provider has returned a result and the cache file could be
    written, the same request is answered from the cache: status 200,
    the provider's result with the flag [_cached], no provider call, no
    write.  This holds also when the first answer was an error because
    the results file could not be written. *)
Theorem repeated_request_served_from_cache (data : request)
    (audio_path : string) (st st1 : store) (c : call) (resp : Z * dict)
    (result : dict) :
  valid data audio_path ->
  cache_write (cache_file (key_of data audio_path)) = Written ->
  route data st = ([c], st1, resp) ->
  run c = Ok result ->
  route data st1 = ([], st1, (200%Z, <["_cached" := JBool true]> result))
  /\ (resp = (200%Z, result)
      \/ exists e, resp = (500%Z, error_body (exn_str e))).
Proof.
  intros Hv Hw Hr Hrun.
  destruct (get_cached_result (cache_dir st) (key_of data audio_path))
    as [hit|] eqn:Hc.
  { rewrite (route_hit _ _ _ _ Hv Hc) in Hr. discriminate Hr. }
  destruct (route_miss _ _ _ Hv Hc) as (c' & Hd & Hroute).
  rewrite Hroute in Hr. clear Hroute.
  destruct (run c') as [result'|e] eqn:Hrun'.
  2:{ simplify_eq; congruence. }
  cbn zeta in Hr. rewrite Hw in Hr.
  destruct (snd _) in Hr; simplify_eq;
    (assert (result' = result) as -> by congruence).
  - split; [|by left].
    apply (route_hit _ _ _ _ Hv). cbn [cache_dir]. apply save_to_cache_written.
  - split; [|right; eauto].
    apply (route_hit _ _ _ _ Hv). cbn [cache_dir]. apply save_to_cache_written.
Qed.

(** X18. The only bad request is one that names no existing audio file.
    The answer "Unknown provider" is never given: every model, listed or
    not, leads to one of the three providers. *)
Theorem bad_request_means_no_audio (data : request) (st st1 : store)
    (calls : list call) (body : dict) :
  route data st = (calls, st1, (400%Z, body)) ->
  body = error_body "Audio file not found"
  /\ calls = [] /\ st1 = st
  /\ forall audio_path, ~ valid data audio_path.
Proof.
  intros Hr.
  assert (Hno : forall audio_path, ~ valid data audio_path).
  { intros p Hv.
    destruct (get_cached_result (cache_dir st) (key_of data p)) as [hit|] eqn:Hc.
    - rewrite (route_hit _ _ _ _ Hv Hc) in Hr. discriminate Hr.
    - destruct (route_miss _ _ _ Hv Hc) as (c & _ & Hroute).
      rewrite Hroute in Hr. clear Hroute.
      destruct (run c); [cbn zeta in Hr; destruct (snd _) in Hr|];
        discriminate Hr. }
  rewrite (route_no_audio _ _ Hno) in Hr. injection Hr as <- <- <-. auto.
Qed.

(** X19. What a request can do to the store.  A provider is called at most
    once, and only for an existing audio file with no cached result;
    without a call nothing is written; when the provider raises, the
    answer is its error with status 500 and nothing is written, so that
    an error is never cached; when it returns, at most the cache file of
    the request's key and one results file change (among the entries of
    the two directories, for a model name without a path separator). *)
Theorem route_footprint (data : request) (st : store) :
  match route data st with
  | ([], st1, _) => st1 = st
  | ([c], st1, resp) =>
      exists audio_path,
        valid data audio_path
        /\ get_cached_result (cache_dir st) (key_of data audio_path) = None
        /\ match run c with
           | Raise e => st1 = st /\ resp = (500%Z, error_body (exn_str e))
           | Ok result =>
               (forall name,
                  has_char "/" name = false ->
                  name <> cache_file (key_of data audio_path) ->
                  cache_dir st1 !! name = cache_dir st !! name)
               /\ (forall name,
                     has_char "/" name = false ->
                     has_char "/" (default "whisper-1" (req_model data))
                     = false ->
                     name <> path_stem audio_path +:+ "_"
                             +:+ default "whisper-1" (req_model data)
                             +:+ "_" +:+ now +:+ ".json" ->
                     results_dir st1 !! name = results_dir st !! name)
           end
  | _ => False
  end.
Proof.
  destruct (req_audio_path data) as [p|] eqn:Hp.
  2:{ unfold transcribe. by rewrite Hp. }
  destruct (Py.truthy p) eqn:Ht.
  2:{ unfold transcribe. by rewrite Hp, Ht. }
  destruct (path_exists p) eqn:He.
  2:{ unfold transcribe. by rewrite Hp, Ht, He. }
  assert (Hv : valid data p) by (by repeat split).
  destruct (get_cached_result (cache_dir st) (key_of data p)) as [hit|] eqn:Hc.
  { by rewrite (route_hit _ _ _ _ Hv Hc). }
  destruct (route_miss _ _ _ Hv Hc) as (c & _ & ->).
  destruct (run c) as [result|e] eqn:Hrun.
  2:{ exists p. rewrite Hrun. auto. }
  cbn zeta.
  assert (Hframe :
    (forall name, name <> cache_file (key_of data p) ->
       save_to_cache (cache_write (cache_file (key_of data p))) (cache_dir st)
         (key_of data p) result !! name = cache_dir st !! name)
    /\ (forall name,
          name <> path_stem p +:+ "_" +:+ default "whisper-1" (req_model data)
                  +:+ "_" +:+ now +:+ ".json" ->
          fst (dump_to (results_write
                          (path_stem p +:+ "_"
                           +:+ default "whisper-1" (req_model data)
                           +:+ "_" +:+ now +:+ ".json"))
                 (results_dir st)
                 (path_stem p +:+ "_" +:+ default "whisper-1" (req_model data)
                  +:+ "_" +:+ now +:+ ".json") (JObj result)) !! name
          = results_dir st !! name)).
  { split.
    - intros name Hne. by apply save_to_cache_other.
    - intros name Hne. unfold dump_to.
      destruct (results_write _); cbn [fst]; [|reflexivity|];
        by rewrite lookup_insert_ne. }
  destruct Hframe as [Hf1 Hf2].
  destruct (snd _); exists p; rewrite Hrun; cbn [cache_dir results_dir];
    auto.
Qed.

End RouteProperties.

Lemma clear_cache_removes_all_witness :
  let unlink := fun _ : string => Ok tt in
  let cache : directory :=
    <["0123456789abcdef.json" := FJson (JObj ∅)]> (<["notes.txt" := FOther]> ∅) in
  snd (clear_cache unlink cache) = Ok (Z.of_nat (length (glob_json cache)))
  /\ size cache = size (fst (clear_cache unlink cache)) + length (glob_json cache)
  /\ (forall name,
        has_char "/" name = false ->
        fst (clear_cache unlink cache) !! name
        = if endswith name ".json" then None else cache !! name)
  /\ (forall cache_key,
        has_char "/" cache_key = false ->
        get_cached_result (fst (clear_cache unlink cache)) cache_key = None).
Proof.
  intros unlink cache.
  apply (clear_cache_removes_all unlink cache).
  intros name _. exists tt. reflexivity.
Defined.

Lemma cache_hit_calls_no_provider_witness :
  let path_exists := fun _ : string => true in
  let stat_mtime := fun _ : string => Ok "1768644573.0" in
  let path_stem := fun _ : string => "meeting" in
  let run := fun _ : call => @Raise dict (ValueError "not called") in
  let write := fun _ : string => Written in
  let data := {| req_audio_path := Some "meeting.m4a"; req_model := None;
                 req_language := Some "pt"; req_user_context := None |} in
  let entry : dict := {[ "text" := JStr "bom dia" ]} in
  let st := {| cache_dir :=
                 {[ cache_file (request_key stat_mtime data "meeting.m4a")
                    := FJson (JObj entry) ]};
               results_dir := ∅ |} in
  transcribe path_exists stat_mtime path_stem run "20260117_100933" write write
    data st
  = ([], st, (200%Z, <["_cached" := JBool true]> entry)).
Proof.
  intros path_exists stat_mtime path_stem run write data entry st.
  apply (cache_hit_calls_no_provider path_exists stat_mtime path_stem run
           "20260117_100933" write write data "meeting.m4a" st entry).
  - repeat split.
  - apply lookup_singleton_eq.
Defined.

Lemma repeated_request_served_from_cache_witness :
  let path_exists := fun _ : string => true in
  let stat_mtime := fun _ : string => Ok "1768644573.0" in
  let path_stem := fun _ : string => "meeting" in
  let result : dict := {[ "text" := JStr "bom dia" ]} in
  let run := fun _ : call => Ok result in
  let cache_write := fun _ : string => Written in
  let results_write := fun _ : string => OpenFailed (OSError "read-only") in
  let data := {| req_audio_path := Some "meeting.m4a"; req_model := None;
                 req_language := Some "pt"; req_user_context := None |} in
  let st := {| cache_dir := ∅; results_dir := ∅ |} in
  let st1 :=
    {| cache_dir :=
         {[ cache_file (request_key stat_mtime data "meeting.m4a")
            := FJson (JObj result) ]};
       results_dir := ∅ |} in
  transcribe path_exists stat_mtime path_stem run "20260117_100933"
    cache_write results_write data st1
  = ([], st1, (200%Z, <["_cached" := JBool true]> result)).
Proof.
  intros path_exists stat_mtime path_stem result run cache_write results_write
    data st st1.
  apply (repeated_request_served_from_cache path_exists stat_mtime path_stem
           run "20260117_100933" cache_write results_write data "meeting.m4a"
           st st1 (transcribe_openai "meeting.m4a" "whisper-1" (Some "pt") None)
           (500%Z, error_body "read-only") result).
  - repeat split.
  - reflexivity.
  - reflexivity.
  - reflexivity.
Defined.

Lemma bad_request_means_no_audio_witness :
  let path_exists := fun _ : string => false in
  let stat_mtime := fun _ : string => @Raise string (OSError "No such file") in
  let path_stem := fun _ : string => "meeting" in
  let run := fun _ : call => @Raise dict (ValueError "not called") in
  let write := fun _ : string => Written in
  let data := {| req_audio_path := Some "meeting.m4a";
                 req_model := Some "no-such-model";
                 req_language := None; req_user_context := None |} in
  let st := {| cache_dir := ∅; results_dir := ∅ |} in
  error_body "Audio file not found" = error_body "Audio file not found"
  /\ @nil call = [] /\ st = st
  /\ forall audio_path, ~ names_audio path_exists data audio_path.
Proof.
  intros path_exists stat_mtime path_stem run write data st.
  apply (bad_request_means_no_audio path_exists stat_mtime path_stem run
           "20260117_100933" write write data st st []
           (error_body "Audio file not found")).
  reflexivity.
Defined.

(** ** The size check of [transcribe_openai] *)

Lemma compare_cont_Eq (p q : positive) :
  PosDef.Pos.compare_cont Eq p q = (p ?= q)%positive.
Proof. reflexivity. Qed.

(** Above a positive finite value is not within a smaller one of the same
    exponent. *)
Lemma above_not_within (a b : positive) (e0 : Z) (x : Float.float) :
  (b < a)%positive ->
  SFltb (S754_finite false a e0) x = true ->
  SFleb x (S754_finite false b e0) = false.
Proof.
  intros Hab. unfold SFltb, SFleb.
  destruct x as [s|[]| |[] m e]; cbn [SFcompare];
    try (intros H; first [discriminate H | reflexivity]).
  rewrite (Z.compare_antisym e e0).
  destruct (e ?= e0)%Z eqn:He; cbn [CompOpp];
    try (intros H; first [discriminate H | reflexivity]).
  rewrite (compare_cont_Eq a m), (compare_cont_Eq m b).
  destruct (Pos.compare_spec a m) as [H1|H1|H1];
    try (intros H; discriminate H).
  intros _.
  destruct (Pos.compare_spec m b) as [H2|H2|H2];
    [exfalso|exfalso|reflexivity]; lia.
Qed.

Lemma above_25_not_within_24 (x : Float.float) :
  Float.ltb (Float.of_Z 25) x = true -> Float.leb x (Float.of_Z 24) = false.
Proof.
  unfold Float.ltb, Float.leb.
  replace (Float.of_Z 25) with (S754_finite false 7036874417766400 (-48))
    by (vm_compute; reflexivity).
  replace (Float.of_Z 24) with (S754_finite false 6755399441055744 (-48))
    by (vm_compute; reflexivity).
  apply above_not_within. vm_compute. reflexivity.
Qed.

Section OpenAIChecksProperties.
Variable st_size : string -> result Z.
Variable ffprobe_duration : string -> result Float.float.
Variable ffmpeg : list string -> result (Z * string).
Variable gettempdir : result string.
Variable mkdir : string -> result unit.
Variable path_stem : string -> string.
Variable format_1f : Float.float -> string.

Local Abbreviation compress :=
  (compress_audio_for_openai st_size ffprobe_duration ffmpeg gettempdir mkdir
     path_stem).
Local Abbreviation check :=
  (check_size st_size ffprobe_duration ffmpeg gettempdir mkdir path_stem
     format_1f).
Local Abbreviation mb_of := (size_mb st_size).

Lemma size_mb_exceeds audio_path mb :
  mb_of audio_path = Ok mb ->
  Float.ltb (Float.of_Z 25) mb = true ->
  exceeds_target st_size audio_path (Float.of_Z 24).
Proof.
  unfold size_mb. intros Hmb Hbig.
  destruct (st_size audio_path) as [size|e] eqn:Hs; [|discriminate Hmb].
  cbn [bind] in Hmb.
  exists size. split; [exact Hs|]. apply above_25_not_within_24. congruence.
Qed.

(** X20. The path that [transcribe_openai] opens for the upload is never
    that of a file above 25 MB: it is the input, when the input is at
    most 25 MB, or the compressed file under the temporary directory,
    when that is. *)
Theorem upload_never_above_limit (audio_path upload : string) :
  snd (check audio_path) = Ok upload ->
  (exists mb,
     mb_of upload = Ok mb /\ Float.ltb (Float.of_Z 25) mb = false)
  /\ (upload = audio_path /\ fst (check audio_path) = []
      \/ exists tmp,
           gettempdir = Ok tmp
           /\ upload = compressed_path_of tmp path_stem audio_path
           /\ snd (compress audio_path (Float.of_Z 24)) = Ok upload).
Proof.
  unfold check_size.
  destruct (mb_of audio_path) as [mb|e] eqn:Hmb;
    cbn [io_lift io_bind fst snd app]; [|discriminate].
  destruct (Float.ltb (Float.of_Z 25) mb) eqn:Hbig.
  - destruct (compress_over_target st_size ffprobe_duration ffmpeg gettempdir
                mkdir path_stem audio_path (Float.of_Z 24)
                (size_mb_exceeds _ _ Hmb Hbig))
      as [[e He]|[(tmp & e & _ & _ & He)|(tmp & b & r & Htmp & _ & _ & Hc & Hr)]].
    + rewrite He. cbn [fst snd]. discriminate.
    + rewrite He. cbn [fst snd]. discriminate.
    + rewrite Hc. destruct r as [p|e]; cbn [fst snd app]; [|discriminate].
      destruct Hr as [-> _].
      destruct (mb_of (compressed_path_of tmp path_stem audio_path))
        as [new_mb|e] eqn:Hnew; cbn [fst snd]; [|discriminate].
      destruct (Float.ltb (Float.of_Z 25) new_mb) eqn:Hstill;
        cbn [fst snd]; [discriminate|].
      intros [= <-]. split; [eauto|]. right. exists tmp. auto.
  - cbn [io_ret fst snd app]. intros [= <-]. split; [eauto|]. left. auto.
Qed.

(** X21. For a file above 25 MB the compressor never hands the input back:
    the check either fails with the error "File too large ...", or the
    directory was made, the encoder has run once with a bitrate between
    32 and 128, and the path returned is that of the compressed file.
    When the check fails, the encoder has run only if the directory was
    made before. *)
Theorem oversize_compressed_or_refused (audio_path : string)
    (mb : Float.float) :
  mb_of audio_path = Ok mb ->
  Float.ltb (Float.of_Z 25) mb = true ->
  match check audio_path with
  | (evs, Ok upload) =>
      exists tmp b,
        gettempdir = Ok tmp
        /\ mkdir (tmp +:+ "/" +:+ "benchmark_compressed") = Ok tt
        /\ upload = compressed_path_of tmp path_stem audio_path
        /\ (32 <= b <= 128)%Z
        /\ evs = [ Mkdir (tmp +:+ "/" +:+ "benchmark_compressed");
                   RunFfmpeg (ffmpeg_cmd audio_path b
                                (compressed_path_of tmp path_stem audio_path)) ]
  | (evs, Raise e) =>
      (exists shown cause,
         e = ValueError ("File too large (" +:+ format_1f shown
                         +:+ "MB) and compression failed: " +:+ exn_str cause))
      /\ (evs = []
          \/ (exists tmp cause,
                gettempdir = Ok tmp
                /\ mkdir (tmp +:+ "/" +:+ "benchmark_compressed") = Raise cause
                /\ evs = [Mkdir (tmp +:+ "/" +:+ "benchmark_compressed")]
                /\ e = too_large format_1f mb cause)
          \/ (exists tmp b,
                gettempdir = Ok tmp
                /\ mkdir (tmp +:+ "/" +:+ "benchmark_compressed") = Ok tt
                /\ (32 <= b <= 128)%Z
                /\ evs = [ Mkdir (tmp +:+ "/" +:+ "benchmark_compressed");
                           RunFfmpeg
                             (ffmpeg_cmd audio_path b
                                (compressed_path_of tmp path_stem audio_path)) ]))
  end.
Proof.
  intros Hmb Hbig. unfold check_size.
  rewrite Hmb. cbn [io_lift io_bind fst snd app]. rewrite Hbig.
  destruct (compress_over_target st_size ffprobe_duration ffmpeg gettempdir
                mkdir path_stem audio_path (Float.of_Z 24)
              (size_mb_exceeds _ _ Hmb Hbig))
    as [[e He]|[(tmp & e & Htmp & Hmk & He)
               |(tmp & b & r & Htmp & Hmk & Hb & Hc & Hr)]].
  - rewrite He. split; [unfold too_large; eauto | by left].
  - rewrite He. split; [unfold too_large; eauto|].
    right. left. exists tmp, e. auto.
  - rewrite Hc.
    assert (Hran : forall e0,
      [ Mkdir (tmp +:+ "/" +:+ "benchmark_compressed");
        RunFfmpeg (ffmpeg_cmd audio_path b
                     (compressed_path_of tmp path_stem audio_path)) ] = []
      \/ (exists tmp0 cause,
            gettempdir = Ok tmp0
            /\ mkdir (tmp0 +:+ "/" +:+ "benchmark_compressed") = Raise cause
            /\ [ Mkdir (tmp +:+ "/" +:+ "benchmark_compressed");
                 RunFfmpeg (ffmpeg_cmd audio_path b
                              (compressed_path_of tmp path_stem audio_path)) ]
               = [Mkdir (tmp0 +:+ "/" +:+ "benchmark_compressed")]
            /\ e0 = too_large format_1f mb cause)
      \/ (exists tmp0 b0,
            gettempdir = Ok tmp0
            /\ mkdir (tmp0 +:+ "/" +:+ "benchmark_compressed") = Ok tt
            /\ (32 <= b0 <= 128)%Z
            /\ [ Mkdir (tmp +:+ "/" +:+ "benchmark_compressed");
                 RunFfmpeg (ffmpeg_cmd audio_path b
                              (compressed_path_of tmp path_stem audio_path)) ]
               = [ Mkdir (tmp0 +:+ "/" +:+ "benchmark_compressed");
                   RunFfmpeg
                     (ffmpeg_cmd audio_path b0
                        (compressed_path_of tmp0 path_stem audio_path)) ])).
    { intros e0. right. right. exists tmp, b. auto. }
    destruct r as [p|e]; cbn [fst snd app].
    2:{ split; [unfold too_large; eauto | apply Hran]. }
    destruct Hr as [-> _].
    destruct (mb_of (compressed_path_of tmp path_stem audio_path))
      as [new_mb|e] eqn:Hnew; cbn [fst snd].
    2:{ split; [unfold too_large; eauto | apply Hran]. }
    destruct (Float.ltb (Float.of_Z 25) new_mb) eqn:Hstill; cbn [fst snd].
    + split; [unfold too_large; eauto | apply Hran].
    + exists tmp, b. auto.
Qed.

End OpenAIChecksProperties.

(** ** The two copies of the compression *)

Section TestCompressionProperties.
Variable st_size : string -> result Z.
Variable ffprobe_duration : string -> result Float.float.
Variable ffmpeg : list string -> result (Z * string).
Variable gettempdir : result string.
Variable mkdir : string -> result unit.
Variable path_stem : string -> string.

(** X22. [compress_audio] of the test script and
    [compress_audio_for_openai] of the application do the same for
    every file, target and answer of the tools and of the file system,
    a temporary directory that is missing or a directory that cannot be
    made included: the same path or the same error after the same
    calls.  The one difference is the text of the error for a duration
    that is not above zero. *)
Theorem compression_copies_agree (audio_path : string)
    (target_mb : Float.float) :
  compress_audio st_size ffprobe_duration ffmpeg gettempdir mkdir path_stem
    audio_path target_mb
  = compress_audio_for_openai st_size ffprobe_duration ffmpeg gettempdir
      mkdir path_stem audio_path target_mb
  \/ (compress_audio st_size ffprobe_duration ffmpeg gettempdir mkdir
        path_stem audio_path target_mb
      = ([], Raise (ValueError "Could not determine audio duration"))
      /\ compress_audio_for_openai st_size ffprobe_duration ffmpeg gettempdir
           mkdir path_stem audio_path target_mb
         = ([], Raise (ValueError
                         "Could not determine audio duration for compression"))
      /\ Float.leb (get_audio_duration ffprobe_duration audio_path) Float.zero
         = true).
Proof.
  unfold compress_audio, compress_audio_for_openai.
  destruct (st_size audio_path) as [size|e];
    cbn [io_lift io_bind fst snd app]; [|by left].
  destruct (Float.leb _ target_mb); [by left|].
  destruct (Float.leb (get_audio_duration ffprobe_duration audio_path)
              Float.zero) eqn:Hle.
  - right. unfold target_bitrate, TestAllModels.target_bitrate.
    rewrite Hle. auto.
  - left. by rewrite (sibling_unfold _ _ Hle).
Qed.

End TestCompressionProperties.

(** ** Instances of the properties with a hypothesis *)

Lemma leading_lines_dropped_witness :
  parse_gemini_diarization
    ("Here is the transcript." +:+ nl +:+ "[Speaker A, 0:00] Hello.")
  = parse_gemini_diarization "[Speaker A, 0:00] Hello.".
Proof.
  apply (leading_lines_dropped "Here is the transcript."
           "[Speaker A, 0:00] Hello.").
  intros line p Hl Hp.
  assert (Hl' : In line ["Here is the transcript."]).
  { apply list_elem_of_In. exact Hl. }
  apply list_elem_of_In in Hp.
  simpl in Hl'. simpl in Hp.
  repeat match goal with
         | H : _ \/ _ |- _ => destruct H as [H|H]
         | H : False |- _ => destruct H
         end; subst; vm_compute; reflexivity.
Defined.

Lemma content_lines_decide_witness :
  parse_gemini_diarization
    ("  [Speaker A, 0:00] Hello. " +:+ nl +:+ nl +:+ " More." +:+ nl)
  = parse_gemini_diarization
      ("[Speaker A, 0:00] Hello." +:+ nl +:+ "More.").
Proof.
  apply (content_lines_decide
           ("  [Speaker A, 0:00] Hello. " +:+ nl +:+ nl +:+ " More." +:+ nl)
           ("[Speaker A, 0:00] Hello." +:+ nl +:+ "More.")).
  vm_compute. reflexivity.
Defined.

Lemma upload_never_above_limit_witness :
  let st_size := fun p : string =>
    if String.eqb p "a.m4a" then Ok (30 * 1024 * 1024)%Z
    else Ok (20 * 1024 * 1024)%Z in
  let ffprobe := fun _ : string => Ok (Float.of_Z 2500) in
  let ffmpeg := fun _ : list string => Ok (0%Z, EmptyString) in
  let mkdir := fun _ : string => Ok tt in
  let format_1f := fun _ : Float.float => "30.0" in
  let upload := "/tmp/benchmark_compressed/compressed_a.m4a" in
  (exists mb,
     size_mb st_size upload = Ok mb
     /\ Float.ltb (Float.of_Z 25) mb = false)
  /\ (upload = "a.m4a"
      /\ fst (check_size st_size ffprobe ffmpeg (Ok "/tmp") mkdir
                (fun _ => "a") format_1f "a.m4a") = []
      \/ exists tmp,
           Ok "/tmp" = Ok tmp
           /\ upload = compressed_path_of tmp (fun _ => "a") "a.m4a"
           /\ snd (compress_audio_for_openai st_size ffprobe ffmpeg (Ok "/tmp")
                     mkdir (fun _ => "a") "a.m4a" (Float.of_Z 24)) = Ok upload).
Proof.
  intros st_size ffprobe ffmpeg mkdir format_1f upload.
  apply (upload_never_above_limit st_size ffprobe ffmpeg (Ok "/tmp") mkdir
           (fun _ => "a") format_1f "a.m4a" upload).
  vm_compute. reflexivity.
Defined.

Lemma oversize_compressed_or_refused_witness :
  let st_size := fun p : string =>
    if String.eqb p "a.m4a" then Ok (30 * 1024 * 1024)%Z
    else Ok (20 * 1024 * 1024)%Z in
  let ffprobe := fun _ : string => Ok (Float.of_Z 2500) in
  let ffmpeg := fun _ : list string => Ok (0%Z, EmptyString) in
  let mkdir := fun _ : string =>
    Raise (OSError "[Errno 13] Permission denied") in
  let format_1f := fun _ : Float.float => "30.0" in
  snd (check_size st_size ffprobe ffmpeg (Ok "/tmp") mkdir (fun _ => "a")
         format_1f "a.m4a")
  = Raise (ValueError "File too large (30.0MB) and compression failed: [Errno 13] Permission denied")
  /\ fst (check_size st_size ffprobe ffmpeg (Ok "/tmp") mkdir (fun _ => "a")
            format_1f "a.m4a")
     = [Mkdir "/tmp/benchmark_compressed"].
Proof.
  intros st_size ffprobe ffmpeg mkdir format_1f.
  pose proof (oversize_compressed_or_refused st_size ffprobe ffmpeg (Ok "/tmp")
                mkdir (fun _ => "a") format_1f "a.m4a" (Float.of_Z 30)
                ltac:(vm_compute; reflexivity) ltac:(vm_compute; reflexivity))
    as H.
  destruct (check_size st_size ffprobe ffmpeg (Ok "/tmp") mkdir (fun _ => "a")
              format_1f "a.m4a") as [evs [upload|e]] eqn:Hc.
  - vm_compute in Hc. discriminate Hc.
  - destruct H as [_ [->|[(tmp & cause & Htmp & Hmk & -> & ->)
                         |(tmp & b & _ & Hmk & _)]]].
    + vm_compute in Hc. discriminate Hc.
    + injection Htmp as <-. vm_compute in Hmk. injection Hmk as <-.
      split; reflexivity.
    + vm_compute in Hmk. discriminate Hmk.
Defined.
